(** * Link-graph widget of the site (assets/graph-script.js)

    A shallow embedding of the client-side graph script: the index loader,
    the edge builder, the static force layout, the modal viewer's state, the
    page augmentation (backlinks / related content) and the recent-pages log,
    followed by the properties established about them.

    Conventions.
    - JavaScript strings are modelled by [string]; a character stands for one
      code unit below 256.
    - A JavaScript [Map] whose iteration order is observed is an association
      list in insertion order ([Js.jsmap]); a [Set] or [Map] that is only
      queried is a [gset] / [gmap].
    - The d3 force simulation and the DOM are outside the script: the
      simulation is an interface ([ForceSimulation]), DOM calls are recorded
      as effects. *)

From Stdlib Require Import String Ascii List ZArith QArith Qminmax Lia Bool.
From stdpp Require Import gmap strings.
Import ListNotations.
Local Open Scope string_scope.
Local Open Scope list_scope.

(* ===================================================================== *)
(** * Part I. The program                                                 *)
(* ===================================================================== *)

(** ** JavaScript string and Map primitives used by the script *)

Module Js.

Definition chars (s : string) : list ascii := list_ascii_of_string s.
Definition str (l : list ascii) : string := string_of_list_ascii l.

(** [s.startsWith(p)] *)
Definition startsWith (s p : string) : bool := String.prefix p s.

(** [s.endsWith(p)] *)
Definition endsWith (s p : string) : bool :=
  String.prefix (str (rev (chars p))) (str (rev (chars s))).

(** [s.includes(sub)] *)
Fixpoint includes (s sub : string) : bool :=
  String.prefix sub s
  || match s with
     | EmptyString => false
     | String _ s' => includes s' sub
     end.

(** [s.split(sep)] for a one-character separator; never the empty array. *)
Fixpoint split (sep : ascii) (s : string) : list string :=
  match s with
  | EmptyString => [EmptyString]
  | String c s' =>
      if Ascii.eqb c sep then EmptyString :: split sep s'
      else match split sep s' with
           | [] => [String c EmptyString]
           | h :: t => String c h :: t
           end
  end.

(** [a.join(sep)] *)
Definition join (sep : string) (a : list string) : string := String.concat sep a.

(** [a.slice(0, -1)] *)
Definition dropLast {A} (a : list A) : list A := removelast a.

(** [a.pop()] on a non-empty array of strings (the value returned). *)
Definition pop (a : list string) : string := List.last a EmptyString.

Definition isDigit (c : ascii) : bool :=
  let n := nat_of_ascii c in (48 <=? n)%nat && (n <=? 57)%nat.

(** ASCII case folding, which is all a non-unicode [/i] pattern made of
    ASCII letters can see. *)
Definition asciiLower (c : ascii) : ascii :=
  let n := nat_of_ascii c in
  if (65 <=? n)%nat && (n <=? 90)%nat then ascii_of_nat (n + 32) else c.

(** [String.prototype.toLowerCase] on code units below 256: A-Z and the
    Latin-1 capitals (0xC0-0xDE except the multiplication sign 0xD7). *)
Definition lowerUnit (c : ascii) : ascii :=
  let n := nat_of_ascii c in
  if (65 <=? n)%nat && (n <=? 90)%nat then ascii_of_nat (n + 32)
  else if (192 <=? n)%nat && (n <=? 222)%nat && negb (n =? 215)%nat
       then ascii_of_nat (n + 32)
       else c.

Definition toLowerCase (s : string) : string := str (map lowerUnit (chars s)).

(** [s.replace(/[\/\.]/g, '-')] *)
Definition slashDotToDash (s : string) : string :=
  str (map (fun c => if Ascii.eqb c "/" || Ascii.eqb c "." then "-"%char else c)
           (chars s)).

(** [s.replace(/^-|-$/g, '')]: one leading dash, then one trailing dash of
    what is left. *)
Definition stripEdgeDashes (s : string) : string :=
  let s1 := match s with
            | String "-" r => r
            | _ => s
            end in
  match rev (chars s1) with
  | "-"%char :: r => str (rev r)
  | _ => s1
  end.

(** [s.replace(/html$/g, '')] *)
Definition stripTrailingHtml (s : string) : string :=
  match rev (chars s) with
  | "l"%char :: "m"%char :: "t"%char :: "h"%char :: r => str (rev r)
  | _ => s
  end.

Fixpoint dropDigits (l : list ascii) : list ascii :=
  match l with
  | c :: l' => if isDigit c then dropDigits l' else l
  | [] => []
  end.

(** [s.replace(/-\d+$/, '')]: the leftmost match is the dash in front of
    the maximal run of digits that ends the string. *)
Definition stripDashDigitsAtEnd (s : string) : string :=
  let r := rev (chars s) in
  let rest := dropDigits r in
  if (length rest <? length r)%nat then
    match rest with
    | "-"%char :: r' => str (rev r')
    | _ => s
    end
  else s.

(** Does [l] start with the literal [lit], ASCII case folded? Returns what
    follows the literal. *)
Fixpoint afterLiteralCI (lit l : list ascii) : option (list ascii) :=
  match lit, l with
  | [], _ => Some l
  | a :: lit', c :: l' =>
      if Ascii.eqb (asciiLower a) (asciiLower c) then afterLiteralCI lit' l' else None
  | _ :: _, [] => None
  end.

(** [s.replace(/<lit>\d+/i, '')] without the [g] flag: the first position
    where the literal is followed by a digit; the digits are taken
    greedily. *)
Fixpoint removeLiteralDigits (lit l : list ascii) : list ascii :=
  match l with
  | [] => []
  | c :: l' =>
      match afterLiteralCI lit l with
      | Some tl =>
          let rest := dropDigits tl in
          if (length rest <? length tl)%nat then rest
          else c :: removeLiteralDigits lit l'
      | None => c :: removeLiteralDigits lit l'
      end
  end.

Definition removePartN (s : string) : string :=
  str (removeLiteralDigits (chars "part-") (chars s)).
Definition removeSeriesN (s : string) : string :=
  str (removeLiteralDigits (chars "series-") (chars s)).

(** A [Map] with string keys, in insertion order. *)
Definition jsmap (V : Type) : Type := list (string * V).

Definition mapHas {V} (k : string) (m : jsmap V) : bool :=
  existsb (fun kv => String.eqb (fst kv) k) m.

(** [m.set(k, v)]: an existing key keeps its position. *)
Fixpoint mapSet {V} (k : string) (v : V) (m : jsmap V) : jsmap V :=
  match m with
  | [] => [(k, v)]
  | (k', v') :: m' =>
      if String.eqb k' k then (k', v) :: m' else (k', v') :: mapSet k v m'
  end.

(** [Array.from(m.values())] *)
Definition mapValues {V} (m : jsmap V) : list V := map snd m.

(** [new Map(entries)] *)
Definition mapOfEntries {V} (es : list (string * V)) : jsmap V :=
  fold_left (fun m kv => mapSet (fst kv) (snd kv) m) es [].

End Js.

(** ** Data model *)

Record Node := mkNode {
  n_id : string;
  n_label : string;
  n_path : string;
  n_cat : string
}.

Record Link := mkLink {
  l_source : string;
  l_target : string
}.

Record GraphData := mkGraph {
  g_nodes : list Node;
  g_links : list Link
}.

(** One entry of the generated search index: [{href, title}]. *)
Record SearchItem := mkItem {
  i_href : string;
  i_title : string
}.

(** The hand-written links [graphData.links] starts with. *)
Definition manualLinks : list Link :=
  [ mkLink "home" "notes"; mkLink "home" "work"; mkLink "home" "reading";
    mkLink "home" "about"; mkLink "notes" "hello"; mkLink "notes" "monte-carlo";
    mkLink "notes" "sal"; mkLink "notes" "risk-1"; mkLink "risk-1" "monte-carlo";
    mkLink "risk-1" "risk-2"; mkLink "risk-2" "risk-1"; mkLink "risk-2" "risk-3";
    mkLink "risk-2" "sal"; mkLink "risk-2" "heatwave"; mkLink "risk-3" "risk-1";
    mkLink "risk-3" "risk-2"; mkLink "risk-3" "monte-carlo"; mkLink "risk-3" "sal";
    mkLink "work" "heatwave"; mkLink "heatwave" "sal"; mkLink "heatwave" "risk-2";
    mkLink "sal" "heatwave"; mkLink "monte-carlo" "risk-3" ].

Definition initialGraphData : GraphData := mkGraph [] manualLinks.

(** ** Index loader: nodes from the search index *)

Definition coreNodes : list Node :=
  [ mkNode "home" "Home" "/" "nav";
    mkNode "about" "About" "/about.html" "nav";
    mkNode "notes" "Notes" "/notes/" "nav";
    mkNode "work" "Work" "/work/" "nav";
    mkNode "reading" "Reading" "/reading/" "nav";
    mkNode "contact" "Contact" "/contact_cv.html" "nav" ].

(** ['/' + item.href.split('#')[0]] *)
Definition pathOfHref (href : string) : string :=
  String.append "/" (hd EmptyString (Js.split "#" href)).

Definition categoryOfPath (path : string) : string :=
  if Js.startsWith path "/notes/" then "notes"
  else if Js.startsWith path "/work/" then "work"
  else if Js.startsWith path "/reading/" then "reading"
  else "nav".

(** [path.replace(/[\/\.]/g, '-').replace(/^-|-$/g, '').replace(/html$/g, '')] *)
Definition idOfPath (path : string) : string :=
  Js.stripTrailingHtml (Js.stripEdgeDashes (Js.slashDotToDash path)).

(** [item.title || path.split('/').pop()] *)
Definition labelOf (title path : string) : string :=
  if String.eqb title EmptyString then Js.pop (Js.split "/" path) else title.

Definition nodeOfItem (item : SearchItem) (path : string) : Node :=
  mkNode (idOfPath path) (labelOf (i_title item) path) path (categoryOfPath path).

(** Body of [searchData.forEach(item => ...)]. *)
Definition addItem (nodeMap : Js.jsmap Node) (item : SearchItem) : Js.jsmap Node :=
  let path := pathOfHref (i_href item) in
  if negb (Js.mapHas path nodeMap) && negb (Js.includes path "index.html")
  then Js.mapSet path (nodeOfItem item path) nodeMap
  else nodeMap.

Definition coreNodeMap : Js.jsmap Node :=
  fold_left (fun m node => Js.mapSet (n_path node) node m) coreNodes [].

Definition buildNodeMap (searchData : list SearchItem) : Js.jsmap Node :=
  fold_left addItem searchData coreNodeMap.

(** [graphData.nodes = Array.from(nodeMap.values())] *)
Definition nodesOfIndex (searchData : list SearchItem) : list Node :=
  Js.mapValues (buildNodeMap searchData).

(** ** Graph model builder: structural links merged with the manual ones *)

(** [links.find(l => l.source === s && l.target === t)] is truthy. *)
Definition hasLink (links : list Link) (s t : string) : bool :=
  existsb (fun l => String.eqb (l_source l) s && String.eqb (l_target l) t) links.

(** [if (!links.find(...)) links.push({source: s, target: t})] *)
Definition pushIfNew (links : list Link) (s t : string) : list Link :=
  if hasLink links s t then links else links ++ [mkLink s t].

(** [path.split('/').slice(0, -1).join('/')] *)
Definition parentDir (path : string) : string :=
  Js.join "/" (Js.dropLast (Js.split "/" path)).

(** [path.replace(/-\d+$/, '').replace(/part-\d+/i, '').replace(/series-\d+/i, '')] *)
Definition seriesName (path : string) : string :=
  Js.removeSeriesN (Js.removePartN (Js.stripDashDigitsAtEnd path)).

Definition notesNodesOf (nodes : list Node) : list Node :=
  List.filter (fun n => String.eqb (n_cat n) "notes") nodes.

Definition workNodesOf (nodes : list Node) : list Node :=
  List.filter (fun n => String.eqb (n_cat n) "work") nodes.

Definition notesIndexNodeOf (nodes : list Node) : option Node :=
  List.find (fun n => String.eqb (n_path n) "/notes/"
                      || String.eqb (n_path n) "/notes/index.html") nodes.

Definition workIndexNodeOf (nodes : list Node) : option Node :=
  List.find (fun n => String.eqb (n_path n) "/work/"
                      || String.eqb (n_path n) "/work/index.html") nodes.

(** Rules 1 and 4: every member but the index node itself points to the index
    node; these pushes are unconditional. *)
Definition linkToIndex (members : list Node) (indexNode : option Node)
    (autoLinks : list Link) : list Link :=
  match indexNode with
  | Some ix =>
      fold_left
        (fun acc m =>
           if negb (String.eqb (n_id m) (n_id ix))
           then acc ++ [mkLink (n_id m) (n_id ix)]
           else acc)
        members autoLinks
  | None => autoLinks
  end.

(** Rule 2, inner body: notes of one sub-directory of /notes. *)
Definition siblingStep (note1 : Node) (autoLinks : list Link) (note2 : Node) : list Link :=
  if negb (String.eqb (n_id note1) (n_id note2)) then
    let note1Dir := parentDir (n_path note1) in
    let note2Dir := parentDir (n_path note2) in
    if String.eqb note1Dir note2Dir
       && negb (String.eqb note1Dir "/notes")
       && (6 <? String.length note1Dir)%nat
    then pushIfNew autoLinks (n_id note1) (n_id note2)
    else autoLinks
  else autoLinks.

Definition siblingLinks (notesNodes : list Node) (autoLinks : list Link) : list Link :=
  fold_left (fun acc note1 => fold_left (siblingStep note1) notesNodes acc)
            notesNodes autoLinks.

(** Rule 3, inner body: notes of one numbered series. *)
Definition seriesStep (note1 : Node) (autoLinks : list Link) (note2 : Node) : list Link :=
  if negb (String.eqb (n_id note1) (n_id note2)) then
    let name1 := seriesName (n_path note1) in
    let name2 := seriesName (n_path note2) in
    if String.eqb name1 name2 && (10 <? String.length name1)%nat
    then pushIfNew autoLinks (n_id note1) (n_id note2)
    else autoLinks
  else autoLinks.

Definition seriesLinks (notesNodes : list Node) (autoLinks : list Link) : list Link :=
  fold_left (fun acc note1 => fold_left (seriesStep note1) notesNodes acc)
            notesNodes autoLinks.

(** The four rules in the order the handler runs them on [autoLinks]. *)
Definition autoLinksOf (nodes : list Node) : list Link :=
  let notesNodes := notesNodesOf nodes in
  let a1 := linkToIndex notesNodes (notesIndexNodeOf nodes) [] in
  let a2 := siblingLinks notesNodes a1 in
  let a3 := seriesLinks notesNodes a2 in
  linkToIndex (workNodesOf nodes) (workIndexNodeOf nodes) a3.

(** [mergedLinks = [...manualLinks]; autoLinks.forEach(push unless present)] *)
Definition mergeLinks (manual autoLinks : list Link) : list Link :=
  fold_left
    (fun merged autoLink =>
       if hasLink merged (l_source autoLink) (l_target autoLink)
       then merged
       else merged ++ [autoLink])
    autoLinks manual.

(** The edge list the handler stores for a node list and the links it finds
    in [graphData.links]. *)
Definition buildLinks (nodes : list Node) (links : list Link) : list Link :=
  mergeLinks links (autoLinksOf nodes).

(** ** The page: graph data, DOM effects, and the fetch chain *)

Inductive Effect :=
| CreateSidebarGraph
| RenderMiniGraph
| InjectBacklinksAndRelated.

Record Page := mkPage {
  p_graph : GraphData;
  p_graphInitialized : bool;
  p_effects : list Effect          (* calls made so far, oldest first *)
}.

Definition call (e : Effect) (p : Page) : Page :=
  mkPage (p_graph p) (p_graphInitialized p) (p_effects p ++ [e]).

Definition setGraphInitialized (b : bool) (p : Page) : Page :=
  mkPage (p_graph p) b (p_effects p).

(** A settled promise. *)
Inductive Settled (A : Type) :=
| Fulfilled (a : A)
| Rejected.
Arguments Fulfilled {A} a.
Arguments Rejected {A}.

Definition andThen {A B} (p : Settled A) (f : A -> Settled B) : Settled B :=
  match p with
  | Fulfilled a => f a
  | Rejected => Rejected
  end.

Definition orCatch {A} (p : Settled A) (h : unit -> Settled A) : Settled A :=
  match p with
  | Fulfilled a => Fulfilled a
  | Rejected => h tt
  end.

(** What the script looks at in a response: [res.ok], and what [res.json()]
    gives; [None] stands for a body that is not a JSON array of
    [{href, title}] entries, on which [res.json()] rejects or the handler
    throws before it assigns anything. *)
Record Response := mkResponse {
  r_ok : bool;
  r_json : option (list SearchItem)
}.

Definition fallbackPath (pathname : string) : string :=
  if Js.includes pathname "/work/" || Js.includes pathname "/notes/"
  then "../search.json"
  else "./search.json".

(** The first three links of the chain: primary fetch, fallback on a
    non-ok status, JSON body. *)
Definition fetchIndex (fetch : string -> Settled Response) (pathname : string)
    : Settled (list SearchItem) :=
  andThen
    (andThen (fetch "/search.json")
       (fun res =>
          if negb (r_ok res) then
            andThen (fetch (fallbackPath pathname))
              (fun res2 => if negb (r_ok res2) then Rejected else Fulfilled res2)
          else Fulfilled res))
    (fun res => match r_json res with
                | Some searchData => Fulfilled searchData
                | None => Rejected
                end).

(** [.then(searchData => ...)] *)
Definition onIndex (searchData : list SearchItem) (p : Page) : Page :=
  let nodes := nodesOfIndex searchData in
  let links := buildLinks nodes (g_links (p_graph p)) in
  let p := mkPage (mkGraph nodes links) (p_graphInitialized p) (p_effects p) in
  let p := call CreateSidebarGraph p in
  let p := call RenderMiniGraph p in
  let p := setGraphInitialized false p in
  let p := call InjectBacklinksAndRelated p in
  let p := call CreateSidebarGraph p in
  let p := call RenderMiniGraph p in
  setGraphInitialized false p.

(** [.catch(err => ...)] *)
Definition onFailure (p : Page) : Page :=
  let p := mkPage (mkGraph coreNodes (g_links (p_graph p)))
                  (p_graphInitialized p) (p_effects p) in
  let p := call CreateSidebarGraph p in
  call RenderMiniGraph p.

Definition loadIndex (fetch : string -> Settled Response) (pathname : string)
    (p : Page) : Settled Page :=
  orCatch
    (andThen (fetchIndex fetch pathname) (fun searchData => Fulfilled (onIndex searchData p)))
    (fun _ => Fulfilled (onFailure p)).

Definition initialPage : Page := mkPage initialGraphData false [].

(** ** Current page *)

Definition orElse {A} (a b : option A) : option A :=
  match a with
  | Some _ => a
  | None => b
  end.

(** The node [getCurrentPageId] settles on for [window.location.pathname]. *)
Definition currentPageNode (nodes : list Node) (path : string) : option Node :=
  let exact :=
    List.find (fun n => String.eqb path (n_path n)
                        || String.eqb path (String.append (n_path n) "index.html")) nodes in
  let suffix :=
    orElse exact
      (List.find (fun n =>
                    (Js.endsWith path "/" && String.eqb (n_path n) path)
                    || (Js.endsWith (n_path n) "/" && Js.startsWith path (n_path n))
                    || (Js.endsWith path (n_path n) || Js.endsWith (n_path n) path))
                 nodes) in
  match suffix with
  | Some n => Some n
  | None =>
      if String.eqb path "/" || String.eqb path "/index.html"
         || Js.endsWith path "/index.html"
      then List.find (fun n => String.eqb (n_path n) "/" || String.eqb (n_id n) "home") nodes
      else None
  end.

(** [node ? node.id : null] *)
Definition getCurrentPageId (nodes : list Node) (path : string) : option string :=
  option_map n_id (currentPageNode nodes path).

(** Truthiness of a string, and of an id that may be [null]. *)
Definition truthy (s : string) : bool := negb (String.eqb s EmptyString).

Definition truthyId (currentId : option string) : bool :=
  match currentId with
  | Some c => truthy c
  | None => false
  end.

(** [s === currentId] *)
Definition isId (currentId : option string) (s : string) : bool :=
  match currentId with
  | Some c => String.eqb s c
  | None => false
  end.

(** ** Force layout: pin, simulate a fixed number of ticks, pin, clamp *)

(** A node object as a render owns it: the copied node, the degree the full
    view adds, and the coordinates d3 reads and writes. *)
Record LNode := mkLNode {
  ln_node : Node;
  ln_degree : option nat;
  ln_x : option Q;
  ln_y : option Q;
  ln_fx : option Q;
  ln_fy : option Q
}.

Definition ln_id (n : LNode) : string := n_id (ln_node n).

(** The forces a render configures. *)
Record Forces := mkForces {
  f_linkDistance : Q;
  f_chargeStrength : Q;
  f_center : Q * Q;
  f_collideRadius : Q;
  f_pullStrength : option (LNode -> Q)   (* forceX / forceY, when set *)
}.

(** d3-force as the script uses it: a simulation is created over the node
    and link arrays, stopped, ticked by hand, and leaves the coordinates of
    the i-th node in that node object. Nothing else of a node is touched. *)
Class ForceSimulation := {
  Sim : Type;
  forceSimulation : Forces -> list LNode -> list Link -> Sim;
  tick : Sim -> Sim;
  position : Sim -> nat -> Q * Q
}.

Definition isCurrent (currentId : option string) (n : LNode) : bool :=
  isId currentId (ln_id n).

(** [n.x = cx; n.y = cy; n.fx = cx; n.fy = cy] *)
Definition pinAt (cx cy : Q) (n : LNode) : LNode :=
  mkLNode (ln_node n) (ln_degree n) (Some cx) (Some cy) (Some cx) (Some cy).

(** Mutation of the object [nodes.find(p)] returns, if there is one. *)
Fixpoint updateFirst {A} (p : A -> bool) (f : A -> A) (l : list A) : list A :=
  match l with
  | [] => []
  | a :: l' => if p a then f a :: l' else a :: updateFirst p f l'
  end.

Definition pinCurrent (currentId : option string) (cx cy : Q) (nodes : list LNode)
    : list LNode :=
  updateFirst (isCurrent currentId) (pinAt cx cy) nodes.

Definition setXY (n : LNode) (xy : Q * Q) : LNode :=
  mkLNode (ln_node n) (ln_degree n) (Some (fst xy)) (Some (snd xy)) (ln_fx n) (ln_fy n).

(** The coordinates a simulation leaves in the node objects. *)
Fixpoint readPositions `{ForceSimulation} (sim : Sim) (i : nat) (nodes : list LNode)
    : list LNode :=
  match nodes with
  | [] => []
  | n :: rest => setXY n (position sim i) :: readPositions sim (S i) rest
  end.

(** [Math.max(margin, Math.min(size - margin, v))] *)
Definition clampTo (margin size v : Q) : Q := Qmax margin (Qmin (size - margin) v).

Definition clampNode (margin width height : Q) (n : LNode) : LNode :=
  mkLNode (ln_node n) (ln_degree n)
          (option_map (clampTo margin width) (ln_x n))
          (option_map (clampTo margin height) (ln_y n))
          (ln_fx n) (ln_fy n).

(** The layout passage shared, up to its constants, by [renderMiniGraph]
    and [initGraph]. *)
Definition staticLayout `{ForceSimulation} (ticks : nat) (margin : Q)
    (linkDistance chargeStrength collideRadius : Q)
    (width height : Q) (currentId : option string)
    (nodes : list LNode) (links : list Link) : list LNode :=
  let centerX := (width / 2)%Q in
  let centerY := (height / 2)%Q in
  let hasCurrent := existsb (isCurrent currentId) nodes in
  let nodes := pinCurrent currentId centerX centerY nodes in
  let forces :=
    mkForces linkDistance chargeStrength (centerX, centerY) collideRadius
             (if hasCurrent
              then Some (fun d => if isCurrent currentId d then 1%Q else (5 # 100)%Q)
              else None) in
  let simulation := Nat.iter ticks tick (forceSimulation forces nodes links) in
  let nodes := readPositions simulation 0 nodes in
  let nodes := pinCurrent currentId centerX centerY nodes in
  map (fun n => if negb (isCurrent currentId n)
                then clampNode margin width height n
                else n)
      nodes.

(** [links.filter(l => nodes.find(n => n.id === l.source) &&
                       nodes.find(n => n.id === l.target))] *)
Definition hasNodeWithId (nodes : list LNode) (i : string) : bool :=
  match List.find (fun n => String.eqb (ln_id n) i) nodes with
  | Some _ => true
  | None => false
  end.

Definition linksAmong (nodes : list LNode) (links : list Link) : list Link :=
  List.filter (fun l => hasNodeWithId nodes (l_source l) && hasNodeWithId nodes (l_target l))
              (map (fun d => mkLink (l_source d) (l_target d)) links).

Record Render := mkRender {
  r_nodes : list LNode;
  r_links : list Link
}.

(** [container.clientWidth || 180] *)
Definition orDefault (v d : Z) : Z := if Z.eqb v 0 then d else v.

(** [renderMiniGraph], once the container and d3 are there: [None] is the
    "Loading connections..." placeholder. *)
Definition renderMiniGraph `{ForceSimulation} (gd : GraphData) (pathname : string)
    (clientWidth clientHeight : Z) : option Render :=
  match g_nodes gd with
  | [] => None
  | _ =>
      let width := inject_Z (orDefault clientWidth 180) in
      let height := inject_Z (orDefault clientHeight 150) in
      let currentId := getCurrentPageId (g_nodes gd) pathname in
      let nodes := map (fun d => mkLNode d None None None None None) (g_nodes gd) in
      let links := linksAmong nodes (g_links gd) in
      Some (mkRender
              (staticLayout 150 15 30 (-60) 10 width height currentId nodes links)
              links)
  end.

(** ** Interactive viewer: view state, filters, keyboard focus *)

(** [set.has(x)] *)
Definition has (x : string) (s : gset string) : bool := bool_decide (x ∈ s).

(** [nodeDegrees]: every node starts at 0, every link adds one to each of
    its ends, known or not. *)
Definition nodeDegreesOf (gd : GraphData) : gmap string nat :=
  let zeroed := fold_left (fun m n => <[n_id n := 0%nat]> m) (g_nodes gd) ∅ in
  fold_left
    (fun m l =>
       let m := <[l_source l := (default 0%nat (m !! l_source l) + 1)%nat]> m in
       <[l_target l := (default 0%nat (m !! l_target l) + 1)%nat]> m)
    (g_links gd) zeroed.

(** [connectedNodes]: both ends of every link that touches the current
    page. *)
Definition connectedTo (links : list Link) (currentId : option string) : gset string :=
  fold_left
    (fun s l =>
       if isId currentId (l_source l) || isId currentId (l_target l)
       then s ∪ {[l_source l]} ∪ {[l_target l]}
       else s)
    links ∅.

Definition connectedNodesOf (gd : GraphData) (currentId : option string) : gset string :=
  if truthyId currentId then connectedTo (g_links gd) currentId else ∅.

(** [s.trim()] on code units below 256. *)
Definition isSpace (c : ascii) : bool :=
  let n := nat_of_ascii c in
  ((9 <=? n)%nat && (n <=? 13)%nat) || (n =? 32)%nat || (n =? 160)%nat.

Fixpoint dropSpaces (l : list ascii) : list ascii :=
  match l with
  | c :: l' => if isSpace c then dropSpaces l' else l
  | [] => []
  end.

Definition trim (s : string) : string :=
  Js.str (rev (dropSpaces (rev (dropSpaces (Js.chars s))))).

Record ViewState := mkView {
  activeCategories : gset string;
  searchQuery : string;
  focusMode : bool;
  focusedNodeIndex : Z;
  keyboardFocusableNodes : list LNode;
  modalActive : bool
}.

Definition allButtons : gset string :=
  {[ "all"; "notes"; "work"; "reading"; "nav" ]}.

Definition initialView : ViewState :=
  mkView allButtons EmptyString false (-1) [] false.

Definition matchesQuery (query : string) (n : LNode) : bool :=
  Js.includes (Js.toLowerCase (n_label (ln_node n))) query
  || Js.includes (Js.toLowerCase (n_path (ln_node n))) query
  || Js.includes (Js.toLowerCase (ln_id n)) query.

(** The [nodes] array of [initGraph] after its three filters. *)
Definition visibleNodes (gd : GraphData) (currentId : option string)
    (active : gset string) (query : string) (focus : bool) : list LNode :=
  let nodeDegrees := nodeDegreesOf gd in
  let connectedNodes := connectedNodesOf gd currentId in
  let nodes :=
    map (fun d => mkLNode d (Some (default 0%nat (nodeDegrees !! n_id d)))
                          None None None None)
        (g_nodes gd) in
  let nodes :=
    if negb (has "all" active)
    then List.filter (fun n => has (n_cat (ln_node n)) active) nodes
    else nodes in
  let nodes :=
    if truthy query
    then List.filter (matchesQuery (Js.toLowerCase query)) nodes
    else nodes in
  if focus && truthyId currentId
  then List.filter (fun n => has (ln_id n) connectedNodes) nodes
  else nodes.

Definition visibleLinks (gd : GraphData) (nodes : list LNode) : list Link :=
  linksAmong nodes (g_links gd).

(** What [initGraph] leaves in the view state; it returns at once while the
    node list is empty. *)
Definition initGraphView (gd : GraphData) (pathname : string) (v : ViewState) : ViewState :=
  match g_nodes gd with
  | [] => v
  | _ =>
      let currentId := getCurrentPageId (g_nodes gd) pathname in
      mkView (activeCategories v) (searchQuery v) (focusMode v) (focusedNodeIndex v)
             (visibleNodes gd currentId (activeCategories v) (searchQuery v) (focusMode v))
             (modalActive v)
  end.

(** What [initGraph] draws. *)
Definition initGraph `{ForceSimulation} (gd : GraphData) (pathname : string)
    (clientWidth clientHeight : Z) (v : ViewState) : option Render :=
  match g_nodes gd with
  | [] => None
  | _ =>
      let width := inject_Z clientWidth in
      let height := inject_Z clientHeight in
      let currentId := getCurrentPageId (g_nodes gd) pathname in
      let nodes :=
        visibleNodes gd currentId (activeCategories v) (searchQuery v) (focusMode v) in
      let links := visibleLinks gd nodes in
      Some (mkRender
              (staticLayout 200 50 80 (-200) 25 width height currentId nodes links)
              links)
  end.

(** The click handler of the category buttons, on [activeCategories].
    [Set.prototype.add] takes one argument: of
    [add('all', 'notes', 'models', 'projects', 'nav')] only ['all'] is
    added. *)
Definition clickFilter (cat : string) (active : gset string) : gset string :=
  if String.eqb cat "all" then
    if has "all" active
    then (∅ : gset string) ∪ {["all"]}
    else (∅ : gset string) ∪ {["all"]}
  else if has cat active then
    (active ∖ {[cat]}) ∖ {["all"]}
  else
    let active := active ∪ {[cat]} in
    if forallb (fun c => has c active) ["notes"; "work"; "reading"; "nav"]
    then active ∪ {["all"]}
    else active.

Inductive Key := ArrowDown | ArrowUp | ArrowLeft | ArrowRight.

Inductive Target := OnSearchInput | OnOtherInput | OnPage.

Inductive Event :=
| OpenGraph
| CloseGraph
| ClickFilter (cat : string)
| ClickFocusMode
| SearchInput (value : string)
| SearchEscape
| ArrowKey (k : Key) (target : Target).

Definition withActive (a : gset string) (v : ViewState) : ViewState :=
  mkView a (searchQuery v) (focusMode v) (focusedNodeIndex v)
         (keyboardFocusableNodes v) (modalActive v).

Definition withQuery (q : string) (v : ViewState) : ViewState :=
  mkView (activeCategories v) q (focusMode v) (focusedNodeIndex v)
         (keyboardFocusableNodes v) (modalActive v).

Definition withFocusMode (b : bool) (v : ViewState) : ViewState :=
  mkView (activeCategories v) (searchQuery v) b (focusedNodeIndex v)
         (keyboardFocusableNodes v) (modalActive v).

Definition withIndex (i : Z) (v : ViewState) : ViewState :=
  mkView (activeCategories v) (searchQuery v) (focusMode v) i
         (keyboardFocusableNodes v) (modalActive v).

Definition withModal (b : bool) (v : ViewState) : ViewState :=
  mkView (activeCategories v) (searchQuery v) (focusMode v) (focusedNodeIndex v)
         (keyboardFocusableNodes v) b.

(** [keyboardFocusableNodes[i]] *)
Definition nodeAt (nodes : list LNode) (i : Z) : option LNode :=
  if (i <? 0)%Z then None else nth_error nodes (Z.to_nat i).

(** The arrow branch of the modal's keydown handler. *)
Definition arrowKey (gd : GraphData) (pathname : string) (k : Key) (v : ViewState)
    : ViewState :=
  let len := Z.of_nat (length (keyboardFocusableNodes v)) in
  if (len =? 0)%Z then v
  else
    let v :=
      match k with
      | ArrowDown | ArrowRight =>
          withIndex (Z.min (focusedNodeIndex v + 1) (len - 1)) v
      | ArrowUp | ArrowLeft =>
          withIndex (Z.max (focusedNodeIndex v - 1) 0) v
      end in
    match nodeAt (keyboardFocusableNodes v) (focusedNodeIndex v) with
    | Some _ => initGraphView gd pathname v
    | None => v
    end.

(** One user event on the viewer. *)
Definition step (gd : GraphData) (pathname : string) (v : ViewState) (e : Event)
    : ViewState :=
  match e with
  | OpenGraph => initGraphView gd pathname (withModal true v)
  | CloseGraph => withModal false v
  | ClickFilter cat =>
      initGraphView gd pathname (withActive (clickFilter cat (activeCategories v)) v)
  | ClickFocusMode =>
      initGraphView gd pathname (withFocusMode (negb (focusMode v)) v)
  | SearchInput value =>
      initGraphView gd pathname (withIndex (-1) (withQuery (trim value) v))
  | SearchEscape =>
      withModal false
        (initGraphView gd pathname (withIndex (-1) (withQuery EmptyString v)))
  | ArrowKey k target =>
      if negb (modalActive v) then v
      else match target, k with
           | OnOtherInput, _ => v
           | OnSearchInput, (ArrowLeft | ArrowRight) => v
           | _, _ => arrowKey gd pathname k v
           end
  end.

Definition run (gd : GraphData) (pathname : string) (events : list Event) : ViewState :=
  fold_left (step gd pathname) events initialView.

(** ** Page augmentation: backlinks and related content *)

(** [graphData.nodes.find(n => n.id === i)] *)
Definition findById (nodes : list Node) (i : string) : option Node :=
  List.find (fun n => String.eqb (n_id n) i) nodes.

(** The entries of [graphData.links] keep string ends (the renders hand
    copies to d3), so only the [typeof === 'string'] branches run. *)
Definition backlinksOf (gd : GraphData) (currentId currentPath : string) : list Node :=
  fold_left
    (fun backlinks link =>
       if String.eqb (l_target link) currentId then
         match findById (g_nodes gd) (l_source link) with
         | Some sourceNode =>
             if negb (String.eqb (n_path sourceNode) currentPath)
             then backlinks ++ [sourceNode]
             else backlinks
         | None => backlinks
         end
       else backlinks)
    (g_links gd) [].

Definition relatedOf (gd : GraphData) (currentId currentPath : string) : list Node :=
  fold_left
    (fun related link =>
       if String.eqb (l_source link) currentId then
         match findById (g_nodes gd) (l_target link) with
         | Some targetNode =>
             if negb (String.eqb (n_path targetNode) currentPath)
             then related ++ [targetNode]
             else related
         | None => related
         end
       else related)
    (g_links gd) [].

(** [Array.from(new Map(l.map(b => [b.path, b])).values())] *)
Definition uniqueByPath (l : list Node) : list Node :=
  Js.mapValues (Js.mapOfEntries (map (fun b => (n_path b, b)) l)).

Record Sections := mkSections {
  s_backlinks : list Node;     (* "Linked from" *)
  s_related : list Node        (* "Related content" *)
}.

(** The two lists [injectBacklinksAndRelated] writes into the content area;
    [None] when it returns before that (no nodes yet, homepage, unknown
    page, no content area). An empty list means no section of that kind. *)
Definition injectBacklinksAndRelated (gd : GraphData) (currentPath : string)
    (hasContentArea : bool) : option Sections :=
  match g_nodes gd with
  | [] => None
  | _ =>
      let currentId := getCurrentPageId (g_nodes gd) currentPath in
      if negb (truthy currentPath) || String.eqb currentPath "/"
         || String.eqb currentPath "/index.html"
      then None
      else
        match currentId with
        | Some cid =>
            if truthy cid then
              let uniqueBacklinks := uniqueByPath (backlinksOf gd cid currentPath) in
              let uniqueRelated := uniqueByPath (relatedOf gd cid currentPath) in
              if hasContentArea
              then Some (mkSections uniqueBacklinks uniqueRelated)
              else None
            else None
        | None => None
        end
  end.

(** ** Persistence helper: the recent-pages log in localStorage *)

(** A call either returns or throws. *)
Inductive Outcome (A : Type) :=
| Returned (a : A)
| Thrown.
Arguments Returned {A} a.
Arguments Thrown {A}.

Definition bind {A B} (o : Outcome A) (f : A -> Outcome B) : Outcome B :=
  match o with
  | Returned a => f a
  | Thrown => Thrown
  end.

(** [try { body } catch { handler }] *)
Definition tryCatch {A} (body : Outcome A) (handler : Outcome A) : Outcome A :=
  match body with
  | Returned a => Returned a
  | Thrown => handler
  end.

(** JSON values as [JSON.parse] returns them. *)
#[local] Set Warnings "-register-all".
Inductive JValue :=
| JNull
| JBool (b : bool)
| JNumber (n : Z)
| JString (s : string)
| JArray (items : list JValue)
| JObject (fields : list (string * JValue)).

(** The string kept under the key ['graph-recent-pages'], seen through
    [JSON.parse]: [NoItem] is [null] from [getItem]; [Item None] a string
    that [JSON.parse] rejects (the empty string, which the script maps to
    the empty list without parsing, behaves the same); [Item (Some v)] a
    string that parses to [v], as [JSON.stringify v] does. *)
Inductive Cell :=
| NoItem
| Item (parsed : option JValue).

(** localStorage: reads or writes throw when it is not available. *)
Record Storage := mkStorage {
  canRead : bool;
  canWrite : bool;
  cell : Cell
}.

Definition getItem (st : Storage) : Outcome Cell :=
  if canRead st then Returned (cell st) else Thrown.

Definition setItem (st : Storage) (v : JValue) : Outcome Storage :=
  if canWrite st then Returned (mkStorage (canRead st) (canWrite st) (Item (Some v)))
  else Thrown.

Definition getRecentPages (st : Storage) : Outcome JValue :=
  tryCatch
    (bind (getItem st)
       (fun recent =>
          match recent with
          | NoItem => Returned (JArray [])
          | Item (Some v) => Returned v
          | Item None => Thrown
          end))
    (Returned (JArray [])).

Fixpoint field (k : string) (fields : list (string * JValue)) : option JValue :=
  match fields with
  | [] => None
  | (k', v) :: rest => if String.eqb k' k then Some v else field k rest
  end.

(** [p.path !== path]; reading a property of [null] throws. *)
Definition pathDiffers (path : string) (p : JValue) : Outcome bool :=
  match p with
  | JNull => Thrown
  | JObject fields =>
      match field "path" fields with
      | Some (JString s) => Returned (negb (String.eqb s path))
      | _ => Returned true
      end
  | _ => Returned true
  end.

Fixpoint filterOutPath (path : string) (items : list JValue) : Outcome (list JValue) :=
  match items with
  | [] => Returned []
  | p :: rest =>
      bind (pathDiffers path p)
        (fun keep =>
           bind (filterOutPath path rest)
             (fun rest' => Returned (if keep then p :: rest' else rest')))
  end.

(** [recent.filter(p => p.path !== path)]; only arrays have [filter]. *)
Definition filterRecent (path : string) (recent : JValue) : Outcome (list JValue) :=
  match recent with
  | JArray items => filterOutPath path items
  | _ => Thrown
  end.

(** [{ path: path, timestamp: Date.now() }] *)
Definition entry (path : string) (now : Z) : JValue :=
  JObject [("path", JString path); ("timestamp", JNumber now)].

Definition addRecentPage (path : string) (now : Z) (st : Storage) : Outcome Storage :=
  tryCatch
    (bind (getRecentPages st)
       (fun recent =>
          bind (filterRecent path recent)
            (fun recent =>
               let recent := entry path now :: recent in
               let recent := firstn 10 recent in
               setItem st (JArray recent))))
    (Returned st).

(** Page loads one after the other, each adding its path at its time. *)
Definition addRecentPages (visits : list (string * Z)) (st : Storage) : Outcome Storage :=
  fold_left (fun o visit => bind o (addRecentPage (fst visit) (snd visit)))
            visits (Returned st).

Definition freshStorage : Storage := mkStorage true true NoItem.

(** [getRecentPages().map(p => p.path)] when the log holds entries. *)
Definition entryPath (p : JValue) : option string :=
  match p with
  | JObject fields =>
      match field "path" fields with
      | Some (JString s) => Some s
      | _ => None
      end
  | _ => None
  end.

(* ===================================================================== *)
(** * Part II. Properties                                                 *)
(* ===================================================================== *)

(** ** Insertion-ordered maps *)

Lemma mapHas_In {V} (k : string) (m : Js.jsmap V) :
  Js.mapHas k m = true <-> In k (map fst m).
Proof.
  unfold Js.mapHas. induction m as [|[k' v'] m IH]; simpl.
  - split; [discriminate | tauto].
  - rewrite orb_true_iff, IH, String.eqb_eq. tauto.
Qed.

Lemma mapSet_fresh {V} (k : string) (v : V) (m : Js.jsmap V) :
  Js.mapHas k m = false -> Js.mapSet k v m = m ++ [(k, v)].
Proof.
  unfold Js.mapHas. induction m as [|[k' v'] m IH]; simpl; intros H.
  - reflexivity.
  - apply orb_false_iff in H as [Hk Hm]. rewrite Hk, (IH Hm). reflexivity.
Qed.

Lemma mapSet_keys_present {V} (k : string) (v : V) (m : Js.jsmap V) :
  Js.mapHas k m = true -> map fst (Js.mapSet k v m) = map fst m.
Proof.
  unfold Js.mapHas. induction m as [|[k' v'] m IH]; simpl; intros H.
  - discriminate.
  - destruct (String.eqb k' k) eqn:E; simpl.
    + reflexivity.
    + rewrite IH; [reflexivity | exact H].
Qed.

Lemma mapSet_keys {V} (k : string) (v : V) (m : Js.jsmap V) :
  map fst (Js.mapSet k v m)
  = if Js.mapHas k m then map fst m else map fst m ++ [k].
Proof.
  destruct (Js.mapHas k m) eqn:E.
  - apply mapSet_keys_present, E.
  - rewrite (mapSet_fresh _ _ _ E), map_app. reflexivity.
Qed.

Lemma NoDup_snoc {A} (l : list A) (a : A) :
  List.NoDup l -> ~ In a l -> List.NoDup (l ++ [a]).
Proof.
  intros Hl Ha. apply NoDup_rev in Hl.
  rewrite <- (rev_involutive (l ++ [a])). apply NoDup_rev.
  rewrite rev_app_distr. simpl. constructor; [|exact Hl].
  rewrite <- in_rev. exact Ha.
Qed.

Lemma mapSet_NoDup {V} (k : string) (v : V) (m : Js.jsmap V) :
  List.NoDup (map fst m) -> List.NoDup (map fst (Js.mapSet k v m)).
Proof.
  intros H. rewrite mapSet_keys. destruct (Js.mapHas k m) eqn:E; [exact H|].
  apply NoDup_snoc; [exact H|].
  intros Hin. apply mapHas_In in Hin. congruence.
Qed.

Lemma mapSet_values_In {V} (k : string) (v : V) (m : Js.jsmap V) (x : V) :
  In x (map snd (Js.mapSet k v m)) -> x = v \/ In x (map snd m).
Proof.
  induction m as [|[k' v'] m IH]; simpl.
  - intros [H|[]]; auto.
  - destruct (String.eqb k' k); simpl; intros [H|H]; auto.
    destruct (IH H); auto.
Qed.

Lemma mapOfEntries_NoDup_from {V} (es : list (string * V)) (m : Js.jsmap V) :
  List.NoDup (map fst m) ->
  List.NoDup (map fst (fold_left (fun m kv => Js.mapSet (fst kv) (snd kv) m) es m)).
Proof.
  revert m. induction es as [|e es IH]; simpl; intros m H; [exact H|].
  apply IH, mapSet_NoDup, H.
Qed.

(** ** Index loader *)

Definition closedCategory (c : string) : Prop :=
  c = "nav" \/ c = "notes" \/ c = "work" \/ c = "reading".

(** What the loader guarantees of one node: its category is one of the
    four, and it is a core page or carries the id and the category computed
    from its path. *)
Definition loadedNode (n : Node) : Prop :=
  closedCategory (n_cat n)
  /\ (In n coreNodes
      \/ (n_id n = idOfPath (n_path n) /\ n_cat n = categoryOfPath (n_path n))).

Definition nodeMapInv (m : Js.jsmap Node) : Prop :=
  List.NoDup (map fst m)
  /\ Forall (fun kv => fst kv = n_path (snd kv) /\ loadedNode (snd kv)) m.

Lemma categoryOfPath_closed (path : string) : closedCategory (categoryOfPath path).
Proof.
  unfold categoryOfPath, closedCategory.
  destruct (Js.startsWith path "/notes/"); [tauto|].
  destruct (Js.startsWith path "/work/"); [tauto|].
  destruct (Js.startsWith path "/reading/"); tauto.
Qed.

Lemma coreNodeMap_eq : coreNodeMap = map (fun n => (n_path n, n)) coreNodes.
Proof. reflexivity. Qed.

Lemma coreNodeMap_inv : nodeMapInv coreNodeMap.
Proof.
  rewrite coreNodeMap_eq. split.
  - apply NoDup_ListNoDup. refine (bool_decide_unpack _ _). vm_compute. exact I.
  - unfold loadedNode, closedCategory.
    repeat (constructor; [simpl; intuition|]). constructor.
Qed.

Lemma addItem_inv (m : Js.jsmap Node) (item : SearchItem) :
  nodeMapInv m -> nodeMapInv (addItem m item).
Proof.
  intros [Hk Hv]. unfold addItem.
  destruct (negb (Js.mapHas (pathOfHref (i_href item)) m)
            && negb (Js.includes (pathOfHref (i_href item)) "index.html")) eqn:E.
  - apply andb_true_iff in E as [E _]. apply negb_true_iff in E.
    split; [apply mapSet_NoDup, Hk|].
    rewrite (mapSet_fresh _ _ _ E). apply List.Forall_app. split; [exact Hv|].
    constructor; [|constructor]. simpl. split; [reflexivity|].
    split; [apply categoryOfPath_closed | right; split; reflexivity].
  - split; assumption.
Qed.

Lemma buildNodeMap_inv (searchData : list SearchItem) :
  nodeMapInv (buildNodeMap searchData).
Proof.
  unfold buildNodeMap. generalize coreNodeMap_inv. generalize coreNodeMap.
  induction searchData as [|item sd IH]; simpl; intros m H; [exact H|].
  apply IH, addItem_inv, H.
Qed.

Lemma nodesOfIndex_inv (searchData : list SearchItem) :
  List.NoDup (map n_path (nodesOfIndex searchData))
  /\ Forall loadedNode (nodesOfIndex searchData).
Proof.
  destruct (buildNodeMap_inv searchData) as [Hk Hv].
  unfold nodesOfIndex, Js.mapValues.
  assert (Hp : map n_path (map snd (buildNodeMap searchData))
               = map fst (buildNodeMap searchData)).
  { rewrite map_map. apply map_ext_in. intros kv Hin.
    rewrite List.Forall_forall in Hv. symmetry. apply (Hv kv Hin). }
  split.
  - rewrite Hp. exact Hk.
  - rewrite List.Forall_forall in *. intros n Hin.
    apply in_map_iff in Hin as [kv [<- Hin]]. apply (Hv kv Hin).
Qed.

Lemma nodesOfIndex_nil : nodesOfIndex [] = coreNodes.
Proof. reflexivity. Qed.

(** The chain always settles fulfilled, on one of two pages. *)
Lemma loadIndex_cases (fetch : string -> Settled Response) (pathname : string) (p : Page) :
  (exists searchData, fetchIndex fetch pathname = Fulfilled searchData
                      /\ loadIndex fetch pathname p = Fulfilled (onIndex searchData p))
  \/ (fetchIndex fetch pathname = Rejected
      /\ loadIndex fetch pathname p = Fulfilled (onFailure p)).
Proof.
  unfold loadIndex. destruct (fetchIndex fetch pathname) as [sd|]; simpl.
  - left. exists sd. split; reflexivity.
  - right. split; reflexivity.
Qed.

(** C5 (as amended). Whatever the two fetches answer, the loader settles on
    a node list whose paths are pairwise distinct, whose categories all lie
    in {nav, notes, work, reading}, and in which every node is one of the six
    core pages or carries the id computed from its path. *)
Theorem loader_paths_distinct_categories_closed
    (fetch : string -> Settled Response) (pathname : string) (p : Page) :
  exists p',
    loadIndex fetch pathname p = Fulfilled p'
    /\ List.NoDup (map n_path (g_nodes (p_graph p')))
    /\ Forall (fun n => closedCategory (n_cat n)) (g_nodes (p_graph p'))
    /\ Forall (fun n => In n coreNodes \/ n_id n = idOfPath (n_path n))
              (g_nodes (p_graph p')).
Proof.
  assert (Hsd : forall sd,
             List.NoDup (map n_path (nodesOfIndex sd))
             /\ Forall (fun n => closedCategory (n_cat n)) (nodesOfIndex sd)
             /\ Forall (fun n => In n coreNodes \/ n_id n = idOfPath (n_path n))
                       (nodesOfIndex sd)).
  { intros sd. destruct (nodesOfIndex_inv sd) as [Hp Hl].
    split; [exact Hp|].
    split; eapply Forall_impl; try exact Hl; intros n [Hc Hi]; [assumption|].
    destruct Hi as [Hi|[Hi _]]; [left|right]; exact Hi. }
  destruct (loadIndex_cases fetch pathname p) as [[sd [_ ->]]|[_ ->]].
  - exists (onIndex sd p). split; [reflexivity|]. exact (Hsd sd).
  - exists (onFailure p). split; [reflexivity|]. exact (Hsd []).
Qed.

(** Two pages whose paths differ only in [/] against [-] (or [.]) get one
    id. *)
Definition collidingIndex : list SearchItem :=
  [ mkItem "notes/foo-bar.html" "Foo bar"; mkItem "notes/foo/bar.html" "Bar" ].

Example collidingIndex_ids :
  map n_id (nodesOfIndex collidingIndex)
  = ["home"; "about"; "notes"; "work"; "reading"; "contact";
     "notes-foo-bar-"; "notes-foo-bar-"].
Proof. reflexivity. Qed.

(** C5 (as stated) fails: on an index that lists notes/foo-bar.html and
    notes/foo/bar.html the loaded ids are not pairwise distinct. *)
Lemma loader_ids_not_distinct :
  exists p',
    loadIndex (fun _ => Fulfilled (mkResponse true (Some collidingIndex)))
              "/" initialPage = Fulfilled p'
    /\ ~ (List.NoDup (map n_id (g_nodes (p_graph p')))
          /\ List.NoDup (map n_path (g_nodes (p_graph p')))
          /\ Forall (fun n => closedCategory (n_cat n)) (g_nodes (p_graph p'))).
Proof.
  eexists. split; [reflexivity|].
  intros [H _]. change (List.NoDup (map n_id (nodesOfIndex collidingIndex))) in H.
  rewrite collidingIndex_ids in H.
  apply NoDup_ListNoDup in H. apply (bool_decide_pack _) in H.
  vm_compute in H. exact H.
Qed.

(** ** Graph model builder *)

Lemma hasLink_In (links : list Link) (s t : string) :
  hasLink links s t = true <-> In (mkLink s t) links.
Proof.
  unfold hasLink. rewrite existsb_exists. split.
  - intros [[s' t'] [Hin H]]. simpl in H.
    apply andb_true_iff in H as [Hs Ht].
    apply String.eqb_eq in Hs, Ht. subst. exact Hin.
  - intros Hin. exists (mkLink s t). split; [exact Hin|].
    simpl. rewrite !String.eqb_refl. reflexivity.
Qed.

Lemma link_eta (l : Link) : mkLink (l_source l) (l_target l) = l.
Proof. destruct l; reflexivity. Qed.

(** Folds that only ever append. *)
Section GrowingFolds.
Context {A B : Type} (f : list A -> B -> list A).
Hypothesis f_grows : forall acc x l, In l acc -> In l (f acc x).

Lemma fold_grows (xs : list B) (acc : list A) (l : A) :
  In l acc -> In l (fold_left f xs acc).
Proof.
  revert acc. induction xs as [|x xs IH]; simpl; intros acc H; [exact H|].
  apply IH, f_grows, H.
Qed.

Lemma fold_reaches (x0 : B) (t : A) (xs : list B) (acc : list A) :
  (forall acc', In t (f acc' x0)) -> In x0 xs -> In t (fold_left f xs acc).
Proof.
  intros Hhit. revert acc. induction xs as [|x xs IH]; simpl; intros acc Hin.
  - destruct Hin.
  - destruct Hin as [->|Hin].
    + apply fold_grows, Hhit.
    + apply IH, Hin.
Qed.
End GrowingFolds.

(** Where the elements a fold adds come from. *)
Lemma fold_origin {A B} (f : list A -> B -> list A) (P : A -> Prop) (all : list B) :
  (forall acc x l, In x all -> In l (f acc x) -> In l acc \/ P l) ->
  forall xs acc l, incl xs all -> In l (fold_left f xs acc) -> In l acc \/ P l.
Proof.
  intros Hf xs. induction xs as [|x xs IH]; simpl; intros acc l Hincl Hin.
  - left. exact Hin.
  - destruct (IH (f acc x) l) as [H|H].
    + intros y Hy. apply Hincl. right. exact Hy.
    + exact Hin.
    + apply (Hf acc x l); [apply Hincl; left; reflexivity | exact H].
    + right. exact H.
Qed.

Lemma pushIfNew_grows (links : list Link) (s t : string) (l : Link) :
  In l links -> In l (pushIfNew links s t).
Proof.
  unfold pushIfNew. destruct (hasLink links s t); [tauto|].
  intros H. apply in_or_app. left. exact H.
Qed.

Lemma pushIfNew_has (links : list Link) (s t : string) :
  In (mkLink s t) (pushIfNew links s t).
Proof.
  unfold pushIfNew. destruct (hasLink links s t) eqn:E.
  - apply hasLink_In, E.
  - apply in_or_app. right. left. reflexivity.
Qed.

Lemma pushIfNew_origin (links : list Link) (s t : string) (l : Link) :
  In l (pushIfNew links s t) -> In l links \/ l = mkLink s t.
Proof.
  unfold pushIfNew. destruct (hasLink links s t); [tauto|].
  intros H. apply in_app_or in H as [H|[H|[]]]; auto.
Qed.

(** The test rule 2 makes on a pair of notes. *)
Definition siblingTest (note1 note2 : Node) : bool :=
  negb (String.eqb (n_id note1) (n_id note2))
  && (String.eqb (parentDir (n_path note1)) (parentDir (n_path note2))
      && negb (String.eqb (parentDir (n_path note1)) "/notes")
      && (6 <? String.length (parentDir (n_path note1)))%nat).

Lemma siblingStep_test (note1 note2 : Node) (acc : list Link) :
  siblingStep note1 acc note2
  = if siblingTest note1 note2 then pushIfNew acc (n_id note1) (n_id note2) else acc.
Proof.
  unfold siblingStep, siblingTest.
  destruct (negb (String.eqb (n_id note1) (n_id note2))); reflexivity.
Qed.

Lemma siblingStep_grows (note1 : Node) (acc : list Link) (note2 : Node) (l : Link) :
  In l acc -> In l (siblingStep note1 acc note2).
Proof.
  rewrite siblingStep_test. destruct (siblingTest note1 note2); [|tauto].
  apply pushIfNew_grows.
Qed.

Lemma seriesStep_grows (note1 : Node) (acc : list Link) (note2 : Node) (l : Link) :
  In l acc -> In l (seriesStep note1 acc note2).
Proof.
  unfold seriesStep.
  destruct (negb (String.eqb (n_id note1) (n_id note2))); [|tauto].
  destruct (String.eqb (seriesName (n_path note1)) (seriesName (n_path note2))
            && (10 <? String.length (seriesName (n_path note1)))%nat); [|tauto].
  apply pushIfNew_grows.
Qed.

Lemma siblingLinks_grows (notes : list Node) (acc : list Link) (l : Link) :
  In l acc -> In l (siblingLinks notes acc).
Proof.
  unfold siblingLinks. apply fold_grows. intros acc' n1 l'.
  apply fold_grows. intros acc'' n2 l''. apply siblingStep_grows.
Qed.

Lemma seriesLinks_grows (notes : list Node) (acc : list Link) (l : Link) :
  In l acc -> In l (seriesLinks notes acc).
Proof.
  unfold seriesLinks. apply fold_grows. intros acc' n1 l'.
  apply fold_grows. intros acc'' n2 l''. apply seriesStep_grows.
Qed.

Lemma linkToIndex_grows (members : list Node) (ix : option Node) (acc : list Link)
    (l : Link) :
  In l acc -> In l (linkToIndex members ix acc).
Proof.
  unfold linkToIndex. destruct ix as [ix|]; [|tauto].
  apply fold_grows. intros acc' m l' H.
  destruct (negb (String.eqb (n_id m) (n_id ix))); [|exact H].
  apply in_or_app. left. exact H.
Qed.

(** Rule 2 links every ordered pair that passes its test. *)
Lemma siblingLinks_has (notes : list Node) (acc : list Link) (note1 note2 : Node) :
  In note1 notes -> In note2 notes -> siblingTest note1 note2 = true ->
  In (mkLink (n_id note1) (n_id note2)) (siblingLinks notes acc).
Proof.
  intros H1 H2 Ht. unfold siblingLinks.
  apply (fold_reaches
           (fun acc n1 => fold_left (siblingStep n1) notes acc)) with (x0 := note1).
  - intros acc' n1 l. apply fold_grows. intros a n l'. apply siblingStep_grows.
  - intros acc'. apply (fold_reaches (siblingStep note1)) with (x0 := note2).
    + intros a n l. apply siblingStep_grows.
    + intros a. rewrite siblingStep_test, Ht. apply pushIfNew_has.
    + exact H2.
  - exact H1.
Qed.

(** Rule 2 adds nothing else. *)
Lemma siblingLinks_origin (notes : list Node) (acc : list Link) (l : Link) :
  In l (siblingLinks notes acc) ->
  In l acc
  \/ exists note1 note2,
       In note1 notes /\ In note2 notes
       /\ l = mkLink (n_id note1) (n_id note2)
       /\ siblingTest note1 note2 = true.
Proof.
  unfold siblingLinks.
  apply (fold_origin _ (fun l => exists note1 note2,
                            In note1 notes /\ In note2 notes
                            /\ l = mkLink (n_id note1) (n_id note2)
                            /\ siblingTest note1 note2 = true) notes);
    [|apply incl_refl].
  intros acc1 note1 l1 Hn1.
  apply (fold_origin _ (fun l => exists note1 note2,
                            In note1 notes /\ In note2 notes
                            /\ l = mkLink (n_id note1) (n_id note2)
                            /\ siblingTest note1 note2 = true) notes);
    [|apply incl_refl].
  intros acc2 note2 l2 Hn2. rewrite siblingStep_test.
  destruct (siblingTest note1 note2) eqn:Ht; [|tauto].
  intros H. apply pushIfNew_origin in H as [H|H]; [tauto|].
  right. exists note1, note2. tauto.
Qed.

Lemma autoLinksOf_has_siblings (nodes : list Node) (note1 note2 : Node) :
  In note1 (notesNodesOf nodes) -> In note2 (notesNodesOf nodes) ->
  siblingTest note1 note2 = true ->
  In (mkLink (n_id note1) (n_id note2)) (autoLinksOf nodes).
Proof.
  intros H1 H2 Ht. unfold autoLinksOf.
  apply linkToIndex_grows, seriesLinks_grows, siblingLinks_has; assumption.
Qed.

(** *** Merging *)

Lemma mergeLinks_content (autoLinks manual : list Link) (l : Link) :
  In l (mergeLinks manual autoLinks) <-> In l manual \/ In l autoLinks.
Proof.
  unfold mergeLinks. revert manual.
  induction autoLinks as [|a rest IH]; simpl; intros manual.
  - tauto.
  - rewrite IH. destruct (hasLink manual (l_source a) (l_target a)) eqn:E.
    + apply hasLink_In in E. rewrite link_eta in E.
      split; [tauto|]. intros [H|[H|H]]; subst; auto.
    + rewrite in_app_iff. simpl. tauto.
Qed.

Lemma mergeLinks_nothing_new (autoLinks manual : list Link) :
  (forall l, In l autoLinks -> In l manual) -> mergeLinks manual autoLinks = manual.
Proof.
  unfold mergeLinks. revert manual.
  induction autoLinks as [|a rest IH]; simpl; intros manual H; [reflexivity|].
  assert (E : hasLink manual (l_source a) (l_target a) = true).
  { apply hasLink_In. rewrite link_eta. apply H. left. reflexivity. }
  rewrite E. apply IH. intros l Hl. apply H. right. exact Hl.
Qed.

Lemma mergeLinks_keeps_prefix (autoLinks manual : list Link) :
  exists added, mergeLinks manual autoLinks = manual ++ added.
Proof.
  unfold mergeLinks. revert manual.
  induction autoLinks as [|a rest IH]; simpl; intros manual.
  - exists []. rewrite app_nil_r. reflexivity.
  - destruct (hasLink manual (l_source a) (l_target a)); [apply IH|].
    destruct (IH (manual ++ [a])) as [added ->].
    exists (a :: added). rewrite <- app_assoc. reflexivity.
Qed.

(** C2. For any node list and any manual edge list: building the edge list
    again from what the first build stored gives the very same list (so the
    same content); the content of a build is exactly the manual edges
    together with the edges the four structural rules infer, whichever order
    they come in; the manual edges are kept, in their order, at the front of
    the result; and in particular every manual edge is in the merged set. *)
Theorem buildLinks_idempotent_keeps_manual (nodes : list Node) (manual : list Link) :
  buildLinks nodes (buildLinks nodes manual) = buildLinks nodes manual
  /\ (forall l, In l (buildLinks nodes manual)
                <-> In l manual \/ In l (autoLinksOf nodes))
  /\ (forall l, In l (buildLinks nodes (buildLinks nodes manual))
                <-> In l (buildLinks nodes manual))
  /\ (exists added, buildLinks nodes manual = manual ++ added)
  /\ (forall l, In l manual -> In l (buildLinks nodes manual)).
Proof.
  assert (Hidem : buildLinks nodes (buildLinks nodes manual) = buildLinks nodes manual).
  { unfold buildLinks. apply mergeLinks_nothing_new.
    intros l Hl. apply mergeLinks_content. right. exact Hl. }
  split; [exact Hidem|].
  split; [intros l; apply mergeLinks_content|].
  split; [intros l; rewrite Hidem; tauto|].
  split; [apply mergeLinks_keeps_prefix|].
  intros l Hl. apply mergeLinks_content. left. exact Hl.
Qed.

(** *** Sibling notes *)

Lemma split_not_nil (sep : ascii) (s : string) : Js.split sep s <> [].
Proof.
  destruct s as [|c s]; simpl; [discriminate|].
  destruct (Ascii.eqb c sep); [discriminate|].
  destruct (Js.split sep s); discriminate.
Qed.

Lemma prefix_cons (a : ascii) (p s : string) :
  String.prefix (String a p) s = true ->
  exists s', s = String a s' /\ String.prefix p s' = true.
Proof.
  destruct s as [|b s']; simpl; [discriminate|].
  destruct (ascii_dec a b) as [->|]; [|discriminate].
  intros H. exists s'. split; [reflexivity | exact H].
Qed.

(** The directory of a path under /notes/ is /notes or longer. *)
Lemma parentDir_under_notes (path : string) :
  Js.startsWith path "/notes/" = true ->
  parentDir path = "/notes" \/ (6 < String.length (parentDir path))%nat.
Proof.
  unfold Js.startsWith. intros H.
  apply prefix_cons in H as [s1 [-> H]]. apply prefix_cons in H as [s2 [-> H]].
  apply prefix_cons in H as [s3 [-> H]]. apply prefix_cons in H as [s4 [-> H]].
  apply prefix_cons in H as [s5 [-> H]]. apply prefix_cons in H as [s6 [-> H]].
  apply prefix_cons in H as [rest [-> _]].
  unfold parentDir, Js.dropLast. simpl Js.split.
  pose proof (split_not_nil "/" rest) as Hne.
  destruct (Js.split "/" rest) as [|h [|h' t]]; [congruence | left; reflexivity |].
  right. unfold Js.join. simpl. lia.
Qed.

Lemma categoryOfPath_notes (path : string) :
  categoryOfPath path = "notes" -> Js.startsWith path "/notes/" = true.
Proof.
  unfold categoryOfPath.
  destruct (Js.startsWith path "/notes/"); [reflexivity|].
  destruct (Js.startsWith path "/work/"); [discriminate|].
  destruct (Js.startsWith path "/reading/"); discriminate.
Qed.

Lemma loaded_note_under_notes (searchData : list SearchItem) (n : Node) :
  In n (nodesOfIndex searchData) -> n_cat n = "notes" ->
  Js.startsWith (n_path n) "/notes/" = true.
Proof.
  intros Hin Hcat. destruct (nodesOfIndex_inv searchData) as [_ Hl].
  rewrite List.Forall_forall in Hl. destruct (Hl n Hin) as [_ [Hcore|[_ Hc]]].
  - simpl in Hcore. intuition (subst; discriminate).
  - apply categoryOfPath_notes. congruence.
Qed.

Lemma siblingTest_true (note1 note2 : Node) :
  siblingTest note1 note2 = true
  <-> n_id note1 <> n_id note2
      /\ parentDir (n_path note1) = parentDir (n_path note2)
      /\ parentDir (n_path note1) <> "/notes"
      /\ (6 < String.length (parentDir (n_path note1)))%nat.
Proof.
  unfold siblingTest.
  rewrite !andb_true_iff, !negb_true_iff, !String.eqb_neq, String.eqb_eq,
    Nat.ltb_lt. tauto.
Qed.

(** C4 (as amended). For every two nodes of category notes that the loader
    produced, with different ids, whose paths have the same parent directory,
    that directory being other than the notes root /notes (so strictly below
    it), the inferred edges contain both directed edges between them, and so
    does the merged edge list for any manual edges. The sibling rule adds no
    other edge: each edge it adds joins two notes with different ids of one
    directory other than /notes, so none for the notes root itself. *)
Theorem notes_siblings_linked_both_ways (searchData : list SearchItem) :
  let nodes := nodesOfIndex searchData in
  (forall note1 note2,
      In note1 nodes -> In note2 nodes ->
      n_cat note1 = "notes" -> n_cat note2 = "notes" ->
      n_id note1 <> n_id note2 ->
      parentDir (n_path note1) = parentDir (n_path note2) ->
      parentDir (n_path note1) <> "/notes" ->
      In (mkLink (n_id note1) (n_id note2)) (autoLinksOf nodes)
      /\ In (mkLink (n_id note2) (n_id note1)) (autoLinksOf nodes)
      /\ forall manual,
           In (mkLink (n_id note1) (n_id note2)) (buildLinks nodes manual)
           /\ In (mkLink (n_id note2) (n_id note1)) (buildLinks nodes manual))
  /\ (forall autoLinks l,
        In l (siblingLinks (notesNodesOf nodes) autoLinks) ->
        In l autoLinks
        \/ exists note1 note2,
             In note1 nodes /\ In note2 nodes
             /\ n_cat note1 = "notes" /\ n_cat note2 = "notes"
             /\ l = mkLink (n_id note1) (n_id note2)
             /\ n_id note1 <> n_id note2
             /\ parentDir (n_path note1) = parentDir (n_path note2)
             /\ parentDir (n_path note1) <> "/notes").
Proof.
  intros nodes. split.
  - intros note1 note2 H1 H2 C1 C2 Hid Hdir Hroot.
    assert (N1 : In note1 (notesNodesOf nodes)).
    { apply filter_In. split; [exact H1 | apply String.eqb_eq, C1]. }
    assert (N2 : In note2 (notesNodesOf nodes)).
    { apply filter_In. split; [exact H2 | apply String.eqb_eq, C2]. }
    assert (Hlen : (6 < String.length (parentDir (n_path note1)))%nat).
    { destruct (parentDir_under_notes (n_path note1)) as [E|E];
        [eapply loaded_note_under_notes; eassumption | contradiction | exact E]. }
    assert (T12 : siblingTest note1 note2 = true).
    { apply siblingTest_true. tauto. }
    assert (T21 : siblingTest note2 note1 = true).
    { apply siblingTest_true. rewrite <- Hdir. repeat split; auto. }
    pose proof (autoLinksOf_has_siblings nodes note1 note2 N1 N2 T12) as A12.
    pose proof (autoLinksOf_has_siblings nodes note2 note1 N2 N1 T21) as A21.
    split; [exact A12|]. split; [exact A21|].
    intros manual. split; apply mergeLinks_content; right; assumption.
  - intros autoLinks l Hl. apply siblingLinks_origin in Hl as [Hl|Hl]; [tauto|].
    right. destruct Hl as [note1 [note2 [N1 [N2 [-> Ht]]]]].
    apply siblingTest_true in Ht. apply filter_In in N1 as [N1 C1].
    apply filter_In in N2 as [N2 C2]. apply String.eqb_eq in C1, C2.
    exists note1, note2. tauto.
Qed.

Definition climateIndex : list SearchItem :=
  [ mkItem "notes/climate/sal.html" "SAL";
    mkItem "notes/climate/monte-carlo-basics.html" "Monte Carlo basics" ].

(** Two notes of notes/climate/. *)
Lemma notes_siblings_linked_both_ways_witness :
  In (mkLink "notes-climate-sal-" "notes-climate-monte-carlo-basics-")
     (autoLinksOf (nodesOfIndex climateIndex))
  /\ In (mkLink "notes-climate-monte-carlo-basics-" "notes-climate-sal-")
        (autoLinksOf (nodesOfIndex climateIndex)).
Proof.
  pose proof
    (proj1 (notes_siblings_linked_both_ways climateIndex)
       (mkNode "notes-climate-sal-" "SAL" "/notes/climate/sal.html" "notes")
       (mkNode "notes-climate-monte-carlo-basics-" "Monte Carlo basics"
               "/notes/climate/monte-carlo-basics.html" "notes")) as H.
  destruct H as [H1 [H2 _]];
    [vm_compute; tauto | vm_compute; tauto | reflexivity | reflexivity
     | discriminate | reflexivity | discriminate | ].
  split; [exact H1 | exact H2].
Defined.

Definition workIndex : list SearchItem :=
  [ mkItem "work/heat/a.html" "A"; mkItem "work/heat/b.html" "B" ].

(** C4 (as stated) fails for the category work: two work pages of one
    directory below /work get no edge between them, neither among the
    inferred edges nor in the merged list. *)
Lemma work_siblings_not_linked :
  let nodes := nodesOfIndex workIndex in
  exists page1 page2,
    In page1 nodes /\ In page2 nodes
    /\ n_cat page1 = "work" /\ n_cat page2 = "work"
    /\ n_id page1 <> n_id page2
    /\ parentDir (n_path page1) = "/work/heat"
    /\ parentDir (n_path page2) = "/work/heat"
    /\ ~ In (mkLink (n_id page1) (n_id page2)) (autoLinksOf nodes)
    /\ ~ In (mkLink (n_id page1) (n_id page2)) (buildLinks nodes manualLinks).
Proof.
  exists (mkNode "work-heat-a-" "A" "/work/heat/a.html" "work"),
         (mkNode "work-heat-b-" "B" "/work/heat/b.html" "work").
  repeat split; try reflexivity; try discriminate.
  - vm_compute. tauto.
  - vm_compute. tauto.
  - vm_compute. intuition discriminate.
  - vm_compute. intuition discriminate.
Qed.

(** ** Force layout *)

Lemma find_map_same {A} (p : A -> bool) (g : A -> A) (l : list A) :
  (forall a, p (g a) = p a) ->
  List.find p (map g l) = option_map g (List.find p l).
Proof.
  intros Hg. induction l as [|a l IH]; simpl; [reflexivity|].
  rewrite Hg. destruct (p a); [reflexivity | exact IH].
Qed.

Lemma find_updateFirst {A} (p : A -> bool) (f : A -> A) (l : list A) :
  (forall a, p (f a) = p a) ->
  List.find p (updateFirst p f l) = option_map f (List.find p l).
Proof.
  intros Hf. induction l as [|a l IH]; simpl; [reflexivity|].
  destruct (p a) eqn:E; simpl.
  - rewrite Hf, E. reflexivity.
  - rewrite E. exact IH.
Qed.

Lemma updateFirst_nodes (p : LNode -> bool) (cx cy : Q) (l : list LNode) :
  map ln_node (updateFirst p (pinAt cx cy) l) = map ln_node l.
Proof.
  induction l as [|a l IH]; simpl; [reflexivity|].
  destruct (p a); simpl; [reflexivity | rewrite IH; reflexivity].
Qed.

Lemma readPositions_nodes `{ForceSimulation} (sim : Sim) (i : nat) (l : list LNode) :
  map ln_node (readPositions sim i l) = map ln_node l.
Proof.
  revert i. induction l as [|a l IH]; simpl; intros i; [reflexivity|].
  rewrite IH. reflexivity.
Qed.

Lemma find_by_node (q : Node -> bool) (l1 l2 : list LNode) (c : LNode) :
  map ln_node l1 = map ln_node l2 ->
  List.find (fun n => q (ln_node n)) l1 = Some c ->
  exists c', List.find (fun n => q (ln_node n)) l2 = Some c'
             /\ ln_node c' = ln_node c.
Proof.
  revert l2. induction l1 as [|a l1 IH]; intros [|b l2]; simpl; try discriminate.
  intros E. injection E as Eab El.
  rewrite <- Eab. destruct (q (ln_node a)).
  - intros [= <-]. exists b. split; [reflexivity | congruence].
  - apply IH, El.
Qed.

(** The forces pulling towards the center, set only when a node was found
    for the current id. *)
Definition pullStrength (currentId : option string) (nodes : list LNode)
    : option (LNode -> Q) :=
  if existsb (isCurrent currentId) nodes
  then Some (fun d => if isCurrent currentId d then 1%Q else (5 # 100)%Q)
  else None.

(** The simulation of a render when its loop of [ticks] calls of [tick] has
    ended: created over the node list in which the node found for the
    current id is already fixed at the center. *)
Definition tickedSimulation `{ForceSimulation} (ticks : nat)
    (linkDistance chargeStrength collideRadius : Q) (width height : Q)
    (currentId : option string) (nodes : list LNode) (links : list Link) : Sim :=
  Nat.iter ticks tick
    (forceSimulation
       (mkForces linkDistance chargeStrength (width / 2, height / 2)%Q collideRadius
                 (pullStrength currentId nodes))
       (pinCurrent currentId (width / 2) (height / 2) nodes) links).

(** [x] is the coordinate [v] brought between the margins of a side of
    length [size]: [v] itself when it lies between them, the nearer margin
    when it does not; on a side shorter than two margins, the near margin
    whatever [v] is. *)
Definition clampedFrom (margin size v x : Q) : Prop :=
  (margin <= x)%Q
  /\ ((size - margin < margin)%Q -> (x == margin)%Q)
  /\ ((margin <= size - margin)%Q ->
      (x <= size - margin)%Q
      /\ ((v < margin)%Q -> (x == margin)%Q)
      /\ ((margin <= v)%Q -> (v <= size - margin)%Q -> (x == v)%Q)
      /\ ((size - margin < v)%Q -> (x == size - margin)%Q)).

Lemma clampTo_clampedFrom (margin size v : Q) :
  clampedFrom margin size v (clampTo margin size v).
Proof.
  unfold clampedFrom, clampTo.
  split; [apply Q.le_max_l|]. split.
  - intros Hshort. apply Q.max_l.
    apply Qle_trans with (size - margin)%Q; [apply Q.le_min_l | apply Qlt_le_weak, Hshort].
  - intros Hfit. split; [apply Q.max_lub; [exact Hfit | apply Q.le_min_l]|].
    split; [|split].
    + intros Hlow. apply Q.max_l.
      apply Qle_trans with v; [apply Q.le_min_r | apply Qlt_le_weak, Hlow].
    + intros Hlo Hhi. rewrite (Q.min_r _ _ Hhi). apply Q.max_r, Hlo.
    + intros Hhigh. rewrite (Q.min_l _ _ (Qlt_le_weak _ _ Hhigh)).
      apply Q.max_r, Hfit.
Qed.

(** The [i]-th node as a render draws it when it is not taken for the
    current page: both coordinates are those the simulation left for it,
    brought between the margins. *)
Definition simulatedAndClamped `{ForceSimulation} (sim : Sim)
    (margin width height : Q) (i : nat) (n : LNode) : Prop :=
  exists x y,
    ln_x n = Some x /\ ln_y n = Some y
    /\ clampedFrom margin width (fst (position sim i)) x
    /\ clampedFrom margin height (snd (position sim i)) y.

(** The node a render pins: coordinates and fixed position at the center. *)
Definition pinnedAt (cx cy : Q) (n : LNode) : Prop :=
  ln_x n = Some cx /\ ln_y n = Some cy /\ ln_fx n = Some cx /\ ln_fy n = Some cy.

Lemma staticLayout_nodes `{ForceSimulation} ticks margin ld cs cr width height
    currentId (nodes : list LNode) (links : list Link) :
  map ln_node (staticLayout ticks margin ld cs cr width height currentId nodes links)
  = map ln_node nodes.
Proof.
  unfold staticLayout, pinCurrent. rewrite map_map.
  erewrite map_ext.
  - rewrite updateFirst_nodes, readPositions_nodes, updateFirst_nodes. reflexivity.
  - intros n. simpl. destruct (negb (isCurrent currentId n)); reflexivity.
Qed.

Lemma nth_error_updateFirst {A} (p : A -> bool) (f : A -> A) (l : list A)
    (i : nat) (b : A) :
  nth_error (updateFirst p f l) i = Some b ->
  exists a, nth_error l i = Some a /\ (b = a \/ (b = f a /\ p a = true)).
Proof.
  revert i. induction l as [|a l IH]; intros [|i]; simpl; try discriminate.
  - destruct (p a) eqn:E; simpl; intros [= <-]; exists a; auto.
  - destruct (p a); simpl; [intros Hb; exists b; auto | apply IH].
Qed.

Lemma nth_error_readPositions `{ForceSimulation} (sim : Sim) (k : nat)
    (l : list LNode) (i : nat) :
  nth_error (readPositions sim k l) i
  = option_map (fun n => setXY n (position sim (k + i))) (nth_error l i).
Proof.
  revert k i. induction l as [|a l IH]; intros k [|i]; simpl; try reflexivity.
  - rewrite Nat.add_0_r. reflexivity.
  - rewrite IH. replace (S k + i)%nat with (k + S i)%nat by lia. reflexivity.
Qed.

(** What the layout leaves in a node that does not carry the current id. *)
Lemma staticLayout_other `{ForceSimulation} ticks margin ld cs cr width height
    currentId (nodes : list LNode) (links : list Link) (i : nat) (n : LNode) :
  nth_error (staticLayout ticks margin ld cs cr width height currentId nodes links) i
  = Some n ->
  isCurrent currentId n = false ->
  simulatedAndClamped
    (tickedSimulation ticks ld cs cr width height currentId nodes links)
    margin width height i n.
Proof.
  unfold staticLayout, pinCurrent.
  change (Nat.iter ticks tick _)
    with (tickedSimulation ticks ld cs cr width height currentId nodes links).
  set (sim := tickedSimulation ticks ld cs cr width height currentId nodes links).
  set (p := isCurrent currentId).
  set (cx := (width / 2)%Q). set (cy := (height / 2)%Q).
  cbv zeta. rewrite nth_error_map.
  destruct (nth_error (updateFirst p (pinAt cx cy)
                         (readPositions sim 0 (updateFirst p (pinAt cx cy) nodes))) i)
    as [b|] eqn:Eb; [|discriminate].
  simpl. intros [= <-] Hn.
  assert (Hpb : p b = false).
  { destruct (p b) eqn:E; [|reflexivity]. simpl in Hn. fold p in Hn. congruence. }
  rewrite Hpb. simpl.
  apply nth_error_updateFirst in Eb as (a & Ea & [-> | [-> Hpa]]).
  - rewrite nth_error_readPositions in Ea. simpl in Ea.
    destruct (nth_error (updateFirst p (pinAt cx cy) nodes) i) as [a0|];
      [|discriminate].
    injection Ea as <-. unfold clampNode. simpl.
    eexists _, _. split; [reflexivity|]. split; [reflexivity|].
    split; apply clampTo_clampedFrom.
  - exfalso. change (p a = false) in Hpb. congruence.
Qed.

Lemma staticLayout_pins `{ForceSimulation} ticks margin ld cs cr width height
    currentId (nodes : list LNode) (links : list Link) (c : LNode) :
  List.find (isCurrent currentId) nodes = Some c ->
  exists c',
    List.find (isCurrent currentId)
              (staticLayout ticks margin ld cs cr width height currentId nodes links)
    = Some c'
    /\ ln_node c' = ln_node c
    /\ pinnedAt (width / 2) (height / 2) c'.
Proof.
  unfold staticLayout, pinCurrent.
  set (p := isCurrent currentId).
  set (cx := (width / 2)%Q). set (cy := (height / 2)%Q).
  set (nodes1 := updateFirst p (pinAt cx cy) nodes).
  set (sim := Nat.iter ticks tick _).
  set (nodes2 := readPositions sim 0 nodes1).
  set (g := fun n => if negb (p n) then clampNode margin width height n else n).
  assert (Hpin : forall a, p (pinAt cx cy a) = p a) by reflexivity.
  assert (Hg : forall a, p (g a) = p a).
  { intros a. unfold g. destruct (negb (p a)); reflexivity. }
  simpl. intros Hc.
  destruct (find_by_node (isId currentId ∘ n_id) nodes nodes2 c) as [c2 [Hc2 Hn2]].
  - unfold nodes2, nodes1. rewrite readPositions_nodes, updateFirst_nodes.
    reflexivity.
  - exact Hc.
  - change (List.find p nodes2 = Some c2) in Hc2.
    exists (pinAt cx cy c2). split; [|split].
    + rewrite (find_map_same p g _ Hg), (find_updateFirst p _ _ Hpin), Hc2.
      simpl. unfold g. rewrite Hpin.
      apply find_some in Hc2 as [_ ->]. reflexivity.
    + exact Hn2.
    + repeat split.
Qed.

Definition hasId (cur : string) (n : LNode) : bool := String.eqb (ln_id n) cur.

Lemma find_pinned `{ForceSimulation} ticks margin ld cs cr width height
    (cur : string) (nodes : list LNode) (links : list Link) :
  hasNodeWithId nodes cur = true ->
  exists c,
    List.find (hasId cur)
              (staticLayout ticks margin ld cs cr width height (Some cur) nodes links)
    = Some c
    /\ pinnedAt (width / 2) (height / 2) c.
Proof.
  intros Hhas. unfold hasNodeWithId in Hhas.
  destruct (List.find (fun n => String.eqb (ln_id n) cur) nodes) as [c|] eqn:E;
    [|discriminate].
  destruct (staticLayout_pins ticks margin ld cs cr width height (Some cur) nodes links
              c E) as [c' [Hf [_ Hp]]].
  exists c'. split; [exact Hf | exact Hp].
Qed.

Lemma currentPageNode_In (nodes : list Node) (path : string) (n : Node) :
  currentPageNode nodes path = Some n -> In n nodes.
Proof.
  unfold currentPageNode, orElse.
  repeat match goal with
         | |- context [List.find ?p nodes] =>
             let E := fresh "E" in
             destruct (List.find p nodes) eqn:E;
             [apply find_some in E as [E _]|]
         end;
    try (intros [= <-]; assumption);
    try discriminate.
  all: destruct (_ || _); try discriminate; intros [= <-]; assumption.
Qed.

Lemma hasNodeWithId_In (nodes : list LNode) (n : LNode) :
  In n nodes -> hasNodeWithId nodes (ln_id n) = true.
Proof.
  intros Hin. unfold hasNodeWithId.
  destruct (List.find (fun m => String.eqb (ln_id m) (ln_id n)) nodes) eqn:E;
    [reflexivity|].
  pose proof (find_none _ _ E n Hin) as Hn. simpl in Hn.
  rewrite String.eqb_refl in Hn. discriminate.
Qed.

Lemma hasNodeWithId_exists (nodes : list LNode) (i : string) :
  hasNodeWithId nodes i = true -> exists n, In n nodes /\ ln_id n = i.
Proof.
  unfold hasNodeWithId.
  destruct (List.find (fun m => String.eqb (ln_id m) i) nodes) as [n|] eqn:E;
    [|discriminate].
  intros _. apply find_some in E as [Hin Hid]. exists n.
  split; [exact Hin | apply String.eqb_eq, Hid].
Qed.

Lemma renderMiniGraph_draws `{ForceSimulation} (gd : GraphData) (pathname : string)
    (clientWidth clientHeight : Z) :
  g_nodes gd <> [] ->
  renderMiniGraph gd pathname clientWidth clientHeight
  = let width := inject_Z (orDefault clientWidth 180) in
    let height := inject_Z (orDefault clientHeight 150) in
    let currentId := getCurrentPageId (g_nodes gd) pathname in
    let nodes := map (fun d => mkLNode d None None None None None) (g_nodes gd) in
    let links := linksAmong nodes (g_links gd) in
    Some (mkRender
            (staticLayout 150 15 30 (-60) 10 width height currentId nodes links)
            links).
Proof.
  unfold renderMiniGraph. destruct (g_nodes gd); [congruence | reflexivity].
Qed.

Lemma initGraph_draws `{ForceSimulation} (gd : GraphData) (pathname : string)
    (clientWidth clientHeight : Z) (v : ViewState) :
  g_nodes gd <> [] ->
  initGraph gd pathname clientWidth clientHeight v
  = let currentId := getCurrentPageId (g_nodes gd) pathname in
    let nodes :=
      visibleNodes gd currentId (activeCategories v) (searchQuery v) (focusMode v) in
    let links := visibleLinks gd nodes in
    Some (mkRender
            (staticLayout 200 50 80 (-200) 25 (inject_Z clientWidth)
                          (inject_Z clientHeight) currentId nodes links)
            links).
Proof.
  unfold initGraph. destruct (g_nodes gd); [congruence | reflexivity].
Qed.

Lemma same_nodes_In (l1 l2 : list LNode) (n : LNode) :
  map ln_node l1 = map ln_node l2 -> In n l1 ->
  exists n', In n' l2 /\ ln_node n' = ln_node n.
Proof.
  intros E Hin. apply (in_map ln_node) in Hin. rewrite E in Hin.
  apply in_map_iff in Hin as [n' [Hn' Hin']]. exists n'. tauto.
Qed.

Lemma NoDup_map_injective {A B} (f : A -> B) (l : list A) (a b : A) :
  List.NoDup (map f l) -> In a l -> In b l -> f a = f b -> a = b.
Proof.
  induction l as [|x l IH]; simpl; intros Hnd Ha Hb E; [destruct Ha|].
  inversion Hnd as [|? ? Hx Hl]; subst.
  destruct Ha as [->|Ha], Hb as [->|Hb]; auto.
  - exfalso. apply Hx. rewrite E. apply in_map, Hb.
  - exfalso. apply Hx. rewrite <- E. apply in_map, Ha.
Qed.

Lemma NoDup_map_filter {A B} (f : A -> B) (p : A -> bool) (l : list A) :
  List.NoDup (map f l) -> List.NoDup (map f (List.filter p l)).
Proof.
  induction l as [|a l IH]; simpl; intros H; [constructor|].
  inversion H as [|? ? Ha Hl]; subst.
  destruct (p a); simpl; [|apply IH, Hl].
  constructor; [|apply IH, Hl].
  intros Hin. apply Ha. apply in_map_iff in Hin as [x [E Hx]].
  apply filter_In in Hx as [Hx _]. rewrite <- E. apply in_map, Hx.
Qed.

(** The filters of the full view keep a sub-list of the graph's nodes. *)
Lemma visibleNodes_sub (gd : GraphData) (currentId : option string)
    (active : gset string) (query : string) (focus : bool) :
  (forall n, In n (visibleNodes gd currentId active query focus) ->
             In (ln_node n) (g_nodes gd))
  /\ (List.NoDup (map n_id (g_nodes gd)) ->
      List.NoDup (map ln_id (visibleNodes gd currentId active query focus))).
Proof.
  unfold visibleNodes.
  set (nodes0 := map _ (g_nodes gd)).
  set (nodes1 := if negb (has "all" active) then _ else nodes0).
  set (nodes2 := if truthy query then _ else nodes1).
  assert (H0 : (forall n, In n nodes0 -> In (ln_node n) (g_nodes gd))
               /\ (List.NoDup (map n_id (g_nodes gd)) -> List.NoDup (map ln_id nodes0))).
  { split.
    - intros n Hn. apply in_map_iff in Hn as [d [<- Hd]]. exact Hd.
    - intros Hnd. unfold nodes0. rewrite map_map. exact Hnd. }
  assert (Hstep : forall (l : list LNode) (p : LNode -> bool),
             ((forall n, In n l -> In (ln_node n) (g_nodes gd))
              /\ (List.NoDup (map n_id (g_nodes gd)) -> List.NoDup (map ln_id l))) ->
             (forall n, In n (List.filter p l) -> In (ln_node n) (g_nodes gd))
             /\ (List.NoDup (map n_id (g_nodes gd))
                 -> List.NoDup (map ln_id (List.filter p l)))).
  { intros l p [Hin Hnd]. split.
    - intros n Hn. apply filter_In in Hn as [Hn _]. apply Hin, Hn.
    - intros H. apply NoDup_map_filter, Hnd, H. }
  assert (H1 : (forall n, In n nodes1 -> In (ln_node n) (g_nodes gd))
               /\ (List.NoDup (map n_id (g_nodes gd)) -> List.NoDup (map ln_id nodes1))).
  { unfold nodes1. destruct (negb (has "all" active)); [apply Hstep|]; exact H0. }
  assert (H2 : (forall n, In n nodes2 -> In (ln_node n) (g_nodes gd))
               /\ (List.NoDup (map n_id (g_nodes gd)) -> List.NoDup (map ln_id nodes2))).
  { unfold nodes2. destruct (truthy query); [apply Hstep|]; exact H1. }
  destruct (focus && truthyId currentId); [apply Hstep|]; exact H2.
Qed.

(** With pairwise distinct ids, every laid-out node that carries the id of
    the current page is the pinned one. *)
Lemma staticLayout_only_current `{ForceSimulation} ticks margin ld cs cr width height
    (cur : string) (nodes : list LNode) (links : list Link) (c : LNode) :
  List.NoDup (map ln_id nodes) ->
  In c (staticLayout ticks margin ld cs cr width height (Some cur) nodes links) ->
  ln_id c = cur ->
  pinnedAt (width / 2) (height / 2) c
  /\ exists c0, In c0 nodes /\ ln_node c0 = ln_node c.
Proof.
  intros Hnd Hin Hid.
  pose proof (staticLayout_nodes ticks margin ld cs cr width height (Some cur)
                nodes links) as Hsame.
  destruct (same_nodes_In _ _ c Hsame Hin) as [c0 [Hc0 Hn0]].
  split; [|exists c0; split; assumption].
  assert (Hhas : hasNodeWithId nodes cur = true).
  { assert (E : cur = ln_id c0) by (unfold ln_id in *; congruence).
    rewrite E. apply hasNodeWithId_In, Hc0. }
  destruct (find_pinned ticks margin ld cs cr width height cur nodes links Hhas)
    as [c' [Hf Hp]].
  apply find_some in Hf as [Hin' Hid']. apply String.eqb_eq in Hid'.
  assert (c = c'); [|subst; exact Hp].
  apply (NoDup_map_injective ln_id
           (staticLayout ticks margin ld cs cr width height (Some cur) nodes links));
    try assumption; [|rewrite Hid; symmetry; exact Hid'].
  assert (Hids : map ln_id (staticLayout ticks margin ld cs cr width height (Some cur)
                                         nodes links) = map ln_id nodes).
  { unfold ln_id. rewrite <- !(map_map ln_node n_id), Hsame. reflexivity. }
  rewrite Hids. exact Hnd.
Qed.

(** The node object a render finds for the id [cur] sits exactly at the
    center of the viewport, fixed there. *)
Definition centeredOn (width height : Q) (cur : string) (drawn : list LNode) : Prop :=
  exists c, List.find (hasId cur) drawn = Some c
            /\ pinnedAt (width / 2) (height / 2) c.

(** Every drawn node with another id than [cur] has the coordinates the
    simulation [sim] left at its position of the list, brought between the
    margins. *)
Definition othersClamped `{ForceSimulation} (sim : Sim) (margin width height : Q)
    (cur : string) (drawn : list LNode) : Prop :=
  forall i n, nth_error drawn i = Some n -> ln_id n <> cur ->
              simulatedAndClamped sim margin width height i n.

(** The layout seen from the page's own node: the copy of [page] is at the
    center and every other node is clamped. *)
Definition pageCenteredRestClamped `{ForceSimulation} (sim : Sim)
    (margin width height : Q) (page : Node) (drawn : list LNode) : Prop :=
  forall i n, nth_error drawn i = Some n ->
              (ln_node n = page -> pinnedAt (width / 2) (height / 2) n)
              /\ (ln_node n <> page -> simulatedAndClamped sim margin width height i n).

Lemma staticLayout_page `{ForceSimulation} ticks margin ld cs cr width height
    (all : list Node) (page : Node) (nodes : list LNode) (links : list Link) :
  List.NoDup (map n_id all) -> In page all ->
  (forall n, In n nodes -> In (ln_node n) all) ->
  List.NoDup (map ln_id nodes) ->
  pageCenteredRestClamped
    (tickedSimulation ticks ld cs cr width height (Some (n_id page)) nodes links)
    margin width height page
    (staticLayout ticks margin ld cs cr width height (Some (n_id page)) nodes links).
Proof.
  intros Hall Hpage Hsub Hnd i n Hn.
  assert (Hin : In n (staticLayout ticks margin ld cs cr width height
                                   (Some (n_id page)) nodes links))
    by (eapply nth_error_In, Hn).
  split.
  - intros E.
    apply (staticLayout_only_current ticks margin ld cs cr width height (n_id page)
             nodes links n Hnd Hin).
    unfold ln_id. rewrite E. reflexivity.
  - intros Hother. apply (staticLayout_other _ _ _ _ _ _ _ _ _ _ _ _ Hn).
    unfold isCurrent, isId. apply String.eqb_neq. intros Hid.
    destruct (staticLayout_only_current ticks margin ld cs cr width height (n_id page)
                nodes links n Hnd Hin Hid) as [_ [c0 [Hc0 E0]]].
    apply Hother. apply (NoDup_map_injective n_id all); try assumption.
    rewrite <- E0. apply Hsub, Hc0.
Qed.

(** C3 (as amended). Let [page] be the node matched to the current page and
    [cur] its id. The mini view (viewport clientWidth-or-180 by
    clientHeight-or-150, margin 15) always draws, and draws a copy of every
    node of the graph; the first drawn node with id [cur] has x = width/2 and
    y = height/2 exactly and is fixed there; every drawn node with another
    id has, at its place [i] of the list, the coordinates that the simulation
    (created over the node list with that node already fixed at the center,
    link distance 30, charge -60, collision radius 10) left for place [i]
    after exactly 150 ticks, each brought between the margins: unchanged
    when it lies between margin and size - margin, the nearer of the two
    otherwise, and the margin itself on a side shorter than two margins.
    The full view (viewport clientWidth by clientHeight, margin 50, link
    distance 80, charge -200, collision radius 25, 200 ticks) does the same
    on the filtered node list, the first drawn node with id [cur] sitting at
    the center whenever the filters leave a node with that id. When the ids
    of the graph are pairwise distinct, this is the claim with [page] itself:
    the copy of [page] is at the center and every other node is clamped. *)
Theorem current_page_centered_others_clamped `{ForceSimulation}
    (gd : GraphData) (pathname : string) (clientWidth clientHeight : Z)
    (v : ViewState) (page : Node) :
  currentPageNode (g_nodes gd) pathname = Some page ->
  let cur := n_id page in
  let miniW := inject_Z (orDefault clientWidth 180) in
  let miniH := inject_Z (orDefault clientHeight 150) in
  let miniNodes := map (fun d => mkLNode d None None None None None) (g_nodes gd) in
  let miniSim :=
    tickedSimulation 150 30 (-60) 10 miniW miniH (Some cur) miniNodes
                     (linksAmong miniNodes (g_links gd)) in
  let fullW := inject_Z clientWidth in
  let fullH := inject_Z clientHeight in
  let fullNodes :=
    visibleNodes gd (Some cur) (activeCategories v) (searchQuery v) (focusMode v) in
  let fullSim :=
    tickedSimulation 200 80 (-200) 25 fullW fullH (Some cur) fullNodes
                     (visibleLinks gd fullNodes) in
  (exists r,
      renderMiniGraph gd pathname clientWidth clientHeight = Some r
      /\ map ln_node (r_nodes r) = g_nodes gd
      /\ centeredOn miniW miniH cur (r_nodes r)
      /\ othersClamped miniSim 15 miniW miniH cur (r_nodes r)
      /\ (List.NoDup (map n_id (g_nodes gd)) ->
          pageCenteredRestClamped miniSim 15 miniW miniH page (r_nodes r)))
  /\ (exists r,
        initGraph gd pathname clientWidth clientHeight v = Some r
        /\ map ln_node (r_nodes r) = map ln_node fullNodes
        /\ (hasNodeWithId fullNodes cur = true ->
            centeredOn fullW fullH cur (r_nodes r))
        /\ othersClamped fullSim 50 fullW fullH cur (r_nodes r)
        /\ (List.NoDup (map n_id (g_nodes gd)) ->
            pageCenteredRestClamped fullSim 50 fullW fullH page (r_nodes r))).
Proof.
  intros Hpage cur miniW miniH miniNodes miniSim fullW fullH fullNodes fullSim.
  assert (Hcur : getCurrentPageId (g_nodes gd) pathname = Some cur).
  { unfold getCurrentPageId. rewrite Hpage. reflexivity. }
  assert (Hin : In page (g_nodes gd)) by (eapply currentPageNode_In, Hpage).
  assert (Hne : g_nodes gd <> []) by (intros E; rewrite E in Hin; destruct Hin).
  assert (Hother : forall ticks margin ld cs cr width height nodes links,
             othersClamped
               (tickedSimulation ticks ld cs cr width height (Some cur) nodes links)
               margin width height cur
               (staticLayout ticks margin ld cs cr width height (Some cur) nodes links)).
  { intros ticks margin ld cs cr width height nodes links i n Hn Hid.
    apply (staticLayout_other _ _ _ _ _ _ _ _ _ _ _ _ Hn).
    unfold isCurrent, isId. apply String.eqb_neq, Hid. }
  rewrite (renderMiniGraph_draws _ _ _ _ Hne), (initGraph_draws _ _ _ _ _ Hne), Hcur.
  split.
  - eexists. split; [reflexivity|]. cbn [r_nodes].
    split; [|split; [|split]].
    + rewrite staticLayout_nodes. unfold miniNodes. rewrite map_map. apply map_id.
    + apply find_pinned.
      apply (hasNodeWithId_In _ (mkLNode page None None None None None)).
      apply (in_map (fun d => mkLNode d None None None None None)), Hin.
    + apply Hother.
    + intros Hnd. apply (staticLayout_page _ _ _ _ _ _ _ (g_nodes gd)); try assumption.
      * intros n Hn. apply in_map_iff in Hn as [d [<- Hd]]. exact Hd.
      * unfold miniNodes. rewrite map_map. exact Hnd.
  - destruct (visibleNodes_sub gd (Some cur) (activeCategories v) (searchQuery v)
                               (focusMode v)) as [Hsub Hvnd].
    fold fullNodes in Hsub, Hvnd.
    eexists. split; [reflexivity|]. cbn [r_nodes].
    split; [|split; [|split]].
    + apply staticLayout_nodes.
    + intros Hvis. apply find_pinned, Hvis.
    + apply Hother.
    + intros Hnd. apply (staticLayout_page _ _ _ _ _ _ _ (g_nodes gd)); auto.
Qed.

(** A stand-in for d3, to run the layout on examples: the i-th node is put
    at (400 i - 300, 90 i) unless it is fixed, and a tick moves nothing. *)
Fixpoint gridFrom (i : nat) (nodes : list LNode) : list (Q * Q) :=
  match nodes with
  | [] => []
  | n :: rest =>
      match ln_fx n, ln_fy n with
      | Some fx, Some fy => (fx, fy)
      | _, _ => (inject_Z (400 * Z.of_nat i - 300), inject_Z (90 * Z.of_nat i))
      end :: gridFrom (S i) rest
  end.

Definition gridSimulation : ForceSimulation :=
  {| Sim := list (Q * Q);
     forceSimulation := fun _ nodes _ => gridFrom 0 nodes;
     tick := fun sim => sim;
     position := fun sim i => nth i sim (0%Q, 0%Q) |}.

Definition coreGraph : GraphData := mkGraph coreNodes manualLinks.

(** The degraded graph seen from /notes/, mini view in a container without
    a size and full view in an 800 by 600 container. *)
Lemma current_page_centered_others_clamped_witness :
  currentPageNode (g_nodes coreGraph) "/notes/"
  = Some (mkNode "notes" "Notes" "/notes/" "nav")
  /\ (exists r,
         @renderMiniGraph gridSimulation coreGraph "/notes/" 0 0 = Some r
         /\ centeredOn (inject_Z 180) (inject_Z 150) "notes" (r_nodes r))
  /\ (exists r,
         @initGraph gridSimulation coreGraph "/notes/" 800 600 initialView = Some r
         /\ centeredOn (inject_Z 800) (inject_Z 600) "notes" (r_nodes r)).
Proof.
  split; [reflexivity|].
  destruct (@current_page_centered_others_clamped gridSimulation coreGraph "/notes/"
              0 0 initialView (mkNode "notes" "Notes" "/notes/" "nav") eq_refl)
    as [[r [Hr [_ [Hmini _]]]] _].
  destruct (@current_page_centered_others_clamped gridSimulation coreGraph "/notes/"
              800 600 initialView (mkNode "notes" "Notes" "/notes/" "nav") eq_refl)
    as [_ [r' [Hr' [_ [Hfull _]]]]].
  split; [exists r; split; [exact Hr | exact Hmini]|].
  exists r'. split; [exact Hr'|]. apply Hfull. vm_compute. reflexivity.
Defined.

Lemma nth_error_updateFirst_later {A} (p : A -> bool) (f : A -> A) (l : list A)
    (j i : nat) (a : A) :
  (j < i)%nat -> nth_error l j = Some a -> p a = true ->
  nth_error (updateFirst p f l) i = nth_error l i.
Proof.
  revert j i. induction l as [|x l IH]; intros j [|i] Hlt Hj Hp; simpl;
    try reflexivity; try lia.
  destruct (p x) eqn:Ex; simpl; [reflexivity|].
  destruct j as [|j]; simpl in Hj; [congruence|].
  apply (IH j); [lia | exact Hj | exact Hp].
Qed.

(** A node that carries the current id but comes after another node that
    carries it is left as the simulation put it: not fixed, not moved to the
    center, not clamped. *)
Lemma staticLayout_later_same_id `{ForceSimulation} ticks margin ld cs cr width height
    currentId (nodes : list LNode) (links : list Link) (j i : nat) (a b : LNode) :
  (j < i)%nat ->
  nth_error nodes j = Some a -> isCurrent currentId a = true ->
  nth_error nodes i = Some b -> isCurrent currentId b = true ->
  nth_error (staticLayout ticks margin ld cs cr width height currentId nodes links) i
  = Some (setXY b (position
                     (tickedSimulation ticks ld cs cr width height currentId nodes links)
                     i)).
Proof.
  intros Hlt Hj Hpa Hi Hpb. unfold staticLayout, pinCurrent.
  change (Nat.iter ticks tick _)
    with (tickedSimulation ticks ld cs cr width height currentId nodes links).
  set (sim := tickedSimulation ticks ld cs cr width height currentId nodes links).
  set (p := isCurrent currentId).
  set (cx := (width / 2)%Q). set (cy := (height / 2)%Q).
  cbv zeta.
  assert (H1i : nth_error (updateFirst p (pinAt cx cy) nodes) i = Some b).
  { rewrite (nth_error_updateFirst_later p _ nodes j i a Hlt Hj Hpa). exact Hi. }
  assert (H1j : exists a', nth_error (updateFirst p (pinAt cx cy) nodes) j = Some a'
                           /\ p a' = true).
  { destruct (nth_error (updateFirst p (pinAt cx cy) nodes) j) as [a'|] eqn:E.
    - exists a'. split; [reflexivity|].
      apply nth_error_updateFirst in E as (a0 & E0 & [-> | [-> _]]);
        rewrite Hj in E0; injection E0 as <-; exact Hpa.
    - apply nth_error_None in E.
      assert (length (updateFirst p (pinAt cx cy) nodes) = length nodes).
      { clear. induction nodes as [|x l IH]; simpl; [reflexivity|].
        destruct (p x); simpl; [reflexivity | rewrite IH; reflexivity]. }
      assert (j < length nodes)%nat by (apply nth_error_Some; congruence). lia. }
  destruct H1j as (a' & H1j & Hpa').
  rewrite nth_error_map.
  rewrite (nth_error_updateFirst_later p _ _ j i (setXY a' (position sim j)) Hlt).
  - rewrite nth_error_readPositions, H1i. simpl.
    change (p (setXY b (position sim i))) with (p b). fold p in Hpb.
    rewrite Hpb. reflexivity.
  - rewrite nth_error_readPositions, H1j. reflexivity.
  - exact Hpa'.
Qed.

(** The index of [collidingIndex], loaded. *)
Definition collidingGraph : GraphData := p_graph (onIndex collidingIndex initialPage).

(** C3 (as stated) fails. On the graph loaded from [collidingIndex], seen
    from /notes/foo/bar.html, the node matching the page is the second of two
    nodes with the id notes-foo-bar-: the mini view fixes the first one at
    the center and leaves the page's own node where the simulation put it,
    not fixed, not at the center (90, 75) and not brought within the margin
    (here at (2500, 630) in a viewport of 180 by 150). And in a full view of
    60 by 40, narrower than two margins of 50, the node Home, which is not
    the current page, is drawn at (50, 50), beyond the far margin. *)
Lemma page_sharing_its_id_is_left_unclamped :
  currentPageNode (g_nodes collidingGraph) "/notes/foo/bar.html"
  = Some (mkNode "notes-foo-bar-" "Bar" "/notes/foo/bar.html" "notes")
  /\ (exists r n,
         @renderMiniGraph gridSimulation collidingGraph "/notes/foo/bar.html" 0 0
         = Some r
         /\ nth_error (r_nodes r) 7 = Some n
         /\ ln_node n = mkNode "notes-foo-bar-" "Bar" "/notes/foo/bar.html" "notes"
         /\ ln_x n = Some (inject_Z 2500) /\ ln_y n = Some (inject_Z 630)
         /\ ln_fx n = None /\ ln_fy n = None
         /\ ~ (inject_Z 2500 == inject_Z 180 / 2)%Q
         /\ ~ (inject_Z 2500 <= inject_Z 180 - 15)%Q
         /\ ~ (inject_Z 630 <= inject_Z 150 - 15)%Q
         /\ forall sim : @Sim gridSimulation,
              ~ @pageCenteredRestClamped gridSimulation sim 15 (inject_Z 180)
                  (inject_Z 150)
                  (mkNode "notes-foo-bar-" "Bar" "/notes/foo/bar.html" "notes")
                  (r_nodes r))
  /\ (exists r n,
         @initGraph gridSimulation coreGraph "/notes/" 60 40 initialView = Some r
         /\ nth_error (r_nodes r) 0 = Some n
         /\ ln_id n = "home"
         /\ ln_x n = Some (inject_Z 50) /\ ln_y n = Some (inject_Z 50)
         /\ ~ (inject_Z 50 <= inject_Z 60 - 50)%Q
         /\ ~ (inject_Z 50 <= inject_Z 40 - 50)%Q).
Proof.
  split; [reflexivity|]. split.
  - eexists _, _. split; [reflexivity|]. split; [vm_compute; reflexivity|].
    repeat split; try reflexivity;
      try (intros Hq; vm_compute in Hq;
           first [discriminate | apply Hq; reflexivity]).
    intros sim Hall.
    destruct (Hall 7%nat _ ltac:(vm_compute; reflexivity)) as [Hpin _].
    destruct (Hpin eq_refl) as [Hx _]. vm_compute in Hx. discriminate.
  - eexists _, _. split; [reflexivity|]. split; [vm_compute; reflexivity|].
    repeat split; try reflexivity; intros Hq; vm_compute in Hq;
      first [discriminate | apply Hq; reflexivity].
Qed.

(** ** Index unavailable *)

(** A fetch failed: the promise rejected, or the status is not ok. *)
Definition fetchFailed (r : Settled Response) : bool :=
  match r with
  | Rejected => true
  | Fulfilled res => negb (r_ok res)
  end.

Lemma both_failed_rejects (fetch : string -> Settled Response) (pathname : string) :
  fetchFailed (fetch "/search.json") = true ->
  fetchFailed (fetch (fallbackPath pathname)) = true ->
  fetchIndex fetch pathname = Rejected.
Proof.
  intros H1 H2. unfold fetchIndex.
  destruct (fetch "/search.json") as [res|]; simpl in *; [|reflexivity].
  rewrite H1. simpl.
  destruct (fetch (fallbackPath pathname)) as [res2|]; simpl in *; [|reflexivity].
  rewrite H2. reflexivity.
Qed.

(** C6. When the fetch of /search.json and the fetch of the relative
    fallback both fail, the chain still settles fulfilled (the rejection is
    handled, nothing reaches the user); the node list is exactly the six
    core navigation nodes home, about, notes, work, reading, contact; the
    links are left as they were; the handler creates the sidebar widget and
    calls the mini render; and the mini render, for any container size,
    draws these six nodes rather than the placeholder. *)
Theorem index_unavailable_core_nodes `{ForceSimulation}
    (fetch : string -> Settled Response) (pathname : string) (p : Page)
    (clientWidth clientHeight : Z) :
  fetchFailed (fetch "/search.json") = true ->
  fetchFailed (fetch (fallbackPath pathname)) = true ->
  exists p',
    loadIndex fetch pathname p = Fulfilled p'
    /\ g_nodes (p_graph p') = coreNodes
    /\ map n_id (g_nodes (p_graph p'))
       = ["home"; "about"; "notes"; "work"; "reading"; "contact"]
    /\ length (g_nodes (p_graph p')) = 6%nat
    /\ g_links (p_graph p') = g_links (p_graph p)
    /\ p_effects p' = p_effects p ++ [CreateSidebarGraph; RenderMiniGraph]
    /\ exists r,
         renderMiniGraph (p_graph p') pathname clientWidth clientHeight = Some r
         /\ map ln_node (r_nodes r) = coreNodes.
Proof.
  intros H1 H2. exists (onFailure p).
  split; [unfold loadIndex; rewrite (both_failed_rejects _ _ H1 H2); reflexivity|].
  split; [reflexivity|]. split; [reflexivity|]. split; [reflexivity|].
  split; [reflexivity|].
  split; [unfold onFailure, call; simpl; rewrite <- app_assoc; reflexivity|].
  rewrite renderMiniGraph_draws by discriminate.
  eexists. split; [reflexivity|]. simpl r_nodes.
  rewrite staticLayout_nodes. reflexivity.
Qed.

(** The index answers 404 at both addresses, seen from a notes page. *)
Lemma index_unavailable_core_nodes_witness :
  exists p',
    loadIndex (fun _ => Fulfilled (mkResponse false None)) "/notes/climate/sal.html"
              initialPage = Fulfilled p'
    /\ g_nodes (p_graph p') = coreNodes
    /\ map n_id (g_nodes (p_graph p'))
       = ["home"; "about"; "notes"; "work"; "reading"; "contact"]
    /\ length (g_nodes (p_graph p')) = 6%nat
    /\ g_links (p_graph p') = g_links (p_graph initialPage)
    /\ p_effects p' = p_effects initialPage ++ [CreateSidebarGraph; RenderMiniGraph]
    /\ exists r,
         @renderMiniGraph gridSimulation (p_graph p') "/notes/climate/sal.html" 0 0
         = Some r
         /\ map ln_node (r_nodes r) = coreNodes.
Proof.
  apply (@index_unavailable_core_nodes gridSimulation
           (fun _ => Fulfilled (mkResponse false None)) "/notes/climate/sal.html"
           initialPage 0 0); reflexivity.
Defined.

(** ** Interactive viewer *)

Lemma has_true (x : string) (s : gset string) : has x s = true <-> x ∈ s.
Proof. unfold has. apply bool_decide_eq_true. Qed.

(** The category filter as [visibleNodes] applies it. *)
Lemma visibleNodes_category (gd : GraphData) (currentId : option string)
    (active : gset string) (query : string) (focus : bool) (n : LNode) :
  In n (visibleNodes gd currentId active query focus) ->
  n_cat (ln_node n) ∈ active \/ "all" ∈ active.
Proof.
  unfold visibleNodes.
  set (nodes0 := map _ (g_nodes gd)).
  set (nodes1 := if negb (has "all" active) then _ else nodes0).
  set (nodes2 := if truthy query then _ else nodes1).
  intros Hin.
  assert (H2 : In n nodes2).
  { destruct (focus && truthyId currentId); [|exact Hin].
    apply filter_In in Hin as [Hin _]. exact Hin. }
  assert (H1 : In n nodes1).
  { unfold nodes2 in H2. destruct (truthy query); [|exact H2].
    apply filter_In in H2 as [H2 _]. exact H2. }
  unfold nodes1 in H1. destruct (has "all" active) eqn:Eall; simpl in H1.
  - right. apply has_true, Eall.
  - left. apply filter_In in H1 as [_ H1]. apply has_true, H1.
Qed.

Lemma linksAmong_ends (nodes : list LNode) (links : list Link) (l : Link) :
  In l (linksAmong nodes links) ->
  (exists n, In n nodes /\ ln_id n = l_source l)
  /\ (exists n, In n nodes /\ ln_id n = l_target l).
Proof.
  unfold linksAmong. intros Hin. apply filter_In in Hin as [_ H].
  apply andb_true_iff in H as [Hs Ht].
  split; apply hasNodeWithId_exists; assumption.
Qed.

(** The selections the category buttons can produce. *)
Definition activeAfter (clicks : list string) : gset string :=
  fold_left (fun active cat => clickFilter cat active) clicks allButtons.

(** C1 (as amended). For every selection reached by a sequence of clicks on
    the category buttons from the initial all-active state, and every query
    and focus setting: each node the full view draws has its category in the
    active set, or else 'all' is in the active set (then no category filter
    is applied); and each link it draws has a drawn node with the id of its
    source and a drawn node with the id of its target. *)
Theorem drawn_nodes_pass_filter_no_dangling_links `{ForceSimulation}
    (gd : GraphData) (pathname : string) (clientWidth clientHeight : Z)
    (clicks : list string) (query : string) (focus : bool)
    (index : Z) (focusable : list LNode) (modal : bool) (r : Render) :
  initGraph gd pathname clientWidth clientHeight
            (mkView (activeAfter clicks) query focus index focusable modal) = Some r ->
  Forall (fun n => n_cat (ln_node n) ∈ activeAfter clicks
                   \/ "all" ∈ activeAfter clicks) (r_nodes r)
  /\ Forall (fun l => (exists n, In n (r_nodes r) /\ ln_id n = l_source l)
                      /\ (exists n, In n (r_nodes r) /\ ln_id n = l_target l))
            (r_links r).
Proof.
  unfold initGraph. destruct (g_nodes gd) as [|n0 rest] eqn:Enodes; [discriminate|].
  rewrite <- Enodes. simpl. intros [= <-]. simpl.
  set (cur := getCurrentPageId (g_nodes gd) pathname).
  set (vis := visibleNodes gd cur (activeAfter clicks) query focus).
  pose proof (staticLayout_nodes 200 50 80 (-200) 25 (inject_Z clientWidth)
                (inject_Z clientHeight) cur vis (visibleLinks gd vis)) as Hsame.
  split; apply List.Forall_forall.
  - intros n Hin.
    destruct (same_nodes_In _ _ n Hsame Hin) as [n' [Hin' Hn']].
    rewrite <- Hn'. eapply visibleNodes_category, Hin'.
  - intros l Hin. apply linksAmong_ends in Hin as [[a [Ha Hsa]] [b [Hb Htb]]].
    destruct (same_nodes_In _ _ a (eq_sym Hsame) Ha) as [a' [Ha' Hna]].
    destruct (same_nodes_In _ _ b (eq_sym Hsame) Hb) as [b' [Hb' Hnb]].
    split; [exists a' | exists b']; split; try assumption;
      unfold ln_id in *; congruence.
Qed.

(** The full graph after one click on Notes, seen from the home page. *)
Lemma drawn_nodes_pass_filter_no_dangling_links_witness :
  exists r,
    @initGraph gridSimulation coreGraph "/" 800 600
       (mkView (activeAfter ["notes"]) EmptyString false (-1) [] true) = Some r
    /\ Forall (fun n => n_cat (ln_node n) ∈ activeAfter ["notes"]
                        \/ "all" ∈ activeAfter ["notes"]) (r_nodes r)
    /\ Forall (fun l => (exists n, In n (r_nodes r) /\ ln_id n = l_source l)
                        /\ (exists n, In n (r_nodes r) /\ ln_id n = l_target l))
              (r_links r).
Proof.
  eexists. split; [reflexivity|].
  apply (@drawn_nodes_pass_filter_no_dangling_links gridSimulation coreGraph "/"
           800 600 ["notes"] EmptyString false (-1) [] true).
  reflexivity.
Defined.

Example activeAfter_all : activeAfter ["all"] = {["all"]}.
Proof. refine (bool_decide_unpack _ _). vm_compute. exact I. Qed.

(** C1 (as stated) fails: one click on All from the initial state leaves
    the active set {all}; the full view then draws the home node, whose
    category nav is not in the active set. *)
Lemma all_selected_draws_inactive_category :
  exists r n,
    @initGraph gridSimulation coreGraph "/" 800 600
       (mkView (activeAfter ["all"]) EmptyString false (-1) [] true) = Some r
    /\ In n (r_nodes r)
    /\ ln_id n = "home"
    /\ n_cat (ln_node n) = "nav"
    /\ ~ (n_cat (ln_node n) ∈ activeAfter ["all"]).
Proof.
  eexists. eexists. split; [vm_compute; reflexivity|].
  split; [left; reflexivity|].
  split; [reflexivity|]. split; [reflexivity|].
  rewrite activeAfter_all. simpl. intros Hin.
  apply elem_of_singleton in Hin. discriminate.
Qed.

(** *** Keyboard focus *)

Lemma initGraphView_index (gd : GraphData) (pathname : string) (v : ViewState) :
  focusedNodeIndex (initGraphView gd pathname v) = focusedNodeIndex v.
Proof. unfold initGraphView. destruct (g_nodes gd); reflexivity. Qed.

(** The index an arrow key leaves, for a non-empty list of [len] nodes. *)
Definition movedIndex (k : Key) (index len : Z) : Z :=
  match k with
  | ArrowDown | ArrowRight => Z.min (index + 1) (len - 1)
  | ArrowUp | ArrowLeft => Z.max (index - 1) 0
  end.

Lemma arrowKey_index (gd : GraphData) (pathname : string) (k : Key) (v : ViewState) :
  keyboardFocusableNodes v <> [] ->
  focusedNodeIndex (arrowKey gd pathname k v)
  = movedIndex k (focusedNodeIndex v) (Z.of_nat (length (keyboardFocusableNodes v))).
Proof.
  intros Hne. unfold arrowKey.
  destruct (Z.eqb_spec (Z.of_nat (length (keyboardFocusableNodes v))) 0) as [E|_].
  - destruct (keyboardFocusableNodes v); [congruence | simpl in E; lia].
  - destruct k; simpl;
      match goal with
      | |- context [nodeAt ?l ?i] => destruct (nodeAt l i)
      end; rewrite ?initGraphView_index; reflexivity.
Qed.

(** From an index that is the initial -1 or lies within the list, an arrow
    key stays within the list and does not wrap. *)
Lemma movedIndex_in_range (k : Key) (index len : Z) :
  (0 < len)%Z -> (-1 <= index <= len - 1)%Z ->
  (0 <= movedIndex k index len <= len - 1)%Z
  /\ movedIndex ArrowUp 0 len = 0%Z
  /\ movedIndex ArrowLeft 0 len = 0%Z
  /\ movedIndex ArrowDown (len - 1) len = (len - 1)%Z
  /\ movedIndex ArrowRight (len - 1) len = (len - 1)%Z.
Proof. intros Hlen Hi. unfold movedIndex. destruct k; simpl; lia. Qed.

(** The index loaded with one note, notes/a.html: six core pages and one
    note. *)
Definition oneNoteGraph : GraphData :=
  p_graph (onIndex [mkItem "notes/a.html" "A"] initialPage).

(** Open the modal, walk down to the last of the seven nodes, switch the
    Nav category off (one node is left), press ArrowUp. *)
Definition staleFocusEvents : list Event :=
  [ OpenGraph ]
  ++ repeat (ArrowKey ArrowDown OnPage) 7
  ++ [ ClickFilter "nav"; ArrowKey ArrowUp OnPage ].

(** C8 (code at the failing input). After the events above the visible list
    holds one node, yet the focus index is 5, outside [0, 0]: the category
    click re-filters the list without resetting or re-clamping the index (the
    search handler resets it to -1), and ArrowUp only bounds it below. *)
Theorem focus_index_stale_after_category_click :
  let before := run oneNoteGraph "/" (removelast staleFocusEvents) in
  let after := run oneNoteGraph "/" staleFocusEvents in
  map ln_id (keyboardFocusableNodes before) = ["notes-a-"]
  /\ focusedNodeIndex before = 6%Z
  /\ map ln_id (keyboardFocusableNodes after) = ["notes-a-"]
  /\ focusedNodeIndex after = 5%Z
  /\ ~ (0 <= focusedNodeIndex after
             <= Z.of_nat (length (keyboardFocusableNodes after)) - 1)%Z
  /\ nodeAt (keyboardFocusableNodes after) (focusedNodeIndex after) = None.
Proof.
  cbv zeta.
  assert (Ea : focusedNodeIndex (run oneNoteGraph "/" staleFocusEvents) = 5%Z)
    by (vm_compute; reflexivity).
  assert (La : length (keyboardFocusableNodes (run oneNoteGraph "/" staleFocusEvents))
               = 1%nat) by (vm_compute; reflexivity).
  split; [vm_compute; reflexivity|].
  split; [vm_compute; reflexivity|].
  split; [vm_compute; reflexivity|].
  split; [exact Ea|].
  split; [rewrite Ea, La; simpl; lia|].
  vm_compute. reflexivity.
Qed.

(** ** Page augmentation *)

Lemma fold_left_same {A B} (f g : A -> B -> A) (xs : list B) (acc : A) :
  (forall a x, f a x = g a x) -> fold_left f xs acc = fold_left g xs acc.
Proof.
  intros E. revert acc. induction xs as [|x xs IH]; simpl; intros acc; [reflexivity|].
  rewrite E. apply IH.
Qed.

Lemma fold_append {A B} (pick : B -> list A) (xs : list B) (acc : list A) :
  fold_left (fun acc x => acc ++ pick x) xs acc = acc ++ flat_map pick xs.
Proof.
  revert acc. induction xs as [|x xs IH]; simpl; intros acc.
  - rewrite app_nil_r. reflexivity.
  - rewrite IH, <- app_assoc. reflexivity.
Qed.

(** What one link contributes to the list of pages at its [near] end when
    its [far] end is the current page. *)
Definition linkedPage (nodes : list Node) (currentId currentPath : string)
    (far near : Link -> string) (link : Link) : list Node :=
  if String.eqb (far link) currentId then
    match findById nodes (near link) with
    | Some node => if negb (String.eqb (n_path node) currentPath) then [node] else []
    | None => []
    end
  else [].

Lemma backlinksOf_flat (gd : GraphData) (currentId currentPath : string) :
  backlinksOf gd currentId currentPath
  = flat_map (linkedPage (g_nodes gd) currentId currentPath l_target l_source)
             (g_links gd).
Proof.
  unfold backlinksOf.
  rewrite <- (app_nil_l (flat_map _ _)), <- fold_append.
  apply fold_left_same. intros acc link. unfold linkedPage.
  destruct (String.eqb (l_target link) currentId); [|rewrite app_nil_r; reflexivity].
  destruct (findById (g_nodes gd) (l_source link)) as [n|];
    [|rewrite app_nil_r; reflexivity].
  destruct (negb (String.eqb (n_path n) currentPath));
    [reflexivity | rewrite app_nil_r; reflexivity].
Qed.

Lemma relatedOf_flat (gd : GraphData) (currentId currentPath : string) :
  relatedOf gd currentId currentPath
  = flat_map (linkedPage (g_nodes gd) currentId currentPath l_source l_target)
             (g_links gd).
Proof.
  unfold relatedOf.
  rewrite <- (app_nil_l (flat_map _ _)), <- fold_append.
  apply fold_left_same. intros acc link. unfold linkedPage.
  destruct (String.eqb (l_source link) currentId); [|rewrite app_nil_r; reflexivity].
  destruct (findById (g_nodes gd) (l_target link)) as [n|];
    [|rewrite app_nil_r; reflexivity].
  destruct (negb (String.eqb (n_path n) currentPath));
    [reflexivity | rewrite app_nil_r; reflexivity].
Qed.

Lemma linkedPage_In (nodes : list Node) (currentId currentPath : string)
    (far near : Link -> string) (links : list Link) (n : Node) :
  In n (flat_map (linkedPage nodes currentId currentPath far near) links)
  <-> exists link, In link links
                   /\ far link = currentId
                   /\ findById nodes (near link) = Some n
                   /\ n_path n <> currentPath.
Proof.
  rewrite in_flat_map. split; intros [link [Hl H]]; exists link; (split; [exact Hl|]).
  - unfold linkedPage in H.
    destruct (String.eqb_spec (far link) currentId) as [E|_]; [|destruct H].
    destruct (findById nodes (near link)) as [m|]; [|destruct H].
    destruct (String.eqb_spec (n_path m) currentPath) as [|Hp]; simpl in H;
      [destruct H|].
    destruct H as [<-|[]]. auto.
  - destruct H as [E [Hf Hp]]. unfold linkedPage.
    rewrite E, String.eqb_refl, Hf.
    apply String.eqb_neq in Hp. rewrite Hp. left. reflexivity.
Qed.

Lemma mapSet_Forall {V} (P : string * V -> Prop) (k : string) (v : V) (m : Js.jsmap V) :
  Forall P m -> P (k, v) -> Forall P (Js.mapSet k v m).
Proof.
  intros Hm Hkv. induction Hm as [|[k' v'] m Hk' Hm IH]; simpl.
  - constructor; [exact Hkv | constructor].
  - destruct (String.eqb_spec k' k) as [->|_]; constructor; auto.
Qed.

Lemma mapSet_keys_In {V} (k k0 : string) (v : V) (m : Js.jsmap V) :
  In k0 (map fst (Js.mapSet k v m)) <-> k0 = k \/ In k0 (map fst m).
Proof.
  rewrite mapSet_keys. destruct (Js.mapHas k m) eqn:E.
  - apply mapHas_In in E. split; [tauto|]. intros [->|H]; assumption.
  - rewrite in_app_iff. simpl. intuition.
Qed.

Section UniqueByPath.
Variable l : list Node.

Let entries : list (string * Node) := map (fun b => (n_path b, b)) l.
Let built (m : Js.jsmap Node) : Js.jsmap Node :=
  fold_left (fun m kv => Js.mapSet (fst kv) (snd kv) m) entries m.

Lemma built_keyed (m : Js.jsmap Node) :
  Forall (fun kv => fst kv = n_path (snd kv)) m ->
  Forall (fun kv => fst kv = n_path (snd kv)) (built m).
Proof.
  unfold built, entries. clear built entries. revert m.
  induction l as [|b l' IH]; simpl; intros m Hm; [exact Hm|].
  apply IH, mapSet_Forall; [exact Hm | reflexivity].
Qed.

Lemma built_values (m : Js.jsmap Node) (x : Node) :
  In x (map snd (built m)) -> In x (map snd m) \/ In x l.
Proof.
  unfold built, entries. clear built entries. revert m.
  induction l as [|b l' IH]; simpl; intros m Hx; [tauto|].
  apply IH in Hx as [Hx|Hx]; [|tauto].
  apply mapSet_values_In in Hx as [->|Hx]; tauto.
Qed.

Lemma built_keys (m : Js.jsmap Node) (k : string) :
  In k (map fst m) \/ In k (map n_path l) -> In k (map fst (built m)).
Proof.
  unfold built, entries. clear built entries. revert m.
  induction l as [|b l' IH]; simpl; intros m Hk; [tauto|].
  apply IH. rewrite mapSet_keys_In. intuition.
Qed.

Lemma uniqueByPath_paths : map n_path (uniqueByPath l) = map fst (built []).
Proof.
  unfold uniqueByPath, Js.mapValues, Js.mapOfEntries. fold entries. fold (built []).
  rewrite map_map. apply map_ext_in. intros kv Hin.
  pose proof (built_keyed [] (List.Forall_nil _)) as H.
  rewrite List.Forall_forall in H. symmetry. apply (H kv Hin).
Qed.

Lemma uniqueByPath_NoDup : List.NoDup (map n_path (uniqueByPath l)).
Proof.
  rewrite uniqueByPath_paths. apply mapOfEntries_NoDup_from. constructor.
Qed.

Lemma uniqueByPath_sub (n : Node) : In n (uniqueByPath l) -> In n l.
Proof.
  intros H. apply (built_values []) in H as [[]|H]. exact H.
Qed.

Lemma uniqueByPath_covers (b : Node) :
  In b l -> exists n, In n (uniqueByPath l) /\ n_path n = n_path b.
Proof.
  intros Hb.
  assert (Hk : In (n_path b) (map n_path (uniqueByPath l))).
  { rewrite uniqueByPath_paths. apply built_keys. right. apply in_map, Hb. }
  apply in_map_iff in Hk as [n [Hp Hn]]. exists n. tauto.
Qed.

End UniqueByPath.

(** De-duplication by path loses no page when paths identify nodes. *)
Lemma uniqueByPath_In (nodes l : list Node) (n : Node) :
  List.NoDup (map n_path nodes) -> incl l nodes ->
  (In n (uniqueByPath l) <-> In n l).
Proof.
  intros Hnd Hincl. split; [apply uniqueByPath_sub|].
  intros Hn. destruct (uniqueByPath_covers l n Hn) as [n' [Hn' Hp]].
  assert (n' = n); [|subst; exact Hn'].
  apply (NoDup_map_injective n_path nodes); auto.
  apply Hincl, uniqueByPath_sub, Hn'.
Qed.

Lemma linkedPage_incl (nodes : list Node) (currentId currentPath : string)
    (far near : Link -> string) (links : list Link) :
  incl (flat_map (linkedPage nodes currentId currentPath far near) links) nodes.
Proof.
  intros n Hn. apply linkedPage_In in Hn as [link [_ [_ [Hf _]]]].
  unfold findById in Hf. apply find_some in Hf as [Hin _]. exact Hin.
Qed.

Lemma injectBacklinksAndRelated_found (gd : GraphData) (currentPath cid : string) :
  getCurrentPageId (g_nodes gd) currentPath = Some cid ->
  truthy cid = true ->
  truthy currentPath = true ->
  String.eqb currentPath "/" = false ->
  String.eqb currentPath "/index.html" = false ->
  injectBacklinksAndRelated gd currentPath true
  = Some (mkSections (uniqueByPath (backlinksOf gd cid currentPath))
                     (uniqueByPath (relatedOf gd cid currentPath))).
Proof.
  intros Hcur Hcid Hp0 Hp1 Hp2. unfold injectBacklinksAndRelated.
  rewrite Hcur, Hcid, Hp0, Hp1, Hp2. simpl.
  destruct (g_nodes gd) eqn:E; [|reflexivity].
  unfold getCurrentPageId, currentPageNode in Hcur. simpl in Hcur.
  destruct (_ || _) in Hcur; discriminate.
Qed.

(** The example of two pages A and B with the single link a -> b. *)
Definition abGraph (catA catB : string) : GraphData :=
  mkGraph [mkNode "a" "A" "/a" catA; mkNode "b" "B" "/b" catB] [mkLink "a" "b"].

(** [n] is the page found at the [near] end of some link whose [far] end is
    the current page, and is not the current path itself. *)
Definition linkedFrom (gd : GraphData) (cid currentPath : string)
    (far near : Link -> string) (n : Node) : Prop :=
  exists link, In link (g_links gd)
               /\ far link = cid
               /\ findById (g_nodes gd) (near link) = Some n
               /\ n_path n <> currentPath.

(** [listed] holds exactly the pages with [P], one per path. *)
Definition onePerPath (listed : list Node) (P : Node -> Prop) : Prop :=
  List.NoDup (map n_path listed)
  /\ (forall n, In n listed -> P n)
  /\ (forall n, P n -> exists n', In n' listed /\ n_path n' = n_path n).

Lemma uniqueByPath_onePerPath (l : list Node) :
  onePerPath (uniqueByPath l) (fun n => In n l).
Proof.
  split; [apply uniqueByPath_NoDup|].
  split; [apply uniqueByPath_sub | apply uniqueByPath_covers].
Qed.

(** C9. For a page other than the homepage whose node id [cid] is
    identified, the two sections are injected. The backlinks are the nodes
    found for the sources of the links whose target is [cid], leaving out the
    node whose path is the current path, one per page path; the related pages
    are the nodes found for the targets of the links whose source is [cid],
    with the same exclusion, one per page path. When the node paths of the
    graph are pairwise distinct (as the loader makes them) the lists are
    exactly these nodes. On the graph a -> b of pages A (/a) and B (/b):
    page /b gets the backlinks [A] and no related page, page /a gets the
    related pages [B] and no backlink. *)
Theorem backlinks_and_related_exact :
  (forall (gd : GraphData) (currentPath cid : string),
      getCurrentPageId (g_nodes gd) currentPath = Some cid ->
      cid <> EmptyString ->
      currentPath <> EmptyString -> currentPath <> "/" -> currentPath <> "/index.html" ->
      exists s,
        injectBacklinksAndRelated gd currentPath true = Some s
        /\ onePerPath (s_backlinks s) (linkedFrom gd cid currentPath l_target l_source)
        /\ onePerPath (s_related s) (linkedFrom gd cid currentPath l_source l_target)
        /\ (List.NoDup (map n_path (g_nodes gd)) ->
            (forall n, In n (s_backlinks s)
                       <-> linkedFrom gd cid currentPath l_target l_source n)
            /\ (forall n, In n (s_related s)
                          <-> linkedFrom gd cid currentPath l_source l_target n)))
  /\ (forall catA catB,
        injectBacklinksAndRelated (abGraph catA catB) "/b" true
        = Some (mkSections [mkNode "a" "A" "/a" catA] [])
        /\ injectBacklinksAndRelated (abGraph catA catB) "/a" true
           = Some (mkSections [] [mkNode "b" "B" "/b" catB])).
Proof.
  split; [|intros catA catB; split; reflexivity].
  intros gd currentPath cid Hcur Hcid Hp0 Hp1 Hp2.
  apply String.eqb_neq in Hcid, Hp0, Hp1, Hp2.
  rewrite (injectBacklinksAndRelated_found gd currentPath cid Hcur); unfold truthy;
    try (rewrite ?Hcid, ?Hp0, ?Hp1, ?Hp2; reflexivity).
  eexists. split; [reflexivity|]. simpl.
  rewrite backlinksOf_flat, relatedOf_flat.
  assert (Hone : forall far near,
             onePerPath
               (uniqueByPath
                  (flat_map (linkedPage (g_nodes gd) cid currentPath far near)
                            (g_links gd)))
               (linkedFrom gd cid currentPath far near)).
  { intros far near.
    destruct (uniqueByPath_onePerPath
                (flat_map (linkedPage (g_nodes gd) cid currentPath far near)
                          (g_links gd))) as [Hnd [Hsub Hcov]].
    split; [exact Hnd|]. split.
    - intros n Hn. apply linkedPage_In, Hsub, Hn.
    - intros n Hn. apply Hcov, linkedPage_In, Hn. }
  split; [apply Hone|]. split; [apply Hone|].
  intros Hnd. split; intros n.
  - rewrite (uniqueByPath_In (g_nodes gd)); [apply linkedPage_In | exact Hnd |].
    apply linkedPage_incl.
  - rewrite (uniqueByPath_In (g_nodes gd)); [apply linkedPage_In | exact Hnd |].
    apply linkedPage_incl.
Qed.

(** Page /b of the example: linked from A, nothing related. *)
Lemma backlinks_and_related_exact_witness :
  exists s,
    injectBacklinksAndRelated (abGraph "nav" "nav") "/b" true = Some s
    /\ onePerPath (s_backlinks s)
                  (linkedFrom (abGraph "nav" "nav") "b" "/b" l_target l_source)
    /\ onePerPath (s_related s)
                  (linkedFrom (abGraph "nav" "nav") "b" "/b" l_source l_target)
    /\ (forall n, In n (s_backlinks s)
                  <-> linkedFrom (abGraph "nav" "nav") "b" "/b" l_target l_source n)
    /\ (forall n, In n (s_related s)
                  <-> linkedFrom (abGraph "nav" "nav") "b" "/b" l_source l_target n).
Proof.
  destruct (proj1 backlinks_and_related_exact (abGraph "nav" "nav") "/b" "b")
    as [s [Hs [Hb [Hr Hexact]]]];
    [reflexivity | discriminate | discriminate | discriminate | discriminate |].
  exists s. split; [exact Hs|]. split; [exact Hb|]. split; [exact Hr|].
  apply Hexact. apply NoDup_ListNoDup. refine (bool_decide_unpack _ _).
  vm_compute. exact I.
Defined.

(** ** Recent-pages log *)

(** The log as the script writes it: one [{path, timestamp}] per line. *)
Definition entries (log : list (string * Z)) : list JValue :=
  map (fun e => entry (fst e) (snd e)) log.

Definition otherThan (path : string) (e : string * Z) : bool :=
  negb (String.eqb (fst e) path).

Lemma filterOutPath_entries (path : string) (log : list (string * Z)) :
  filterOutPath path (entries log)
  = Returned (entries (List.filter (otherThan path) log)).
Proof.
  induction log as [|[p t] log IH]; simpl; [reflexivity|].
  rewrite IH. simpl. unfold otherThan. simpl.
  destruct (negb (String.eqb p path)); reflexivity.
Qed.

Lemma NoDup_firstn {A} (n : nat) (l : list A) : List.NoDup l -> List.NoDup (firstn n l).
Proof.
  revert n. induction l as [|a l IH]; intros [|n] H; simpl; try constructor.
  - inversion H as [|? ? Ha Hl]; subst. intros Hin. apply Ha.
    revert Hin. clear. revert n. induction l as [|b l IHl]; intros [|n]; simpl; try tauto.
    intros [->|H]; [left; reflexivity | right; eapply IHl, H].
  - inversion H; subst. apply IH. assumption.
Qed.

Lemma filter_paths_NoDup (path : string) (log : list (string * Z)) :
  List.NoDup (map fst log) ->
  List.NoDup (map fst (List.filter (otherThan path) log))
  /\ ~ In path (map fst (List.filter (otherThan path) log))
  /\ incl (map fst (List.filter (otherThan path) log)) (map fst log).
Proof.
  induction log as [|[p t] log IH]; intros H.
  - simpl. split; [constructor|]. split; [tauto | intros x []].
  - simpl in H. inversion H as [|? ? Hp Hl]; subst.
    destruct (IH Hl) as [Hnd [Hout Hsub]].
    change (List.filter (otherThan path) ((p, t) :: log))
      with (if negb (String.eqb p path)
            then (p, t) :: List.filter (otherThan path) log
            else List.filter (otherThan path) log).
    destruct (String.eqb_spec p path) as [->|Hne]; simpl.
    + split; [exact Hnd|]. split; [exact Hout|]. intros x Hx. right. apply Hsub, Hx.
    + split; [constructor; [intros Hin; apply Hp, Hsub, Hin | exact Hnd]|].
      split; [intros [E|Hin]; [congruence | exact (Hout Hin)]|].
      intros x [<-|Hx]; [left; reflexivity | right; apply Hsub, Hx].
Qed.

(** A store the log can be kept in: readable, writable, and holding nothing,
    something unparsable, or a log without repeated paths. *)
Definition goodStore (st : Storage) : Prop :=
  canRead st = true /\ canWrite st = true
  /\ (cell st = NoItem
      \/ cell st = Item None
      \/ exists log, cell st = Item (Some (JArray (entries log)))
                     /\ List.NoDup (map fst log)).

(** A store right after [path] was added at time [now]. *)
Definition justAdded (path : string) (now : Z) (st : Storage) : Prop :=
  exists rest,
    st = mkStorage true true (Item (Some (JArray (entries ((path, now) :: rest)))))
    /\ (length ((path, now) :: rest) <= 10)%nat
    /\ List.NoDup (map fst ((path, now) :: rest)).

Lemma justAdded_good (path : string) (now : Z) (st : Storage) :
  justAdded path now st -> goodStore st.
Proof.
  intros [rest [-> [_ Hnd]]]. split; [reflexivity|]. split; [reflexivity|].
  right. right. exists ((path, now) :: rest). split; [reflexivity | exact Hnd].
Qed.

Lemma addRecentPage_good (path : string) (now : Z) (st : Storage) :
  goodStore st ->
  exists st', addRecentPage path now st = Returned st' /\ justAdded path now st'.
Proof.
  destruct st as [r w c]. intros [Hr [Hw Hc]]. simpl in Hr, Hw, Hc. subst r w.
  assert (Hlog : forall log,
             List.NoDup (map fst log) ->
             getRecentPages (mkStorage true true c) = Returned (JArray (entries log)) ->
             exists st', addRecentPage path now (mkStorage true true c) = Returned st'
                         /\ justAdded path now st').
  { intros log Hnd Hget. unfold addRecentPage. rewrite Hget. simpl.
    rewrite filterOutPath_entries. simpl. eexists. split; [reflexivity|].
    destruct (filter_paths_NoDup path log Hnd) as [Hf [Hout _]].
    exists (firstn 9 (List.filter (otherThan path) log)).
    split; [|split].
    - unfold setItem, entries. simpl. rewrite firstn_map. reflexivity.
    - simpl. pose proof (firstn_le_length 9 (List.filter (otherThan path) log)). lia.
    - assert (H10 : List.NoDup
                      (firstn 10 (path :: map fst (List.filter (otherThan path) log))))
        by (apply NoDup_firstn; constructor; assumption).
      simpl in H10. rewrite firstn_map in H10. exact H10. }
  destruct Hc as [->|[->|[log [-> Hnd]]]].
  - apply (Hlog []); [constructor | reflexivity].
  - apply (Hlog []); [constructor | reflexivity].
  - apply (Hlog log); [exact Hnd | reflexivity].
Qed.

Lemma addRecentPages_snoc (visits : list (string * Z)) (visit : string * Z)
    (st : Storage) :
  addRecentPages (visits ++ [visit]) st
  = bind (addRecentPages visits st) (addRecentPage (fst visit) (snd visit)).
Proof. unfold addRecentPages. rewrite fold_left_app. reflexivity. Qed.

Lemma addRecentPages_good (visits : list (string * Z)) (st : Storage) :
  goodStore st ->
  exists st', addRecentPages visits st = Returned st' /\ goodStore st'.
Proof.
  intros Hst. induction visits as [|[p t] visits IH] using rev_ind.
  - exists st. split; [reflexivity | exact Hst].
  - destruct IH as [st1 [E1 H1]]. rewrite addRecentPages_snoc, E1. simpl.
    destruct (addRecentPage_good p t st1 H1) as [st2 [E2 H2]].
    exists st2. split; [exact E2 | eapply justAdded_good, H2].
Qed.

Lemma freshStorage_good : goodStore freshStorage.
Proof. split; [reflexivity|]. split; [reflexivity|]. left. reflexivity. Qed.

(** C7. Start from a usable store that is empty (or holds a log without
    repeated paths, or an unparsable string) and let pages be visited in any
    number and order, each visit calling [addRecentPage] with its path, the
    last one with [path]. Every call returns; afterwards [getRecentPages]
    returns a list of [{path, timestamp}] entries that has at most 10
    entries, no two of them with the same path, exactly one entry for [path]
    (also when [path] was added twice in a row), and that entry is the
    first. *)
Theorem recent_log_capped_distinct_latest_first
    (st : Storage) (visits : list (string * Z)) (path : string) (now : Z) :
  goodStore st ->
  exists st' log,
    addRecentPages (visits ++ [(path, now)]) st = Returned st'
    /\ getRecentPages st' = Returned (JArray (entries log))
    /\ (length log <= 10)%nat
    /\ List.NoDup (map fst log)
    /\ hd_error log = Some (path, now)
    /\ length (List.filter (fun e => String.eqb (fst e) path) log) = 1%nat.
Proof.
  intros Hst.
  destruct (addRecentPages_good visits st Hst) as [st1 [E1 H1]].
  destruct (addRecentPage_good path now st1 H1) as [st2 [E2 [rest [-> [Hlen Hnd]]]]].
  exists (mkStorage true true (Item (Some (JArray (entries ((path, now) :: rest)))))),
         ((path, now) :: rest).
  split; [rewrite addRecentPages_snoc, E1; exact E2|].
  split; [reflexivity|]. split; [exact Hlen|]. split; [exact Hnd|].
  split; [reflexivity|].
  simpl. rewrite String.eqb_refl. simpl. f_equal.
  inversion Hnd as [|? ? Hout _]; subst. clear - Hout.
  induction rest as [|[p t] rest IH]; simpl; [reflexivity|].
  simpl in Hout. destruct (String.eqb_spec p path) as [->|_]; [tauto|].
  apply IH. tauto.
Qed.

(** Twelve pages, then the same page twice in a row, from a fresh store. *)
Definition manyVisits : list (string * Z) :=
  [ ("/p1", 1%Z); ("/p2", 2%Z); ("/p3", 3%Z); ("/p4", 4%Z); ("/p5", 5%Z);
    ("/p6", 6%Z); ("/p7", 7%Z); ("/p8", 8%Z); ("/p9", 9%Z); ("/p10", 10%Z);
    ("/p11", 11%Z); ("/p12", 12%Z); ("/notes/", 13%Z) ].

Lemma recent_log_capped_distinct_latest_first_witness :
  exists st' log,
    addRecentPages (manyVisits ++ [("/notes/", 14%Z)]) freshStorage = Returned st'
    /\ getRecentPages st' = Returned (JArray (entries log))
    /\ (length log <= 10)%nat
    /\ List.NoDup (map fst log)
    /\ hd_error log = Some ("/notes/", 14%Z)
    /\ length (List.filter (fun e => String.eqb (fst e) "/notes/") log) = 1%nat.
Proof.
  apply (recent_log_capped_distinct_latest_first freshStorage manyVisits "/notes/" 14).
  split; [reflexivity|]. split; [reflexivity|]. left. reflexivity.
Defined.

Example recent_log_same_path_twice :
  addRecentPages [("/a", 1%Z); ("/b", 2%Z); ("/a", 3%Z); ("/a", 4%Z)] freshStorage
  = Returned (mkStorage true true
                (Item (Some (JArray (entries [("/a", 4%Z); ("/b", 2%Z)]))))).
Proof. reflexivity. Qed.

(** *** When the store is missing or corrupt *)

(** C10 (as amended). [getRecentPages] and [addRecentPage] always return.
    When the store cannot be read, or holds a string that is not valid JSON,
    [getRecentPages] returns the empty list. When the store cannot be
    written, [addRecentPage] returns with the store unchanged. When the
    store is usable but holds a string that is not valid JSON,
    [addRecentPage] replaces it by the log with the one new entry. *)
Theorem recent_pages_never_throw (st : Storage) (path : string) (now : Z) :
  (exists v, getRecentPages st = Returned v)
  /\ (exists st', addRecentPage path now st = Returned st')
  /\ (canRead st = false \/ cell st = Item None ->
      getRecentPages st = Returned (JArray []))
  /\ (canWrite st = false -> addRecentPage path now st = Returned st)
  /\ (canRead st = true -> canWrite st = true -> cell st = Item None ->
      addRecentPage path now st
      = Returned (mkStorage true true (Item (Some (JArray [entry path now]))))).
Proof.
  destruct st as [r w c]. simpl.
  split; [|split; [|split; [|split]]].
  - unfold getRecentPages, getItem. simpl.
    destruct r; simpl; [|eexists; reflexivity].
    destruct c as [|[v|]]; eexists; reflexivity.
  - unfold addRecentPage.
    destruct (bind (getRecentPages (mkStorage r w c)) _); eexists; reflexivity.
  - intros [->| ->]; [reflexivity|]. destruct r; reflexivity.
  - intros ->. unfold addRecentPage, setItem. simpl.
    destruct (getRecentPages (mkStorage r false c)) as [v|]; simpl; [|reflexivity].
    destruct (filterRecent path v); reflexivity.
  - intros -> -> ->. reflexivity.
Qed.

(** A private window: storage throws on every access. *)
Lemma recent_pages_never_throw_witness :
  getRecentPages (mkStorage false false NoItem) = Returned (JArray [])
  /\ addRecentPage "/notes/" 1 (mkStorage false false NoItem)
     = Returned (mkStorage false false NoItem).
Proof.
  destruct (recent_pages_never_throw (mkStorage false false NoItem) "/notes/" 1)
    as [_ [_ [Hget [Hadd _]]]].
  split; [apply Hget; left; reflexivity | apply Hadd; reflexivity].
Defined.

(** C10 (as stated) fails: with a usable store that holds a string that is
    not valid JSON, [addRecentPage] does change the store. *)
Lemma corrupt_store_is_overwritten :
  let st := mkStorage true true (Item None) in
  getRecentPages st = Returned (JArray [])
  /\ addRecentPage "/notes/" 1 st
     = Returned (mkStorage true true (Item (Some (JArray [entry "/notes/" 1]))))
  /\ addRecentPage "/notes/" 1 st <> Returned st.
Proof.
  simpl. split; [reflexivity|]. split; [reflexivity|]. discriminate.
Qed.

(* ===================================================================== *)
(** * Part III. Further code of the script                                *)
(* ===================================================================== *)

From Stdlib Require Import Lqa Qround.

(** ** Node size, colour and marks in the full view *)

(** Arithmetic on numbers: the result of an operation is the exact result
    rounded to a double. [roundToDouble] stands for that rounding (to the
    nearest double), on values that are doubles seen as rationals. *)
Class Arithmetic := {
  roundToDouble : Q -> Q
}.

Definition numAdd `{Arithmetic} (a b : Q) : Q := roundToDouble (a + b).
Definition numSub `{Arithmetic} (a b : Q) : Q := roundToDouble (a - b).
Definition numMul `{Arithmetic} (a b : Q) : Q := roundToDouble (a * b).
Definition numDiv `{Arithmetic} (a b : Q) : Q := roundToDouble (a / b).

(** The sizes of [initGraph]: [minRadius], [maxRadius], [currentRadius]. *)
Definition minRadius : Q := 6.
Definition maxRadius : Q := 16.
Definition currentRadius : Q := 18.

(** [d.degree]; every node of the full view carries one. *)
Definition degreeOf (d : LNode) : nat := default 0%nat (ln_degree d).

(** [Math.max(...nodes.map(n => n.degree), 1)] *)
Definition maxDegreeOf (nodes : list LNode) : nat :=
  fold_right Nat.max 1%nat (map degreeOf nodes).

(** [getRadius(d)], for a [maxDegree] of at least 1 as [maxDegreeOf] gives
    it. *)
Definition getRadius `{Arithmetic} (currentId : option string) (maxDegree : nat)
    (d : LNode) : Q :=
  if isCurrent currentId d then currentRadius
  else
    let size :=
      numAdd minRadius
             (numMul (numDiv (inject_Z (Z.of_nat (degreeOf d)))
                             (inject_Z (Z.of_nat maxDegree)))
                     (numSub maxRadius minRadius)) in
    Qmax minRadius (Qmin maxRadius size).

Definition catColors : list (string * string) :=
  [("nav", "var(--bs-secondary)"); ("notes", "var(--bs-info)");
   ("work", "var(--bs-success)"); ("reading", "var(--bs-warning)")].

(** [catColors[cat] || 'var(--bs-secondary)'], for a category that is not
    the name of a property every object inherits. *)
Definition catColor (cat : string) : string :=
  match List.find (fun kv => String.eqb (fst kv) cat) catColors with
  | Some kv => snd kv
  | None => "var(--bs-secondary)"
  end.

(** [recentPages.includes(path)] *)
Definition isRecent (recentPages : list (option JValue)) (path : string) : bool :=
  existsb (fun v => match v with
                    | Some (JString s) => String.eqb s path
                    | _ => false
                    end) recentPages.

(** The [fill] of a node's circle. *)
Definition fillOf (currentId : option string) (recentPages : list (option JValue))
    (d : LNode) : string :=
  if isCurrent currentId d then "var(--bs-primary)"
  else if isRecent recentPages (n_path (ln_node d)) then "var(--bs-warning)"
       else catColor (n_cat (ln_node d)).

(** The [class] of a node's circle. *)
Definition circleClass (currentId : option string)
    (recentPages : list (option JValue)) (d : LNode) : string :=
  Js.join " "
    ((if isCurrent currentId d then ["current"] else [])
     ++ (if isRecent recentPages (n_path (ln_node d)) then ["recent"] else [])).

(** ** Enter in the viewer *)

(** The Enter branch of the modal's keydown handler: the page the browser
    is sent to, if any. *)
Definition enterKey (v : ViewState) (target : Target) : option string :=
  if negb (modalActive v) then None
  else match target with
       | OnOtherInput => None
       | _ =>
           if (0 <=? focusedNodeIndex v)%Z
           then match nodeAt (keyboardFocusableNodes v) (focusedNodeIndex v) with
                | Some focusedNode => Some (n_path (ln_node focusedNode))
                | None => None
                end
           else None
       end.

(** ** Reading time *)

(** [s.split(/\s+/)]: the pieces between the maximal runs of white space.
    [piece] holds the current piece in reverse, [inRun] tells that the
    previous character was white space. *)
Fixpoint splitRuns (piece : list ascii) (inRun : bool) (s : list ascii)
    : list (list ascii) :=
  match s with
  | [] => [rev piece]
  | c :: s' =>
      if isSpace c
      then if inRun then splitRuns [] true s' else rev piece :: splitRuns [] true s'
      else splitRuns (c :: piece) false s'
  end.

Definition splitOnSpaces (s : string) : list string :=
  map Js.str (splitRuns [] false (Js.chars s)).

(** [text.trim().split(/\s+/).length] *)
Definition wordCount (text : string) : Z :=
  Z.of_nat (length (splitOnSpaces (trim text))).

(** [Math.max(1, Math.ceil(wordCount / 200))]; the quotient of two integers
    rounded up. *)
Definition readingTime (text : string) : Z :=
  Z.max 1 ((wordCount text + 199) / 200).

(** ** The j and k keys on listing pages *)

Inductive PageKey := KeyJ | KeyK | KeySlash | KeyQuestion | KeyOther.

(** [noteLinks[i]] *)
Definition linkAt {A : Type} (noteLinks : list A) (i : Z) : option A :=
  if (i <? 0)%Z then None else nth_error noteLinks (Z.to_nat i).

(** The j/k part of the page's keydown handler: the new [currentIndex] and
    the links that receive the focus, in order. [inField] tells that the
    event's target is an INPUT or a TEXTAREA. *)
Definition pageKey {A : Type} (noteLinks : list A) (inField : bool) (key : PageKey)
    (currentIndex : Z) : Z * list A :=
  if inField then (currentIndex, [])
  else
    let len := Z.of_nat (length noteLinks) in
    if (0 <? len)%Z
    then match key with
         | KeyJ =>
             let i := Z.min (currentIndex + 1) (len - 1) in
             (i, match linkAt noteLinks i with Some a => [a] | None => [] end)
         | KeyK =>
             let i := Z.max (currentIndex - 1) 0 in
             (i, match linkAt noteLinks i with Some a => [a] | None => [] end)
         | _ => (currentIndex, [])
         end
    else (currentIndex, []).

(** ** The list of recent paths read at start-up *)

(** [p.path] inside [map]: reading a property of [null] throws, a value
    without the property gives [undefined]. *)
Definition pathProperty (p : JValue) : Outcome (option JValue) :=
  match p with
  | JNull => Thrown
  | JObject fields => Returned (field "path" fields)
  | _ => Returned None
  end.

Fixpoint mapPath (items : list JValue) : Outcome (list (option JValue)) :=
  match items with
  | [] => Returned []
  | p :: rest =>
      bind (pathProperty p)
        (fun v => bind (mapPath rest) (fun vs => Returned (v :: vs)))
  end.

(** [getRecentPages().map(p => p.path)], outside any [try]: only arrays have
    [map]. *)
Definition recentPaths (st : Storage) : Outcome (list (option JValue)) :=
  bind (getRecentPages st)
    (fun recent =>
       match recent with
       | JArray items => mapPath items
       | _ => Thrown
       end).

(** The two start-up statements: [addRecentPage(window.location.pathname)],
    then [const recentPages = getRecentPages().map(p => p.path)]. *)
Definition startUp (pathname : string) (now : Z) (st : Storage)
    : Outcome (Storage * list (option JValue)) :=
  bind (addRecentPage pathname now st)
    (fun st' => bind (recentPaths st') (fun paths => Returned (st', paths))).

(** ** Hover preview *)

(** [s.substring(0, n)] *)
Definition substring0 (n : nat) (s : string) : string := String.substring 0 n s.

(** [a || b] on strings that may be missing: the first that is present and
    not empty. *)
Definition orString (a : option string) (b : option string) : option string :=
  match a with
  | Some s => if truthy s then Some s else b
  | None => b
  end.

(** The description of the hover preview: the page's meta description, or
    else the first 150 characters of its first paragraph, or else nothing.
    [meta] is the [content] attribute if the tag is there, [paragraph] the
    text of the first [p] if there is one. *)
Definition previewDescription (meta paragraph : option string) : string :=
  match orString (orString meta (option_map (substring0 150) paragraph))
                 (Some EmptyString) with
  | Some s => s
  | None => EmptyString
  end.

(** The text of the description block of the tooltip, if any. *)
Definition previewDescriptionBlock (meta paragraph : option string) : option string :=
  let description := previewDescription meta paragraph in
  if truthy description
  then Some (String.append description
               (if (150 <=? String.length description)%nat then "..." else EmptyString))
  else None.

(* ===================================================================== *)
(** * Part IV. Further properties of the script                           *)
(* ===================================================================== *)

(** ** Index loader: what the node list holds *)

Lemma addItem_cases (m : Js.jsmap Node) (item : SearchItem) :
  let path := pathOfHref (i_href item) in
  (Js.mapHas path m = true /\ addItem m item = m)
  \/ (Js.includes path "index.html" = true /\ addItem m item = m)
  \/ (Js.mapHas path m = false
      /\ Js.includes path "index.html" = false
      /\ addItem m item = m ++ [(path, nodeOfItem item path)]).
Proof.
  intros path. unfold addItem. fold path.
  destruct (Js.mapHas path m) eqn:Eh; [left; split; reflexivity|].
  destruct (Js.includes path "index.html") eqn:Ei; [right; left; split; reflexivity|].
  right. right. split; [reflexivity|]. split; [reflexivity|].
  cbn [negb andb]. apply mapSet_fresh, Eh.
Qed.

(** Which keys a run of [addItem] leaves in the map. *)
Lemma fold_addItem_keys (searchData : list SearchItem) (m : Js.jsmap Node) (p : string) :
  In p (map fst (fold_left addItem searchData m))
  <-> In p (map fst m)
      \/ exists item, In item searchData
                      /\ pathOfHref (i_href item) = p
                      /\ Js.includes p "index.html" = false.
Proof.
  revert m. induction searchData as [|item sd IH]; simpl; intros m.
  - split; [tauto|]. intros [H|[item [[] _]]]. exact H.
  - rewrite IH.
    destruct (addItem_cases m item) as [[Eh ->]|[[Ei ->]|[Eh [Ei ->]]]].
    + split.
      * intros [H|[it [Hin H]]]; [tauto|]. right. exists it. tauto.
      * intros [H|[it [[<-|Hin] [Hp Hi]]]]; [tauto| |right; exists it; tauto].
        left. subst p. apply mapHas_In, Eh.
    + split.
      * intros [H|[it [Hin H]]]; [tauto|]. right. exists it. tauto.
      * intros [H|[it [[<-|Hin] [Hp Hi]]]]; [tauto| |right; exists it; tauto].
        subst p. congruence.
    + rewrite map_app, in_app_iff. simpl. split.
      * intros [[H|[<-|[]]]|[it [Hin H]]].
        -- tauto.
        -- right. exists item. tauto.
        -- right. exists it. tauto.
      * intros [H|[it [[<-|Hin] [Hp Hi]]]].
        -- tauto.
        -- left. right. left. exact Hp.
        -- right. exists it. tauto.
Qed.

(** A run of [addItem] only appends index-derived nodes behind the map it
    starts from. *)
Lemma fold_addItem_appends (searchData : list SearchItem) (m : Js.jsmap Node) :
  exists added,
    fold_left addItem searchData m = m ++ added
    /\ Forall (fun kv => exists item,
                   In item searchData
                   /\ fst kv = pathOfHref (i_href item)
                   /\ snd kv = nodeOfItem item (fst kv)
                   /\ Js.includes (fst kv) "index.html" = false) added.
Proof.
  revert m. induction searchData as [|item sd IH]; simpl; intros m.
  - exists []. rewrite app_nil_r. split; [reflexivity | constructor].
  - assert (Hweak : forall added : Js.jsmap Node,
               Forall (fun kv => exists it,
                           In it sd /\ fst kv = pathOfHref (i_href it)
                           /\ snd kv = nodeOfItem it (fst kv)
                           /\ Js.includes (fst kv) "index.html" = false) added ->
               Forall (fun kv => exists it,
                           (item = it \/ In it sd) /\ fst kv = pathOfHref (i_href it)
                           /\ snd kv = nodeOfItem it (fst kv)
                           /\ Js.includes (fst kv) "index.html" = false) added).
    { intros added H. eapply List.Forall_impl; [|exact H].
      intros kv [it [Hin H']]. exists it. tauto. }
    destruct (addItem_cases m item) as [[_ ->]|[[_ ->]|[_ [Ei ->]]]].
    + destruct (IH m) as [added [E H]]. exists added. split; [exact E | apply Hweak, H].
    + destruct (IH m) as [added [E H]]. exists added. split; [exact E | apply Hweak, H].
    + destruct (IH (m ++ [(pathOfHref (i_href item),
                           nodeOfItem item (pathOfHref (i_href item)))]))
        as [added [E H]].
      eexists (_ :: added). split; [rewrite E, <- app_assoc; reflexivity|].
      constructor; [|apply Hweak, H].
      exists item. simpl. tauto.
Qed.

Lemma nodesOfIndex_core_then_discovered (searchData : list SearchItem) :
  exists discovered, nodesOfIndex searchData = coreNodes ++ discovered.
Proof.
  destruct (fold_addItem_appends searchData coreNodeMap) as [added [E _]].
  exists (map snd added). unfold nodesOfIndex, buildNodeMap, Js.mapValues.
  rewrite E, map_app. reflexivity.
Qed.

(** X1. The node list always starts with the six core pages, unchanged and
    in their order, whatever the index lists (an entry for about.html with
    another title does not replace About); behind them come nodes built from
    index entries, each with the path, id, label and category computed from
    its entry. *)
Theorem core_pages_first_and_untouched (searchData : list SearchItem) :
  exists discovered,
    nodesOfIndex searchData = coreNodes ++ discovered
    /\ Forall (fun n => exists item,
                   In item searchData
                   /\ n_path n = pathOfHref (i_href item)
                   /\ n = nodeOfItem item (n_path n)) discovered.
Proof.
  destruct (fold_addItem_appends searchData coreNodeMap) as [added [E H]].
  exists (map snd added). unfold nodesOfIndex, buildNodeMap, Js.mapValues.
  rewrite E, map_app. split; [reflexivity|].
  apply List.Forall_forall. intros n Hn. apply in_map_iff in Hn as [kv [<- Hkv]].
  rewrite List.Forall_forall in H. destruct (H kv Hkv) as [item [Hin [Hp [Hs _]]]].
  exists item. rewrite Hs. simpl. rewrite <- Hp. tauto.
Qed.

Lemma includes_single (c : ascii) (s : string) :
  Js.includes s (String c EmptyString) = true <-> In c (Js.chars s).
Proof.
  induction s as [|a s IH]; simpl.
  - split; [discriminate | tauto].
  - rewrite orb_true_iff, IH. destruct (ascii_dec c a) as [->|Hne].
    + destruct s; simpl; tauto.
    + split; [intros [H|H]; [discriminate | tauto]|].
      intros [H|H]; [congruence | tauto].
Qed.

Lemma split_head_clean (sep : ascii) (s : string) :
  ~ In sep (Js.chars (hd EmptyString (Js.split sep s))).
Proof.
  induction s as [|c s IH]; simpl; [tauto|].
  destruct (Ascii.eqb_spec c sep) as [->|Hne]; simpl; [tauto|].
  destruct (Js.split sep s) as [|h t]; simpl in *; intuition.
Qed.

Lemma includes_suffix (p s : string) :
  Js.includes (String.append p s) s = true.
Proof.
  induction p as [|c p IH]; simpl.
  - destruct s as [|a s]; simpl; [reflexivity|].
    destruct (ascii_dec a a); [|congruence].
    assert (Hp : forall t, String.prefix t t = true).
    { induction t as [|b t IHt]; simpl; [reflexivity|].
      destruct (ascii_dec b b); [exact IHt | congruence]. }
    rewrite Hp. reflexivity.
  - rewrite IH. apply orb_true_r.
Qed.

Lemma loaded_paths_clean (searchData : list SearchItem) :
  Forall (fun n => Js.startsWith (n_path n) "/" = true
                   /\ Js.includes (n_path n) "index.html" = false)
         (nodesOfIndex searchData).
Proof.
  destruct (fold_addItem_appends searchData coreNodeMap) as [added [E H]].
  unfold nodesOfIndex, buildNodeMap, Js.mapValues. rewrite E, map_app.
  apply List.Forall_app. split.
  - repeat constructor.
  - apply List.Forall_forall. intros n Hn. apply in_map_iff in Hn as [kv [<- Hkv]].
    rewrite List.Forall_forall in H. destruct (H kv Hkv) as [item [_ [Hp [Hs Hi]]]].
    rewrite Hs. simpl n_path. rewrite Hp in *.
    split; [|exact Hi].
    unfold pathOfHref, Js.startsWith; simpl.
    destruct (ascii_dec "/" "/"); [|congruence].
    destruct (hd EmptyString (Js.split "#" (i_href item))); reflexivity.
Qed.

(** X2. Every node path begins with a slash, holds no fragment mark [#] and
    does not contain "index.html": fragments are cut off before a path is
    looked up, and index pages never become nodes. *)
Theorem node_paths_are_clean (searchData : list SearchItem) :
  Forall (fun n => Js.startsWith (n_path n) "/" = true
                   /\ Js.includes (n_path n) "#" = false
                   /\ Js.includes (n_path n) "index.html" = false)
         (nodesOfIndex searchData).
Proof.
  destruct (fold_addItem_appends searchData coreNodeMap) as [added [E H]].
  unfold nodesOfIndex, buildNodeMap, Js.mapValues. rewrite E, map_app.
  apply List.Forall_app. split.
  - repeat constructor.
  - apply List.Forall_forall. intros n Hn. apply in_map_iff in Hn as [kv [<- Hkv]].
    rewrite List.Forall_forall in H. destruct (H kv Hkv) as [item [_ [Hp [Hs Hi]]]].
    rewrite Hs. simpl n_path. rewrite Hp in *.
    split; [unfold pathOfHref, Js.startsWith; simpl;
            destruct (ascii_dec "/" "/"); [|congruence];
            destruct (hd EmptyString (Js.split "#" (i_href item))); reflexivity|].
    split; [|exact Hi].
    destruct (Js.includes (pathOfHref (i_href item)) "#") eqn:Ehash; [|reflexivity].
    exfalso. apply includes_single in Ehash. unfold pathOfHref in Ehash.
    simpl in Ehash. destruct Ehash as [Hc|Hc]; [discriminate|].
    exact (split_head_clean "#" (i_href item) Hc).
Qed.

Lemma coreNodeMap_keys : map fst coreNodeMap = map n_path coreNodes.
Proof. reflexivity. Qed.

(** X3. The paths of the node list are exactly the six core paths and the
    paths of the index entries that do not contain "index.html". Of several
    entries with one path (a page and its section anchors) the first one
    makes the node: its title becomes the label. *)
Theorem node_for_every_listed_page (searchData : list SearchItem) :
  (forall p, In p (map n_path (nodesOfIndex searchData))
             <-> In p (map n_path coreNodes)
                 \/ exists item, In item searchData
                                 /\ pathOfHref (i_href item) = p
                                 /\ Js.includes p "index.html" = false)
  /\ (forall before item after,
         searchData = before ++ item :: after ->
         ~ In (pathOfHref (i_href item)) (map n_path coreNodes) ->
         Js.includes (pathOfHref (i_href item)) "index.html" = false ->
         (forall it, In it before ->
                     pathOfHref (i_href it) <> pathOfHref (i_href item)) ->
         In (nodeOfItem item (pathOfHref (i_href item))) (nodesOfIndex searchData)).
Proof.
  split.
  - intros p.
    assert (Hk : map n_path (nodesOfIndex searchData)
                 = map fst (buildNodeMap searchData)).
    { destruct (buildNodeMap_inv searchData) as [_ Hv].
      unfold nodesOfIndex, Js.mapValues. rewrite map_map. apply map_ext_in.
      intros kv Hin. rewrite List.Forall_forall in Hv. symmetry. apply (Hv kv Hin). }
    rewrite Hk. unfold buildNodeMap. rewrite fold_addItem_keys, coreNodeMap_keys.
    reflexivity.
  - intros before item after -> Hcore Hidx Hfirst.
    unfold nodesOfIndex, buildNodeMap, Js.mapValues.
    rewrite fold_left_app. simpl.
    set (m1 := fold_left addItem before coreNodeMap).
    assert (Hfresh : Js.mapHas (pathOfHref (i_href item)) m1 = false).
    { destruct (Js.mapHas (pathOfHref (i_href item)) m1) eqn:E; [|reflexivity].
      exfalso. apply mapHas_In in E. unfold m1 in E.
      apply fold_addItem_keys in E as [E|[it [Hin [Hp _]]]].
      - apply Hcore. rewrite <- coreNodeMap_keys. exact E.
      - exact (Hfirst it Hin Hp). }
    destruct (addItem_cases m1 item) as [[Eh _]|[[Ei _]|[_ [_ ->]]]];
      [congruence | congruence |].
    destruct (fold_addItem_appends after
                (m1 ++ [(pathOfHref (i_href item),
                         nodeOfItem item (pathOfHref (i_href item)))]))
      as [added [-> _]].
    rewrite !map_app. simpl. apply in_or_app. left. apply in_or_app. right.
    left. reflexivity.
Qed.

(** A page listed with a section anchor first: the anchor entry names it. *)
Lemma node_for_every_listed_page_witness :
  In (mkNode "notes-a-" "Section" "/notes/a.html" "notes")
     (nodesOfIndex [mkItem "notes/a.html#sec" "Section"; mkItem "notes/a.html" "Page"]).
Proof.
  apply (proj2 (node_for_every_listed_page
                  [mkItem "notes/a.html#sec" "Section"; mkItem "notes/a.html" "Page"])
           [] (mkItem "notes/a.html#sec" "Section") [mkItem "notes/a.html" "Page"]).
  - reflexivity.
  - vm_compute. intuition discriminate.
  - reflexivity.
  - intros it [].
Defined.

(** ** Current page *)

Lemma find_the_only {A} (p : A -> bool) (l : list A) (a : A) :
  In a l -> p a = true -> (forall b, In b l -> p b = true -> b = a) ->
  List.find p l = Some a.
Proof.
  induction l as [|x l IH]; simpl; intros Hin Hp Hu; [destruct Hin|].
  destruct (p x) eqn:Ex.
  - f_equal. apply Hu; [left; reflexivity | exact Ex].
  - destruct Hin as [->|Hin]; [congruence|].
    apply IH; auto.
Qed.

Lemma append_length (a b : string) :
  String.length (String.append a b) = (String.length a + String.length b)%nat.
Proof. induction a as [|c a IH]; simpl; [reflexivity | rewrite IH; reflexivity]. Qed.

Lemma append_same_tail (a b s : string) :
  String.append a s = String.append b s -> a = b.
Proof.
  revert b. induction a as [|c a IH]; intros [|d b]; simpl; intros E.
  - reflexivity.
  - apply (f_equal String.length) in E. simpl in E.
    change (String.length s = S (String.length (String.append b s))) in E.
    rewrite append_length in E. lia.
  - apply (f_equal String.length) in E. simpl in E.
    change (S (String.length (String.append a s)) = String.length s) in E.
    rewrite append_length in E. lia.
  - injection E as -> E. f_equal. apply IH, E.
Qed.

Lemma loaded_path_resolves (searchData : list SearchItem) (n : Node) :
  In n (nodesOfIndex searchData) ->
  currentPageNode (nodesOfIndex searchData) (n_path n) = Some n
  /\ currentPageNode (nodesOfIndex searchData) (String.append (n_path n) "index.html")
     = Some n.
Proof.
  intros Hin.
  destruct (nodesOfIndex_inv searchData) as [Hnd _].
  pose proof (loaded_paths_clean searchData) as Hclean.
  rewrite List.Forall_forall in Hclean.
  assert (Hinj : forall m, In m (nodesOfIndex searchData) -> n_path m = n_path n -> m = n).
  { intros m Hm E. apply (NoDup_map_injective n_path (nodesOfIndex searchData)); auto. }
  assert (Hno : forall a b, In a (nodesOfIndex searchData) ->
                            n_path a <> String.append (n_path b) "index.html").
  { intros a b Ha E. destruct (Hclean a Ha) as [_ Hi].
    rewrite E, includes_suffix in Hi. discriminate. }
  assert (H1 : currentPageNode (nodesOfIndex searchData) (n_path n) = Some n).
  { unfold currentPageNode.
    rewrite (find_the_only _ _ n Hin); [reflexivity | |].
    - rewrite String.eqb_refl. reflexivity.
    - intros m Hm Hp. apply orb_true_iff in Hp as [Hp|Hp]; apply String.eqb_eq in Hp.
      + apply Hinj; auto.
      + exfalso. exact (Hno n m Hin Hp). }
  split; [exact H1|].
  unfold currentPageNode.
  rewrite (find_the_only _ _ n Hin); [reflexivity | |].
  - rewrite String.eqb_refl. apply orb_true_r.
  - intros m Hm Hp. apply orb_true_iff in Hp as [Hp|Hp]; apply String.eqb_eq in Hp.
    + exfalso. exact (Hno m n Hm (eq_sym Hp)).
    + apply Hinj; auto. symmetry. eapply append_same_tail, Hp.
Qed.

(** X4. On a loaded node list every node is found again from its own
    path, and also from its path followed by "index.html" (the address of a
    directory page); so the page opened at either address is identified
    by the node's id. *)
Theorem node_path_resolves_to_node (searchData : list SearchItem) (n : Node) :
  In n (nodesOfIndex searchData) ->
  currentPageNode (nodesOfIndex searchData) (n_path n) = Some n
  /\ currentPageNode (nodesOfIndex searchData) (String.append (n_path n) "index.html")
     = Some n
  /\ getCurrentPageId (nodesOfIndex searchData) (n_path n) = Some (n_id n)
  /\ getCurrentPageId (nodesOfIndex searchData) (String.append (n_path n) "index.html")
     = Some (n_id n).
Proof.
  intros Hin. destruct (loaded_path_resolves searchData n Hin) as [Hown Hindex].
  split; [exact Hown|]. split; [exact Hindex|].
  unfold getCurrentPageId. rewrite Hown, Hindex. split; reflexivity.
Qed.

Lemma node_path_resolves_to_node_witness :
  currentPageNode (nodesOfIndex climateIndex) "/notes/climate/sal.html"
  = Some (mkNode "notes-climate-sal-" "SAL" "/notes/climate/sal.html" "notes").
Proof.
  apply (node_path_resolves_to_node climateIndex
           (mkNode "notes-climate-sal-" "SAL" "/notes/climate/sal.html" "notes")).
  vm_compute. tauto.
Defined.

Definition homeNode : Node := mkNode "home" "Home" "/" "nav".

(** X5. On a loaded node list a pathname (they all begin with a slash) that
    is no node's path, with or without "index.html", is taken for the home
    page: the home node comes first and its path "/" is a prefix of every
    pathname. So the current page is always identified, and such a page is
    augmented with the links of the home node. *)
Theorem unlisted_page_resolves_to_home (searchData : list SearchItem)
    (pathname : string) :
  Js.startsWith pathname "/" = true ->
  (forall n, In n (nodesOfIndex searchData) ->
             pathname <> n_path n
             /\ pathname <> String.append (n_path n) "index.html") ->
  currentPageNode (nodesOfIndex searchData) pathname = Some homeNode
  /\ getCurrentPageId (nodesOfIndex searchData) pathname = Some "home"
  /\ forall links,
       injectBacklinksAndRelated (mkGraph (nodesOfIndex searchData) links) pathname true
       = Some (mkSections
                 (uniqueByPath (backlinksOf (mkGraph (nodesOfIndex searchData) links)
                                            "home" pathname))
                 (uniqueByPath (relatedOf (mkGraph (nodesOfIndex searchData) links)
                                          "home" pathname))).
Proof.
  intros Hslash Hnone.
  destruct (nodesOfIndex_core_then_discovered searchData) as [discovered E].
  assert (Hexact : List.find
                     (fun n => String.eqb pathname (n_path n)
                               || String.eqb pathname (String.append (n_path n) "index.html"))
                     (nodesOfIndex searchData) = None).
  { destruct (List.find _ (nodesOfIndex searchData)) as [m|] eqn:Ef; [|reflexivity].
    apply find_some in Ef as [Hm Hp]. destruct (Hnone m Hm) as [H1 H2].
    apply orb_true_iff in Hp as [Hp|Hp]; apply String.eqb_eq in Hp; contradiction. }
  assert (H1 : currentPageNode (nodesOfIndex searchData) pathname = Some homeNode).
  { unfold currentPageNode. rewrite Hexact. unfold orElse.
    rewrite E. simpl List.find. simpl n_path.
    replace (Js.endsWith "/" "/") with true by reflexivity.
    rewrite Hslash. simpl. rewrite orb_true_r. reflexivity. }
  assert (H2 : getCurrentPageId (nodesOfIndex searchData) pathname = Some "home").
  { unfold getCurrentPageId. rewrite H1. reflexivity. }
  split; [exact H1|]. split; [exact H2|].
  intros links. apply injectBacklinksAndRelated_found; simpl g_nodes.
  - exact H2.
  - reflexivity.
  - unfold truthy. destruct pathname; [discriminate | reflexivity].
  - apply String.eqb_neq. intros ->.
    destruct (Hnone homeNode) as [H _]; [rewrite E; left; reflexivity|].
    apply H. reflexivity.
  - apply String.eqb_neq. intros ->.
    destruct (Hnone homeNode) as [_ H]; [rewrite E; left; reflexivity|].
    apply H. reflexivity.
Qed.

(** A note that the index does not list. *)
Lemma unlisted_page_resolves_to_home_witness :
  getCurrentPageId (nodesOfIndex climateIndex) "/notes/draft.html" = Some "home".
Proof.
  apply (unlisted_page_resolves_to_home climateIndex "/notes/draft.html").
  - reflexivity.
  - intros n Hn. vm_compute in Hn.
    repeat (destruct Hn as [<-|Hn]; [split; discriminate|]). destruct Hn.
Defined.

(** ** Graph model builder: what the rules infer *)

Lemma linkToIndex_origin (members : list Node) (ix : option Node) (acc : list Link)
    (l : Link) :
  In l (linkToIndex members ix acc) ->
  In l acc
  \/ exists m i, In m members /\ ix = Some i
                 /\ l = mkLink (n_id m) (n_id i) /\ n_id m <> n_id i.
Proof.
  unfold linkToIndex. destruct ix as [i|]; [|tauto].
  apply (fold_origin _ (fun l => exists m i0, In m members /\ Some i = Some i0
                                   /\ l = mkLink (n_id m) (n_id i0)
                                   /\ n_id m <> n_id i0) members);
    [|apply incl_refl].
  intros acc' m l' Hm.
  destruct (String.eqb_spec (n_id m) (n_id i)) as [|Hne]; simpl; [tauto|].
  intros H. apply in_app_or in H as [H|[<-|[]]]; [tauto|].
  right. exists m, i. tauto.
Qed.

(** The test rule 3 makes on a pair of notes. *)
Definition seriesTest (note1 note2 : Node) : bool :=
  negb (String.eqb (n_id note1) (n_id note2))
  && (String.eqb (seriesName (n_path note1)) (seriesName (n_path note2))
      && (10 <? String.length (seriesName (n_path note1)))%nat).

Lemma seriesStep_test (note1 note2 : Node) (acc : list Link) :
  seriesStep note1 acc note2
  = if seriesTest note1 note2 then pushIfNew acc (n_id note1) (n_id note2) else acc.
Proof.
  unfold seriesStep, seriesTest.
  destruct (negb (String.eqb (n_id note1) (n_id note2))); reflexivity.
Qed.

Lemma seriesLinks_has (notes : list Node) (acc : list Link) (note1 note2 : Node) :
  In note1 notes -> In note2 notes -> seriesTest note1 note2 = true ->
  In (mkLink (n_id note1) (n_id note2)) (seriesLinks notes acc).
Proof.
  intros H1 H2 Ht. unfold seriesLinks.
  apply (fold_reaches
           (fun acc n1 => fold_left (seriesStep n1) notes acc)) with (x0 := note1).
  - intros acc' n1 l. apply fold_grows. intros a n l'. apply seriesStep_grows.
  - intros acc'. apply (fold_reaches (seriesStep note1)) with (x0 := note2).
    + intros a n l. apply seriesStep_grows.
    + intros a. rewrite seriesStep_test, Ht. apply pushIfNew_has.
    + exact H2.
  - exact H1.
Qed.

Lemma seriesLinks_origin (notes : list Node) (acc : list Link) (l : Link) :
  In l (seriesLinks notes acc) ->
  In l acc
  \/ exists note1 note2,
       In note1 notes /\ In note2 notes
       /\ l = mkLink (n_id note1) (n_id note2)
       /\ seriesTest note1 note2 = true.
Proof.
  unfold seriesLinks.
  apply (fold_origin _ (fun l => exists note1 note2,
                            In note1 notes /\ In note2 notes
                            /\ l = mkLink (n_id note1) (n_id note2)
                            /\ seriesTest note1 note2 = true) notes);
    [|apply incl_refl].
  intros acc1 note1 l1 Hn1.
  apply (fold_origin _ (fun l => exists note1 note2,
                            In note1 notes /\ In note2 notes
                            /\ l = mkLink (n_id note1) (n_id note2)
                            /\ seriesTest note1 note2 = true) notes);
    [|apply incl_refl].
  intros acc2 note2 l2 Hn2. rewrite seriesStep_test.
  destruct (seriesTest note1 note2) eqn:Ht; [|tauto].
  intros H. apply pushIfNew_origin in H as [H|H]; [tauto|].
  right. exists note1, note2. tauto.
Qed.

Lemma autoLinksOf_ends (nodes : list Node) (l : Link) :
  In l (autoLinksOf nodes) ->
  exists n1 n2,
    In n1 nodes /\ In n2 nodes
    /\ l = mkLink (n_id n1) (n_id n2)
    /\ n_id n1 <> n_id n2.
Proof.
  unfold autoLinksOf. intros H.
  assert (Hnotes : forall n, In n (notesNodesOf nodes) -> In n nodes).
  { intros n Hn. apply filter_In in Hn. tauto. }
  assert (Hwork : forall n, In n (workNodesOf nodes) -> In n nodes).
  { intros n Hn. apply filter_In in Hn. tauto. }
  assert (Hix : forall p i, List.find p nodes = Some i -> In i nodes).
  { intros p i Hf. apply find_some in Hf. tauto. }
  apply linkToIndex_origin in H as [H|[m [i [Hm [Hi [-> Hne]]]]]].
  - apply seriesLinks_origin in H as [H|[a [b [Ha [Hb [-> Ht]]]]]].
    + apply siblingLinks_origin in H as [H|[a [b [Ha [Hb [-> Ht]]]]]].
      * apply linkToIndex_origin in H as [[]|[m [i [Hm [Hi [-> Hne]]]]]].
        exists m, i. repeat split; auto. eapply Hix, Hi.
      * exists a, b. repeat split; auto. simpl.
        apply siblingTest_true in Ht. tauto.
    + exists a, b. repeat split; auto. simpl.
      unfold seriesTest in Ht. apply andb_true_iff in Ht as [Ht _].
      apply negb_true_iff, String.eqb_neq in Ht. exact Ht.
  - exists m, i. repeat split; auto. eapply Hix, Hi.
Qed.

(** X6. Every link the four rules infer joins two nodes of the list with
    different ids: no inferred link is a self-loop, and none has an end
    that is not the id of a node. *)
Theorem inferred_links_join_listed_nodes (nodes : list Node) (l : Link) :
  In l (autoLinksOf nodes) ->
  exists n1 n2,
    In n1 nodes /\ In n2 nodes
    /\ l = mkLink (n_id n1) (n_id n2)
    /\ l_source l <> l_target l.
Proof.
  intros Hl. destruct (autoLinksOf_ends nodes l Hl) as (n1 & n2 & H1 & H2 & -> & Hne).
  exists n1, n2. repeat split; assumption.
Qed.

Lemma inferred_links_join_listed_nodes_witness :
  exists n1 n2,
    In n1 (nodesOfIndex climateIndex) /\ In n2 (nodesOfIndex climateIndex)
    /\ mkLink "notes-climate-sal-" "notes" = mkLink (n_id n1) (n_id n2)
    /\ "notes-climate-sal-" <> "notes".
Proof.
  apply (inferred_links_join_listed_nodes (nodesOfIndex climateIndex)
           (mkLink "notes-climate-sal-" "notes")).
  vm_compute. tauto.
Defined.

Lemma mergeLinks_NoDup (autoLinks manual : list Link) :
  List.NoDup manual -> List.NoDup (mergeLinks manual autoLinks).
Proof.
  unfold mergeLinks. revert manual.
  induction autoLinks as [|a rest IH]; simpl; intros manual H; [exact H|].
  destruct (hasLink manual (l_source a) (l_target a)) eqn:E; [apply IH, H|].
  apply IH, NoDup_snoc; [exact H|].
  intros Hin. rewrite <- (link_eta a) in Hin. apply hasLink_In in Hin. congruence.
Qed.

(** X7. Merging never stores an ordered pair twice and never stores a
    self-loop, as long as the links it starts from have neither; the
    hand-written links have neither, so the edge list a load stores has
    neither. *)
Theorem stored_links_distinct_no_self_loop (nodes : list Node) (manual : list Link) :
  List.NoDup manual ->
  (forall l, In l manual -> l_source l <> l_target l) ->
  List.NoDup (buildLinks nodes manual)
  /\ (forall l, In l (buildLinks nodes manual) -> l_source l <> l_target l).
Proof.
  intros Hnd Hloop. split; [apply mergeLinks_NoDup, Hnd|].
  intros l Hl. apply mergeLinks_content in Hl as [Hl|Hl]; [apply Hloop, Hl|].
  destruct (autoLinksOf_ends nodes l Hl) as [n1 [n2 [_ [_ [-> H]]]]].
  exact H.
Qed.

Lemma manualLinks_distinct_no_self_loop :
  List.NoDup manualLinks /\ (forall l, In l manualLinks -> l_source l <> l_target l).
Proof.
  split.
  - unfold manualLinks. repeat (constructor; [simpl; intuition discriminate|]).
    constructor.
  - intros l Hl. unfold manualLinks in Hl. simpl in Hl.
    repeat (destruct Hl as [<-|Hl]; [discriminate|]). destruct Hl.
Qed.

(** The edge list stored after a load of the two climate notes. *)
Lemma stored_links_distinct_no_self_loop_witness :
  List.NoDup (g_links (p_graph (onIndex climateIndex initialPage)))
  /\ (forall l, In l (g_links (p_graph (onIndex climateIndex initialPage))) ->
                l_source l <> l_target l).
Proof.
  apply (stored_links_distinct_no_self_loop (nodesOfIndex climateIndex) manualLinks);
    apply manualLinks_distinct_no_self_loop.
Defined.

(** *** Ids of pages below a section *)

Lemma chars_str (l : list ascii) : Js.chars (Js.str l) = l.
Proof. apply list_ascii_of_string_of_list_ascii. Qed.

Lemma str_chars (s : string) : Js.str (Js.chars s) = s.
Proof. apply string_of_list_ascii_of_string. Qed.

Lemma str_app (a b : list ascii) :
  Js.str (a ++ b) = String.append (Js.str a) (Js.str b).
Proof. induction a as [|c a IH]; simpl; [reflexivity | rewrite IH; reflexivity]. Qed.

(** The two strippers, with their pattern matches spelled as tests. *)
Lemma stripTrailingHtml_test (s : string) :
  Js.stripTrailingHtml s
  = match rev (Js.chars s) with
    | c1 :: c2 :: c3 :: c4 :: r =>
        if Ascii.eqb c1 "l" && Ascii.eqb c2 "m" && Ascii.eqb c3 "t" && Ascii.eqb c4 "h"
        then Js.str (rev r) else s
    | _ => s
    end.
Proof.
  unfold Js.stripTrailingHtml.
  destruct (rev (Js.chars s)) as [|c1 [|c2 [|c3 [|c4 r]]]]; try reflexivity.
  - destruct c1 as [[] [] [] [] [] [] [] []]; reflexivity.
  - destruct c1 as [[] [] [] [] [] [] [] []]; try reflexivity.
    destruct c2 as [[] [] [] [] [] [] [] []]; reflexivity.
  - destruct c1 as [[] [] [] [] [] [] [] []]; try reflexivity.
    destruct c2 as [[] [] [] [] [] [] [] []]; try reflexivity.
    destruct c3 as [[] [] [] [] [] [] [] []]; reflexivity.
  - destruct c1 as [[] [] [] [] [] [] [] []]; try reflexivity.
    destruct c2 as [[] [] [] [] [] [] [] []]; try reflexivity.
    destruct c3 as [[] [] [] [] [] [] [] []]; try reflexivity.
    destruct c4 as [[] [] [] [] [] [] [] []]; reflexivity.
Qed.

Lemma stripLastDash_test (s : string) :
  match rev (Js.chars s) with
  | "-"%char :: r => Js.str (rev r)
  | _ => s
  end
  = match rev (Js.chars s) with
    | c :: r => if Ascii.eqb c "-" then Js.str (rev r) else s
    | [] => s
    end.
Proof.
  destruct (rev (Js.chars s)) as [|c r]; [reflexivity|].
  destruct c as [[] [] [] [] [] [] [] []]; reflexivity.
Qed.

Lemma stripEdgeDashes_dash (s : string) :
  Js.stripEdgeDashes (String "-" s)
  = match rev (Js.chars s) with
    | "-"%char :: r => Js.str (rev r)
    | _ => s
    end.
Proof. reflexivity. Qed.

(** Cutting characters off the end of [p ++ r] that all lie in [r] leaves
    [p] in front. *)
Lemma rev_app_cons {A} (p r : list A) (c : A) (t : list A) :
  rev (p ++ r) = c :: t -> r <> [] -> exists r', rev t = p ++ r' /\ r = r' ++ [c].
Proof.
  intros E Hr. destruct (exists_last Hr) as [r' [x ->]].
  rewrite app_assoc, rev_app_distr in E. simpl in E. injection E as -> <-.
  exists r'. rewrite rev_involutive. split; reflexivity.
Qed.

(** The id of a page below a section keeps the section name and a dash in
    front. *)
Lemma idOfPath_keeps_section (section : list ascii) (rest : list ascii) :
  rest <> [] ->
  (forall c, In c section -> c <> "/"%char /\ c <> "."%char) ->
  exists tail,
    idOfPath (Js.str ("/"%char :: section ++ "/"%char :: rest))
    = Js.str (section ++ "-"%char :: tail).
Proof.
  intros Hrest Hsec. unfold idOfPath.
  set (f := fun c : ascii => if Ascii.eqb c "/" || Ascii.eqb c "." then "-"%char else c).
  assert (Hmap : map f section = section).
  { rewrite <- (map_id section) at 2. apply map_ext_in. intros c Hc. unfold f.
    destruct (Hsec c Hc) as [H1 H2].
    apply Ascii.eqb_neq in H1, H2. rewrite H1, H2. reflexivity. }
  assert (E1 : Js.slashDotToDash (Js.str ("/"%char :: section ++ "/"%char :: rest))
               = Js.str ("-"%char :: section ++ "-"%char :: map f rest)).
  { unfold Js.slashDotToDash. fold f. rewrite chars_str. simpl.
    rewrite map_app. simpl. rewrite Hmap. reflexivity. }
  rewrite E1.
  assert (E2 : exists tail2,
             Js.stripEdgeDashes (Js.str ("-"%char :: section ++ "-"%char :: map f rest))
             = Js.str (section ++ "-"%char :: tail2)).
  { change (Js.str ("-"%char :: section ++ "-"%char :: map f rest))
      with (String "-" (Js.str (section ++ "-"%char :: map f rest))).
    rewrite stripEdgeDashes_dash, stripLastDash_test, chars_str.
    destruct (rev (section ++ "-"%char :: map f rest)) as [|c t] eqn:Er.
    - exists (map f rest). reflexivity.
    - destruct (Ascii.eqb c "-"); [|exists (map f rest); reflexivity].
      change (section ++ "-"%char :: map f rest)
        with (section ++ ["-"%char] ++ map f rest) in Er.
      rewrite app_assoc in Er.
      apply rev_app_cons in Er as [r' [Et _]].
      + exists r'. rewrite Et, <- app_assoc. reflexivity.
      + destruct rest; [congruence | discriminate]. }
  destruct E2 as [tail2 ->].
  rewrite stripTrailingHtml_test, chars_str.
  destruct (rev (section ++ "-"%char :: tail2)) as [|c1 [|c2 [|c3 [|c4 r]]]] eqn:Er;
    try (exists tail2; reflexivity).
  destruct (Ascii.eqb c1 "l" && Ascii.eqb c2 "m" && Ascii.eqb c3 "t" && Ascii.eqb c4 "h")
    eqn:Eh; [|exists tail2; reflexivity].
  apply andb_true_iff in Eh as [Eh E4]. apply andb_true_iff in Eh as [Eh E3].
  apply andb_true_iff in Eh as [E1' E2'].
  apply Ascii.eqb_eq in E1', E2', E3, E4. subst c1 c2 c3 c4.
  apply (f_equal (@rev ascii)) in Er. rewrite rev_involutive in Er. simpl in Er.
  (* section ++ "-" :: tail2 = rev r ++ "html" *)
  assert (Hlen : (4 <= length tail2)%nat).
  { destruct tail2 as [|a [|b [|c [|d tail2]]]]; simpl; try lia; exfalso.
    - apply (f_equal (@rev ascii)) in Er. rewrite !rev_app_distr in Er. simpl in Er.
      discriminate.
    - apply (f_equal (@rev ascii)) in Er. rewrite !rev_app_distr in Er. simpl in Er.
      discriminate.
    - apply (f_equal (@rev ascii)) in Er. rewrite !rev_app_distr in Er. simpl in Er.
      discriminate.
    - apply (f_equal (@rev ascii)) in Er. rewrite !rev_app_distr in Er. simpl in Er.
      discriminate. }
  exists (firstn (length tail2 - 4) tail2). f_equal.
  assert (Ecut : forall (x y : list ascii) (z w : list ascii),
             x ++ z = y ++ w -> length z = length w -> x = y).
  { intros x y z w E Hl.
    assert (length x = length y).
    { apply (f_equal (@length ascii)) in E. rewrite !length_app in E. lia. }
    apply (f_equal (firstn (length x))) in E.
    rewrite firstn_app, firstn_all, Nat.sub_diag in E. simpl in E.
    rewrite app_nil_r in E. rewrite E, H, firstn_app, firstn_all, Nat.sub_diag.
    simpl. rewrite app_nil_r. reflexivity. }
  symmetry.
  apply (Ecut _ _ (skipn (length tail2 - 4) tail2) ["h"; "t"; "m"; "l"]%char).
  - rewrite <- app_assoc. simpl. rewrite firstn_skipn.
    rewrite Er. repeat rewrite <- app_assoc. reflexivity.
  - rewrite length_skipn. simpl. lia.
Qed.

Lemma categoryOfPath_work (path : string) :
  categoryOfPath path = "work" -> Js.startsWith path "/work/" = true.
Proof.
  unfold categoryOfPath.
  destruct (Js.startsWith path "/notes/"); [discriminate|].
  destruct (Js.startsWith path "/work/"); [reflexivity|].
  destruct (Js.startsWith path "/reading/"); discriminate.
Qed.

(** A loaded node outside the core pages carries what its path gives. *)
Lemma loaded_not_core (searchData : list SearchItem) (n : Node) :
  In n (nodesOfIndex searchData) -> n_cat n <> "nav" ->
  n_id n = idOfPath (n_path n) /\ n_cat n = categoryOfPath (n_path n).
Proof.
  intros Hin Hcat. destruct (nodesOfIndex_inv searchData) as [_ Hl].
  rewrite List.Forall_forall in Hl. destruct (Hl n Hin) as [_ [Hcore|H]]; [|exact H].
  exfalso. apply Hcat. simpl in Hcore.
  repeat (destruct Hcore as [<-|Hcore]; [reflexivity|]). destruct Hcore.
Qed.

Lemma core_path_is_core (searchData : list SearchItem) (n c : Node) :
  In n (nodesOfIndex searchData) -> In c coreNodes -> n_path n = n_path c -> n = c.
Proof.
  intros Hn Hc E. destruct (nodesOfIndex_inv searchData) as [Hnd _].
  apply (NoDup_map_injective n_path (nodesOfIndex searchData)); auto.
  destruct (nodesOfIndex_core_then_discovered searchData) as [d ->].
  apply in_or_app. left. exact Hc.
Qed.

Lemma loaded_note_id (searchData : list SearchItem) (n : Node) :
  In n (nodesOfIndex searchData) -> n_cat n = "notes" ->
  exists tail, n_id n = Js.str (Js.chars "notes-" ++ tail).
Proof.
  intros Hin Hcat.
  destruct (loaded_not_core searchData n Hin) as [Hid Hc]; [congruence|].
  assert (Hpre : Js.startsWith (n_path n) "/notes/" = true)
    by (apply categoryOfPath_notes; congruence).
  assert (Hnot : n_path n <> "/notes/").
  { intros E.
    assert (n = mkNode "notes" "Notes" "/notes/" "nav").
    { apply (core_path_is_core searchData); [exact Hin | simpl; tauto | exact E]. }
    subst n. discriminate. }
  unfold Js.startsWith in Hpre.
  apply prefix_cons in Hpre as [s1 [E1 Hpre]]. apply prefix_cons in Hpre as [s2 [-> Hpre]].
  apply prefix_cons in Hpre as [s3 [-> Hpre]]. apply prefix_cons in Hpre as [s4 [-> Hpre]].
  apply prefix_cons in Hpre as [s5 [-> Hpre]]. apply prefix_cons in Hpre as [s6 [-> Hpre]].
  apply prefix_cons in Hpre as [rest [-> _]].
  assert (Hrest : Js.chars rest <> []).
  { destruct rest; [rewrite E1 in Hnot; congruence | discriminate]. }
  destruct (idOfPath_keeps_section (Js.chars "notes") (Js.chars rest) Hrest)
    as [tail Et].
  { intros c Hc'. simpl in Hc'.
    repeat (destruct Hc' as [<-|Hc']; [split; discriminate|]). destruct Hc'. }
  exists tail. rewrite Hid, E1.
  simpl in Et. rewrite str_chars in Et. exact Et.
Qed.

Lemma loaded_work_id (searchData : list SearchItem) (n : Node) :
  In n (nodesOfIndex searchData) -> n_cat n = "work" ->
  exists tail, n_id n = Js.str (Js.chars "work-" ++ tail).
Proof.
  intros Hin Hcat.
  destruct (loaded_not_core searchData n Hin) as [Hid Hc]; [congruence|].
  assert (Hpre : Js.startsWith (n_path n) "/work/" = true)
    by (apply categoryOfPath_work; congruence).
  assert (Hnot : n_path n <> "/work/").
  { intros E.
    assert (n = mkNode "work" "Work" "/work/" "nav").
    { apply (core_path_is_core searchData); [exact Hin | simpl; tauto | exact E]. }
    subst n. discriminate. }
  unfold Js.startsWith in Hpre.
  apply prefix_cons in Hpre as [s1 [E1 Hpre]]. apply prefix_cons in Hpre as [s2 [-> Hpre]].
  apply prefix_cons in Hpre as [s3 [-> Hpre]]. apply prefix_cons in Hpre as [s4 [-> Hpre]].
  apply prefix_cons in Hpre as [s5 [-> Hpre]].
  apply prefix_cons in Hpre as [rest [-> _]].
  assert (Hrest : Js.chars rest <> []).
  { destruct rest; [rewrite E1 in Hnot; congruence | discriminate]. }
  destruct (idOfPath_keeps_section (Js.chars "work") (Js.chars rest) Hrest)
    as [tail Et].
  { intros c Hc'. simpl in Hc'.
    repeat (destruct Hc' as [<-|Hc']; [split; discriminate|]). destruct Hc'. }
  exists tail. rewrite Hid, E1.
  simpl in Et. rewrite str_chars in Et. exact Et.
Qed.

Lemma linkToIndex_has (members : list Node) (ix m : Node) (acc : list Link) :
  In m members -> n_id m <> n_id ix ->
  In (mkLink (n_id m) (n_id ix)) (linkToIndex members (Some ix) acc).
Proof.
  intros Hm Hne. unfold linkToIndex.
  apply (fold_reaches
           (fun acc m => if negb (String.eqb (n_id m) (n_id ix))
                         then acc ++ [mkLink (n_id m) (n_id ix)] else acc))
    with (x0 := m).
  - intros acc' x l H. destruct (negb (String.eqb (n_id x) (n_id ix))); [|exact H].
    apply in_or_app. left. exact H.
  - intros acc'. apply String.eqb_neq in Hne. rewrite Hne. simpl.
    apply in_or_app. right. left. reflexivity.
  - exact Hm.
Qed.

(** X8. After a load, every node of category notes has an inferred link to
    the Notes page (id "notes") and every node of category work has one to
    the Work page (id "work"): the two core pages are always found as index
    nodes, and no computed id can equal theirs. *)
Theorem section_pages_link_to_their_index (searchData : list SearchItem) (n : Node) :
  In n (nodesOfIndex searchData) ->
  (n_cat n = "notes"
   -> In (mkLink (n_id n) "notes") (autoLinksOf (nodesOfIndex searchData)))
  /\ (n_cat n = "work"
      -> In (mkLink (n_id n) "work") (autoLinksOf (nodesOfIndex searchData))).
Proof.
  intros Hin.
  destruct (nodesOfIndex_core_then_discovered searchData) as [d E].
  assert (Hni : notesIndexNodeOf (nodesOfIndex searchData)
                = Some (mkNode "notes" "Notes" "/notes/" "nav"))
    by (rewrite E; reflexivity).
  assert (Hwi : workIndexNodeOf (nodesOfIndex searchData)
                = Some (mkNode "work" "Work" "/work/" "nav"))
    by (rewrite E; reflexivity).
  split; intros Hcat.
  - destruct (loaded_note_id searchData n Hin Hcat) as [tail Hid].
    unfold autoLinksOf. rewrite Hni.
    apply linkToIndex_grows, seriesLinks_grows, siblingLinks_grows.
    apply (linkToIndex_has _ (mkNode "notes" "Notes" "/notes/" "nav") n).
    + apply filter_In. split; [exact Hin | rewrite Hcat; reflexivity].
    + rewrite Hid. simpl. discriminate.
  - destruct (loaded_work_id searchData n Hin Hcat) as [tail Hid].
    unfold autoLinksOf. rewrite Hwi.
    apply (linkToIndex_has _ (mkNode "work" "Work" "/work/" "nav") n).
    + apply filter_In. split; [exact Hin | rewrite Hcat; reflexivity].
    + rewrite Hid. simpl. discriminate.
Qed.

Lemma section_pages_link_to_their_index_witness :
  In (mkLink "work-heat-a-" "work") (autoLinksOf (nodesOfIndex workIndex)).
Proof.
  apply (proj2 (section_pages_link_to_their_index workIndex
                  (mkNode "work-heat-a-" "A" "/work/heat/a.html" "work")
                  ltac:(vm_compute; tauto))).
  reflexivity.
Defined.

(** X9. Two notes with different ids whose paths, once a "-N" at the end,
    a "part-N" and a "series-N" are taken out, are equal and longer than 10
    characters are linked in both directions (the notes of a numbered
    series); and the series rule adds no other link. *)
Theorem series_notes_linked_both_ways (nodes : list Node) :
  (forall note1 note2,
      In note1 nodes -> In note2 nodes ->
      n_cat note1 = "notes" -> n_cat note2 = "notes" ->
      n_id note1 <> n_id note2 ->
      seriesName (n_path note1) = seriesName (n_path note2) ->
      (10 < String.length (seriesName (n_path note1)))%nat ->
      In (mkLink (n_id note1) (n_id note2)) (autoLinksOf nodes)
      /\ In (mkLink (n_id note2) (n_id note1)) (autoLinksOf nodes))
  /\ (forall autoLinks l,
        In l (seriesLinks (notesNodesOf nodes) autoLinks) ->
        In l autoLinks
        \/ exists note1 note2,
             In note1 nodes /\ In note2 nodes
             /\ n_cat note1 = "notes" /\ n_cat note2 = "notes"
             /\ l = mkLink (n_id note1) (n_id note2)
             /\ n_id note1 <> n_id note2
             /\ seriesName (n_path note1) = seriesName (n_path note2)
             /\ (10 < String.length (seriesName (n_path note1)))%nat).
Proof.
  assert (Htest : forall a b, seriesTest a b = true
                              <-> n_id a <> n_id b
                                  /\ seriesName (n_path a) = seriesName (n_path b)
                                  /\ (10 < String.length (seriesName (n_path a)))%nat).
  { intros a b. unfold seriesTest.
    rewrite !andb_true_iff, negb_true_iff, String.eqb_neq, String.eqb_eq, Nat.ltb_lt.
    tauto. }
  split.
  - intros note1 note2 H1 H2 C1 C2 Hid Hname Hlen.
    assert (N1 : In note1 (notesNodesOf nodes)).
    { apply filter_In. split; [exact H1 | apply String.eqb_eq, C1]. }
    assert (N2 : In note2 (notesNodesOf nodes)).
    { apply filter_In. split; [exact H2 | apply String.eqb_eq, C2]. }
    unfold autoLinksOf. split; apply linkToIndex_grows, seriesLinks_has; try assumption.
    + apply Htest. tauto.
    + apply Htest. rewrite <- Hname. repeat split; auto.
  - intros autoLinks l Hl. apply seriesLinks_origin in Hl as [Hl|Hl]; [tauto|].
    right. destruct Hl as [note1 [note2 [N1 [N2 [-> Ht]]]]].
    apply Htest in Ht. apply filter_In in N1 as [N1 C1].
    apply filter_In in N2 as [N2 C2]. apply String.eqb_eq in C1, C2.
    exists note1, note2. tauto.
Qed.

Definition riskSeriesIndex : list SearchItem :=
  [ mkItem "notes/risk-series-1.html" "Risk 1";
    mkItem "notes/risk-series-2.html" "Risk 2" ].

Lemma series_notes_linked_both_ways_witness :
  In (mkLink "notes-risk-series-1-" "notes-risk-series-2-")
     (autoLinksOf (nodesOfIndex riskSeriesIndex))
  /\ In (mkLink "notes-risk-series-2-" "notes-risk-series-1-")
        (autoLinksOf (nodesOfIndex riskSeriesIndex)).
Proof.
  apply (proj1 (series_notes_linked_both_ways (nodesOfIndex riskSeriesIndex))
           (mkNode "notes-risk-series-1-" "Risk 1" "/notes/risk-series-1.html" "notes")
           (mkNode "notes-risk-series-2-" "Risk 2" "/notes/risk-series-2.html" "notes")).
  - vm_compute. tauto.
  - vm_compute. tauto.
  - reflexivity.
  - reflexivity.
  - discriminate.
  - vm_compute. reflexivity.
  - vm_compute. lia.
Defined.

(** *** Parent directories *)

Lemma split_app_sep (sep : ascii) (a b : string) :
  Js.split sep (String.append a (String sep b)) = Js.split sep a ++ Js.split sep b.
Proof.
  induction a as [|c a IH]; simpl.
  - rewrite Ascii.eqb_refl. reflexivity.
  - destruct (Ascii.eqb c sep); [rewrite IH; reflexivity|].
    rewrite IH. pose proof (split_not_nil sep a) as Hne.
    destruct (Js.split sep a) as [|h t]; [congruence | reflexivity].
Qed.

Lemma split_no_sep (sep : ascii) (s : string) :
  ~ In sep (Js.chars s) -> Js.split sep s = [s].
Proof.
  induction s as [|c s IH]; simpl; intros H; [reflexivity|].
  destruct (Ascii.eqb_spec c sep) as [->|_]; [tauto|].
  rewrite IH; [reflexivity | tauto].
Qed.

Lemma join_split (sep : ascii) (s : string) :
  Js.join (String sep EmptyString) (Js.split sep s) = s.
Proof.
  unfold Js.join. induction s as [|c s IH]; simpl; [reflexivity|].
  pose proof (split_not_nil sep s) as Hne.
  destruct (Ascii.eqb_spec c sep) as [->|_].
  - destruct (Js.split sep s) as [|h t]; [congruence|].
    simpl in *. rewrite IH. reflexivity.
  - destruct (Js.split sep s) as [|h [|h' t]]; [congruence | |];
      simpl in *; rewrite <- IH; reflexivity.
Qed.

(** X10. The directory the sibling rule compares is what stands before the
    last slash of a path: for a file name without a slash,
    [parentDir (dir + "/" + file) = dir]; a path without any slash has the
    empty directory. Two notes are thus siblings exactly when their paths
    agree up to the last slash. *)
Theorem parentDir_is_before_last_slash (dir file : string) :
  ~ In "/"%char (Js.chars file) ->
  parentDir (String.append dir (String "/" file)) = dir
  /\ parentDir file = EmptyString.
Proof.
  intros Hfile. unfold parentDir, Js.dropLast. split.
  - rewrite split_app_sep, (split_no_sep _ _ Hfile), removelast_last.
    apply join_split.
  - rewrite (split_no_sep _ _ Hfile). reflexivity.
Qed.

Lemma parentDir_is_before_last_slash_witness :
  parentDir "/notes/climate/sal.html" = "/notes/climate"
  /\ parentDir "sal.html" = EmptyString.
Proof.
  apply (parentDir_is_before_last_slash "/notes/climate" "sal.html").
  vm_compute. intuition discriminate.
Defined.

(** ** Mini view *)

Lemma copied_links (links : list Link) :
  map (fun d => mkLink (l_source d) (l_target d)) links = links.
Proof.
  rewrite <- (map_id links) at 2. apply map_ext. intros l. apply link_eta.
Qed.

Lemma linksAmong_In (nodes : list LNode) (links : list Link) (l : Link) :
  In l (linksAmong nodes links)
  <-> In l links
      /\ (exists n, In n nodes /\ ln_id n = l_source l)
      /\ (exists n, In n nodes /\ ln_id n = l_target l).
Proof.
  split.
  - intros H. split; [|apply (linksAmong_ends nodes links l H)].
    unfold linksAmong in H. apply filter_In in H as [H _].
    rewrite copied_links in H. exact H.
  - intros [Hl [[a [Ha Hsa]] [b [Hb Htb]]]]. unfold linksAmong.
    apply filter_In. rewrite copied_links. split; [exact Hl|].
    rewrite <- Hsa, <- Htb, !hasNodeWithId_In by assumption. reflexivity.
Qed.

(** X11. The mini view shows the placeholder exactly while the node list is
    empty. Otherwise it draws every node of the graph, in order, and of the
    links exactly those whose source and target are both ids of nodes:
    links to pages that are not in the graph are left out. *)
Theorem mini_view_draws_whole_graph `{ForceSimulation}
    (gd : GraphData) (pathname : string) (clientWidth clientHeight : Z) :
  (g_nodes gd = [] -> renderMiniGraph gd pathname clientWidth clientHeight = None)
  /\ (g_nodes gd <> [] ->
      exists r,
        renderMiniGraph gd pathname clientWidth clientHeight = Some r
        /\ map ln_node (r_nodes r) = g_nodes gd
        /\ forall l, In l (r_links r)
                     <-> In l (g_links gd)
                         /\ (exists n, In n (g_nodes gd) /\ n_id n = l_source l)
                         /\ (exists n, In n (g_nodes gd) /\ n_id n = l_target l)).
Proof.
  split.
  - intros E. unfold renderMiniGraph. rewrite E. reflexivity.
  - intros Hne. rewrite (renderMiniGraph_draws _ _ _ _ Hne).
    eexists. split; [reflexivity|]. simpl r_nodes. simpl r_links. split.
    + rewrite staticLayout_nodes, map_map. simpl. apply map_id.
    + intros l. rewrite linksAmong_In.
      assert (Hex : forall i,
                 (exists n, In n (map (fun d => mkLNode d None None None None None)
                                      (g_nodes gd)) /\ ln_id n = i)
                 <-> (exists n, In n (g_nodes gd) /\ n_id n = i)).
      { intros i. split.
        - intros [n [Hn E]]. apply in_map_iff in Hn as [d [<- Hd]]. exists d. tauto.
        - intros [d [Hd E]]. exists (mkLNode d None None None None None).
          split; [|exact E].
          apply (in_map (fun d => mkLNode d None None None None None)), Hd. }
      rewrite !Hex. reflexivity.
Qed.

(** The degraded graph: of the hand-written links only the four from home
    to core pages have both ends. *)
Lemma mini_view_draws_whole_graph_witness :
  exists r,
    @renderMiniGraph gridSimulation coreGraph "/" 0 0 = Some r
    /\ map ln_node (r_nodes r) = coreNodes
    /\ r_links r = [mkLink "home" "notes"; mkLink "home" "work";
                    mkLink "home" "reading"; mkLink "home" "about"].
Proof.
  destruct (proj2 (@mini_view_draws_whole_graph gridSimulation coreGraph "/" 0 0))
    as [r [Hr [Hn _]]]; [discriminate|].
  exists r. split; [exact Hr|]. split; [exact Hn|].
  vm_compute in Hr. injection Hr as <-. reflexivity.
Defined.

(** ** Full view: search, focus mode, degrees *)

Lemma filter_swap {A} (p q : A -> bool) (l : list A) :
  List.filter p (List.filter q l) = List.filter q (List.filter p l).
Proof.
  induction l as [|a l IH]; simpl; [reflexivity|].
  destruct (q a) eqn:Eq, (p a) eqn:Ep; simpl; rewrite ?Eq, ?Ep, IH; reflexivity.
Qed.

Lemma toLowerCase_empty (s : string) :
  Js.toLowerCase s = EmptyString <-> s = EmptyString.
Proof.
  unfold Js.toLowerCase. destruct s; simpl; split; try reflexivity; discriminate.
Qed.

Lemma truthy_toLowerCase (a b : string) :
  Js.toLowerCase a = Js.toLowerCase b -> truthy a = truthy b.
Proof.
  intros E. unfold truthy.
  destruct (String.eqb_spec a EmptyString) as [->|Ha],
           (String.eqb_spec b EmptyString) as [->|Hb]; try reflexivity; exfalso.
  - apply Hb, toLowerCase_empty. rewrite <- E. reflexivity.
  - apply Ha, toLowerCase_empty. rewrite E. reflexivity.
Qed.

Lemma visibleNodes_query (gd : GraphData) (currentId : option string)
    (active : gset string) (focus : bool) (query : string) :
  visibleNodes gd currentId active query focus
  = (if truthy query
     then List.filter (matchesQuery (Js.toLowerCase query))
                      (visibleNodes gd currentId active EmptyString focus)
     else visibleNodes gd currentId active EmptyString focus).
Proof.
  unfold visibleNodes. simpl truthy.
  destruct (truthy query); [|reflexivity].
  destruct (focus && truthyId currentId); [|reflexivity].
  apply filter_swap.
Qed.

(** X12. The search box only narrows what the category and focus filters
    select: with a query the visible nodes are those of the empty query
    whose label, path or id contains the lower-cased query, and with the
    empty query nothing is filtered. Two queries that differ only in letter
    case select the same nodes. *)
Theorem search_narrows_and_ignores_case (gd : GraphData) (currentId : option string)
    (active : gset string) (focus : bool) (query : string) :
  visibleNodes gd currentId active query focus
  = (if truthy query
     then List.filter (matchesQuery (Js.toLowerCase query))
                      (visibleNodes gd currentId active EmptyString focus)
     else visibleNodes gd currentId active EmptyString focus)
  /\ forall query',
       Js.toLowerCase query' = Js.toLowerCase query ->
       visibleNodes gd currentId active query' focus
       = visibleNodes gd currentId active query focus.
Proof.
  split; [apply visibleNodes_query|].
  intros query' E. unfold visibleNodes.
  rewrite (truthy_toLowerCase _ _ E), E. reflexivity.
Qed.

Lemma initGraphView_filters (gd : GraphData) (pathname : string) (v : ViewState) :
  g_nodes gd <> [] ->
  initGraphView gd pathname v
  = mkView (activeCategories v) (searchQuery v) (focusMode v) (focusedNodeIndex v)
           (visibleNodes gd (getCurrentPageId (g_nodes gd) pathname)
                         (activeCategories v) (searchQuery v) (focusMode v))
           (modalActive v).
Proof.
  unfold initGraphView. destruct (g_nodes gd); [congruence | reflexivity].
Qed.

Lemma linksAmong_nil (links : list Link) : linksAmong [] links = [].
Proof.
  unfold linksAmong. induction links as [|l links IH]; simpl; [reflexivity | exact IH].
Qed.

(** X13. When a non-empty query matches no node of the current selection,
    the full view draws no node and no link. *)
Theorem search_without_match_draws_nothing `{ForceSimulation}
    (gd : GraphData) (pathname : string) (clientWidth clientHeight : Z)
    (v : ViewState) :
  g_nodes gd <> [] ->
  searchQuery v <> EmptyString ->
  (forall n,
      In n (visibleNodes gd (getCurrentPageId (g_nodes gd) pathname)
                         (activeCategories v) EmptyString (focusMode v)) ->
      matchesQuery (Js.toLowerCase (searchQuery v)) n = false) ->
  initGraph gd pathname clientWidth clientHeight v = Some (mkRender [] [])
  /\ keyboardFocusableNodes (initGraphView gd pathname v) = [].
Proof.
  intros Hne Hq Hnone.
  assert (Hvis : visibleNodes gd (getCurrentPageId (g_nodes gd) pathname)
                              (activeCategories v) (searchQuery v) (focusMode v) = []).
  { rewrite (visibleNodes_query _ _ _ _ _).
    apply String.eqb_neq in Hq. unfold truthy. rewrite Hq. simpl.
    destruct (List.filter _ _) as [|n l] eqn:E; [reflexivity|].
    assert (Hin : In n (n :: l)) by (left; reflexivity).
    rewrite <- E in Hin. apply filter_In in Hin as [Hin Hm].
    rewrite (Hnone n Hin) in Hm. discriminate. }
  split.
  - rewrite (initGraph_draws _ _ _ _ _ Hne). cbv zeta. rewrite Hvis.
    unfold visibleLinks. rewrite linksAmong_nil. reflexivity.
  - rewrite (initGraphView_filters _ _ _ Hne). exact Hvis.
Qed.

Lemma search_without_match_draws_nothing_witness :
  @initGraph gridSimulation coreGraph "/" 800 600
     (mkView allButtons "zebra" false (-1) [] true) = Some (mkRender [] []).
Proof.
  apply (@search_without_match_draws_nothing gridSimulation coreGraph "/" 800 600
           (mkView allButtons "zebra" false (-1) [] true)).
  - discriminate.
  - discriminate.
  - intros n Hn. vm_compute in Hn.
    repeat (destruct Hn as [<-|Hn]; [vm_compute; reflexivity|]). destruct Hn.
Defined.

(** The ids [connectedTo] collects. *)
Lemma connectedTo_spec (links : list Link) (currentId : option string) (i : string) :
  i ∈ connectedTo links currentId
  <-> exists l, In l links
                /\ (isId currentId (l_source l) = true
                    \/ isId currentId (l_target l) = true)
                /\ (i = l_source l \/ i = l_target l).
Proof.
  unfold connectedTo.
  assert (Hgen : forall s : gset string,
             i ∈ fold_left
                   (fun s l =>
                      if isId currentId (l_source l) || isId currentId (l_target l)
                      then s ∪ {[l_source l]} ∪ {[l_target l]} else s) links s
             <-> i ∈ s
                 \/ exists l, In l links
                              /\ (isId currentId (l_source l) = true
                                  \/ isId currentId (l_target l) = true)
                              /\ (i = l_source l \/ i = l_target l)).
  { induction links as [|l links IH]; simpl; intros s.
    - split; [tauto|]. intros [H|[l [[] _]]]. exact H.
    - rewrite IH.
      destruct (isId currentId (l_source l) || isId currentId (l_target l)) eqn:E.
      + apply orb_true_iff in E. split.
        * intros [Hi|[l' [Hl' H]]]; [|right; exists l'; tauto].
          apply elem_of_union in Hi as [Hi|Hi];
            [apply elem_of_union in Hi as [Hi|Hi]|].
          -- tauto.
          -- apply elem_of_singleton in Hi. right. exists l. tauto.
          -- apply elem_of_singleton in Hi. right. exists l. tauto.
        * intros [Hi|[l' [[<-|Hl'] [Hc Hends]]]].
          -- left. do 2 (apply elem_of_union; left). exact Hi.
          -- left. destruct Hends as [->| ->].
             ++ apply elem_of_union. left. apply elem_of_union. right.
                apply elem_of_singleton. reflexivity.
             ++ apply elem_of_union. right. apply elem_of_singleton. reflexivity.
          -- right. exists l'. tauto.
      + apply orb_false_iff in E as [E1 E2]. split.
        * intros [Hi|[l' [Hl' H]]]; [tauto | right; exists l'; tauto].
        * intros [Hi|[l' [[<-|Hl'] [Hc Hends]]]];
            [tauto | rewrite E1, E2 in Hc; intuition discriminate
             | right; exists l'; tauto]. }
  rewrite Hgen. split; [|tauto]. intros [Hi|H]; [|exact H].
  apply not_elem_of_empty in Hi. destruct Hi.
Qed.

(** X14. In focus mode on an identified page [cur], the visible nodes are
    those of the selection without focus mode that are an end of a link
    touching [cur]: the neighbours of the page by one link in either
    direction, and the page itself if it has a link at all. *)
Theorem focus_mode_keeps_link_ends (gd : GraphData) (cur : string)
    (active : gset string) (query : string) (n : LNode) :
  cur <> EmptyString ->
  (In n (visibleNodes gd (Some cur) active query true)
   <-> In n (visibleNodes gd (Some cur) active query false)
       /\ exists l, In l (g_links gd)
                    /\ (l_source l = cur \/ l_target l = cur)
                    /\ (ln_id n = l_source l \/ ln_id n = l_target l)).
Proof.
  intros Hcur. apply String.eqb_neq in Hcur.
  unfold visibleNodes, connectedNodesOf. simpl truthyId. unfold truthy.
  rewrite Hcur. simpl negb. cbv iota. simpl andb.
  rewrite filter_In. apply and_iff_compat_l.
  rewrite has_true, connectedTo_spec. simpl isId.
  split; intros [l [Hl [Hc He]]]; exists l; (split; [exact Hl|]); split; try exact He.
  - destruct Hc as [Hc|Hc]; apply String.eqb_eq in Hc; tauto.
  - destruct Hc as [Hc|Hc]; [left | right]; apply String.eqb_eq; exact Hc.
Qed.

(** The core graph in focus mode on the Notes page: Notes and Home. *)
Lemma focus_mode_keeps_link_ends_witness :
  map ln_id (visibleNodes coreGraph (Some "notes") allButtons EmptyString true)
  = ["home"; "notes"]
  /\ forall n,
       In n (visibleNodes coreGraph (Some "notes") allButtons EmptyString true) ->
       exists l, In l (g_links coreGraph)
                 /\ (l_source l = "notes" \/ l_target l = "notes")
                 /\ (ln_id n = l_source l \/ ln_id n = l_target l).
Proof.
  split; [vm_compute; reflexivity|].
  intros n Hn.
  apply (proj1 (focus_mode_keeps_link_ends coreGraph "notes" allButtons EmptyString n
                  ltac:(discriminate)) Hn).
Defined.

(** *** Degrees and radii *)

(** The ends of links at the id [i]. *)
Definition countEnds (links : list Link) (i : string) : nat :=
  length (List.filter (fun l => String.eqb (l_source l) i) links)
  + length (List.filter (fun l => String.eqb (l_target l) i) links).

Definition degreeIn (m : gmap string nat) (i : string) : nat := default 0%nat (m !! i).

Lemma degreeIn_insert (m : gmap string nat) (k i : string) (x : nat) :
  degreeIn (<[k := x]> m) i = if String.eqb k i then x else degreeIn m i.
Proof.
  unfold degreeIn. destruct (String.eqb_spec k i) as [->|Hne].
  - rewrite lookup_insert_eq. reflexivity.
  - rewrite lookup_insert_ne by exact Hne. reflexivity.
Qed.

Lemma degrees_zeroed (nodes : list Node) (m : gmap string nat) (i : string) :
  degreeIn m i = 0%nat ->
  degreeIn (fold_left (fun m n => <[n_id n := 0%nat]> m) nodes m) i = 0%nat.
Proof.
  revert m. induction nodes as [|n nodes IH]; simpl; intros m H; [exact H|].
  apply IH. rewrite degreeIn_insert. destruct (String.eqb (n_id n) i); [reflexivity | exact H].
Qed.

Lemma degrees_counted (links : list Link) (m : gmap string nat) (i : string) :
  degreeIn
    (fold_left
       (fun m l =>
          let m := <[l_source l := (default 0%nat (m !! l_source l) + 1)%nat]> m in
          <[l_target l := (default 0%nat (m !! l_target l) + 1)%nat]> m)
       links m) i
  = (degreeIn m i + countEnds links i)%nat.
Proof.
  revert m. induction links as [|l links IH]; intros m.
  - unfold countEnds. simpl. lia.
  - simpl fold_left. rewrite IH. cbv zeta. rewrite !degreeIn_insert.
    fold (degreeIn m (l_source l)).
    fold (degreeIn (<[l_source l := (degreeIn m (l_source l) + 1)%nat]> m) (l_target l)).
    rewrite !degreeIn_insert.
    unfold countEnds. simpl.
    destruct (String.eqb_spec (l_source l) i) as [Es|Es],
             (String.eqb_spec (l_target l) i) as [Et|Et]; simpl.
    + subst i. rewrite <- Et, String.eqb_refl. lia.
    + subst i. lia.
    + subst i. destruct (String.eqb_spec (l_source l) (l_target l)); [congruence|]. lia.
    + lia.
Qed.

Lemma nodeDegreesOf_counts (gd : GraphData) (i : string) :
  default 0%nat (nodeDegreesOf gd !! i) = countEnds (g_links gd) i.
Proof.
  unfold nodeDegreesOf. cbv zeta.
  change (default 0%nat (?m !! i)) with (degreeIn m i).
  rewrite degrees_counted, degrees_zeroed; [reflexivity|].
  unfold degreeIn. rewrite lookup_empty. reflexivity.
Qed.

Lemma visibleNodes_from (gd : GraphData) (currentId : option string)
    (active : gset string) (query : string) (focus : bool) (n : LNode) :
  In n (visibleNodes gd currentId active query focus) ->
  exists d, In d (g_nodes gd)
            /\ n = mkLNode d (Some (default 0%nat (nodeDegreesOf gd !! n_id d)))
                           None None None None.
Proof.
  unfold visibleNodes.
  set (nodes0 := map _ (g_nodes gd)).
  set (nodes1 := if negb (has "all" active) then _ else nodes0).
  set (nodes2 := if truthy query then _ else nodes1).
  intros Hin.
  assert (H2 : In n nodes2).
  { destruct (focus && truthyId currentId); [|exact Hin].
    apply filter_In in Hin as [Hin _]. exact Hin. }
  assert (H1 : In n nodes1).
  { unfold nodes2 in H2. destruct (truthy query); [|exact H2].
    apply filter_In in H2 as [H2 _]. exact H2. }
  assert (H0 : In n nodes0).
  { unfold nodes1 in H1. destruct (negb (has "all" active)); [|exact H1].
    apply filter_In in H1 as [H1 _]. exact H1. }
  unfold nodes0 in H0. apply in_map_iff in H0 as [d [<- Hd]]. exists d. tauto.
Qed.

Lemma staticLayout_degrees `{ForceSimulation} ticks margin ld cs cr width height
    currentId (nodes : list LNode) (links : list Link) :
  map (fun n => (ln_node n, ln_degree n))
      (staticLayout ticks margin ld cs cr width height currentId nodes links)
  = map (fun n => (ln_node n, ln_degree n)) nodes.
Proof.
  assert (Hup : forall p cx cy (l : list LNode),
             map (fun n => (ln_node n, ln_degree n)) (updateFirst p (pinAt cx cy) l)
             = map (fun n => (ln_node n, ln_degree n)) l).
  { intros p cx cy l. induction l as [|a l IH]; simpl; [reflexivity|].
    destruct (p a); simpl; [reflexivity | rewrite IH; reflexivity]. }
  assert (Hrd : forall sim i (l : list LNode),
             map (fun n => (ln_node n, ln_degree n)) (readPositions sim i l)
             = map (fun n => (ln_node n, ln_degree n)) l).
  { intros sim i l. revert i. induction l as [|a l IH]; simpl; intros i; [reflexivity|].
    rewrite IH. reflexivity. }
  unfold staticLayout, pinCurrent. rewrite map_map.
  erewrite map_ext.
  - rewrite Hup, Hrd, Hup. reflexivity.
  - intros n. simpl. destruct (negb (isCurrent currentId n)); reflexivity.
Qed.

(** X15. The degree a drawn node of the full view carries is the number of
    link ends at its id in the whole edge list: links whose other end is
    filtered out or is no node at all count too, and a link from a node to
    itself counts twice. *)
Theorem drawn_degree_counts_link_ends `{ForceSimulation}
    (gd : GraphData) (pathname : string) (clientWidth clientHeight : Z)
    (v : ViewState) (r : Render) (n : LNode) :
  initGraph gd pathname clientWidth clientHeight v = Some r ->
  In n (r_nodes r) ->
  ln_degree n = Some (countEnds (g_links gd) (ln_id n)).
Proof.
  unfold initGraph. destruct (g_nodes gd) as [|n0 rest] eqn:Enodes; [discriminate|].
  rewrite <- Enodes. intros [= <-]. simpl r_nodes. intros Hin.
  apply (in_map (fun n => (ln_node n, ln_degree n))) in Hin.
  rewrite staticLayout_degrees in Hin.
  apply in_map_iff in Hin as [n' [E Hn']]. injection E as En Ed.
  apply visibleNodes_from in Hn' as [d [_ ->]]. simpl in *.
  rewrite <- Ed. unfold ln_id. rewrite <- En. rewrite nodeDegreesOf_counts. reflexivity.
Qed.

(** In the core graph the Notes page has five link ends, four of them on
    links to notes that are not loaded. *)
Lemma drawn_degree_counts_link_ends_witness :
  exists r n,
    @initGraph gridSimulation coreGraph "/" 800 600 initialView = Some r
    /\ In n (r_nodes r)
    /\ ln_id n = "notes"
    /\ ln_degree n = Some (countEnds (g_links coreGraph) (ln_id n))
    /\ countEnds (g_links coreGraph) "notes" = 5%nat.
Proof.
  eexists. eexists. split; [vm_compute; reflexivity|].
  split; [right; right; left; reflexivity|]. split; [reflexivity|].
  split; [|reflexivity].
  apply (@drawn_degree_counts_link_ends gridSimulation coreGraph "/" 800 600
           initialView _ _ ltac:(vm_compute; reflexivity)).
  right. right. left. reflexivity.
Defined.

Lemma maxDegreeOf_bounds (nodes : list LNode) :
  (1 <= maxDegreeOf nodes)%nat
  /\ forall n, In n nodes -> (degreeOf n <= maxDegreeOf nodes)%nat.
Proof.
  unfold maxDegreeOf. induction nodes as [|a nodes [IH1 IH2]]; simpl.
  - split; [lia | tauto].
  - split; [lia|]. intros n [<-|Hn]; [lia|]. specialize (IH2 n Hn). lia.
Qed.

Lemma share_between_0_and_1 (a b : nat) :
  (a <= b)%nat -> (1 <= b)%nat ->
  (0 <= inject_Z (Z.of_nat a) / inject_Z (Z.of_nat b))%Q
  /\ (inject_Z (Z.of_nat a) / inject_Z (Z.of_nat b) <= 1)%Q.
Proof.
  intros Hab Hb.
  assert (Hpos : (0 < inject_Z (Z.of_nat b))%Q).
  { change 0%Q with (inject_Z 0). rewrite <- Zlt_Qlt. lia. }
  split.
  - apply Qle_shift_div_l; [exact Hpos|]. rewrite Qmult_0_l.
    change 0%Q with (inject_Z 0). rewrite <- Zle_Qle. lia.
  - apply Qle_shift_div_r; [exact Hpos|]. rewrite Qmult_1_l.
    rewrite <- Zle_Qle. lia.
Qed.

Lemma share_grows (a a' b : nat) :
  (a <= a')%nat -> (1 <= b)%nat ->
  (inject_Z (Z.of_nat a) / inject_Z (Z.of_nat b)
   <= inject_Z (Z.of_nat a') / inject_Z (Z.of_nat b))%Q.
Proof.
  intros Ha Hb.
  assert (Hpos : (0 < inject_Z (Z.of_nat b))%Q).
  { change 0%Q with (inject_Z 0). rewrite <- Zlt_Qlt. lia. }
  unfold Qdiv. apply Qmult_le_compat_r.
  - rewrite <- Zle_Qle. lia.
  - apply Qlt_le_weak, Qinv_lt_0_compat, Hpos.
Qed.

(** What the proofs below use of the rounding: it keeps the order, and the
    whole numbers from 0 to 16 are doubles. Rounding to the nearest double
    has both properties. *)
Definition roundsLikeDoubles `{Arithmetic} : Prop :=
  (forall a b, (a <= b)%Q -> (roundToDouble a <= roundToDouble b)%Q)
  /\ (forall z, (0 <= z <= 16)%Z -> (roundToDouble (inject_Z z) == inject_Z z)%Q).

Section Radius.
Context `{Arithmetic}.
Hypothesis Hround : roundsLikeDoubles.

Lemma round_le (a b : Q) : (a <= b)%Q -> (roundToDouble a <= roundToDouble b)%Q.
Proof. apply (proj1 Hround). Qed.

Lemma round_eq (a b : Q) : (a == b)%Q -> (roundToDouble a == roundToDouble b)%Q.
Proof.
  intros E. apply Qle_antisym; apply round_le; rewrite E; apply Qle_refl.
Qed.

Lemma round_whole (z : Z) (q : Q) :
  (0 <= z <= 16)%Z -> (q == inject_Z z)%Q -> (roundToDouble q == inject_Z z)%Q.
Proof.
  intros Hz E. rewrite (round_eq _ _ E). apply (proj2 Hround), Hz.
Qed.

Lemma round_between (lo hi : Z) (q : Q) :
  (0 <= lo <= 16)%Z -> (0 <= hi <= 16)%Z ->
  (inject_Z lo <= q)%Q -> (q <= inject_Z hi)%Q ->
  (inject_Z lo <= roundToDouble q)%Q /\ (roundToDouble q <= inject_Z hi)%Q.
Proof.
  intros Hlo Hhi H1 H2. split.
  - rewrite <- (proj2 Hround lo Hlo). apply round_le, H1.
  - rewrite <- (proj2 Hround hi Hhi). apply round_le, H2.
Qed.

(** The size before the clamp, as a function of the share
    degree / maxDegree. *)
Definition sizeOf (share : Q) : Q :=
  numAdd minRadius (numMul (roundToDouble share) (numSub maxRadius minRadius)).

Lemma span_is_10 : (numSub maxRadius minRadius == 10)%Q.
Proof.
  unfold numSub, maxRadius, minRadius.
  apply (round_whole 10); [lia | reflexivity].
Qed.

Lemma sizeOf_between (share : Q) :
  (0 <= share)%Q -> (share <= 1)%Q -> (6 <= sizeOf share)%Q /\ (sizeOf share <= 16)%Q.
Proof.
  intros H0 H1. unfold sizeOf, numAdd, numMul.
  destruct (round_between 0 1 share ltac:(lia) ltac:(lia) H0 H1) as [Ha Hb].
  change (inject_Z 0) with 0%Q in Ha. change (inject_Z 1) with 1%Q in Hb.
  pose proof span_is_10 as Hspan.
  set (r := roundToDouble share) in *. set (span := numSub maxRadius minRadius) in *.
  assert (Hprod : (0 <= r * span)%Q /\ (r * span <= 10)%Q).
  { rewrite Hspan. split; lra. }
  destruct Hprod as [Hp0 Hp1].
  destruct (round_between 0 10 (r * span) ltac:(lia) ltac:(lia) Hp0 Hp1) as [Hc Hd].
  change (inject_Z 0) with 0%Q in Hc. change (inject_Z 10) with 10%Q in Hd.
  unfold minRadius.
  apply (round_between 6 16); try lia.
  - change (inject_Z 6) with 6%Q. lra.
  - change (inject_Z 16) with 16%Q. lra.
Qed.

Lemma sizeOf_grows (share share' : Q) :
  (0 <= share)%Q -> (share <= share')%Q -> (sizeOf share <= sizeOf share')%Q.
Proof.
  intros H0 Hle. unfold sizeOf, numAdd, numMul.
  pose proof span_is_10 as Hspan.
  apply round_le. apply Qplus_le_r. apply round_le.
  apply Qmult_le_compat_r; [apply round_le, Hle|].
  rewrite Hspan. discriminate.
Qed.

Lemma sizeOf_0 (share : Q) : (share == 0)%Q -> (sizeOf share == 6)%Q.
Proof.
  intros E. unfold sizeOf, numAdd, numMul. pose proof span_is_10 as Hspan.
  assert (Hr : (roundToDouble share == 0)%Q)
    by (apply (round_whole 0); [lia | exact E]).
  assert (Hm : (roundToDouble (roundToDouble share * numSub maxRadius minRadius) == 0)%Q).
  { apply (round_whole 0); [lia|]. rewrite Hr. change (inject_Z 0) with 0%Q. ring. }
  apply (round_whole 6); [lia|]. rewrite Hm. reflexivity.
Qed.

Lemma sizeOf_1 (share : Q) : (share == 1)%Q -> (sizeOf share == 16)%Q.
Proof.
  intros E. unfold sizeOf, numAdd, numMul. pose proof span_is_10 as Hspan.
  assert (Hr : (roundToDouble share == 1)%Q)
    by (apply (round_whole 1); [lia | exact E]).
  assert (Hm : (roundToDouble (roundToDouble share * numSub maxRadius minRadius) == 10)%Q).
  { apply (round_whole 10); [lia|]. rewrite Hr, Hspan. reflexivity. }
  apply (round_whole 16); [lia|]. rewrite Hm. reflexivity.
Qed.

End Radius.

(** X16. With a rounding that keeps the order and leaves the whole numbers
    up to 16 as they are (as rounding to the nearest double does), among the
    nodes drawn: the current page gets the radius 18; any other node gets
    the rounded size 6 + (degree / maxDegree) * (16 - 6) itself, the clamp
    to [6, 16] never cutting anything off, so that its radius lies in
    [6, 16], is 6 for a node without links and 16 for a node of the largest
    degree, and is never smaller than the radius of a node with fewer
    links. *)
Theorem radius_scales_with_degree `{Arithmetic} (currentId : option string)
    (nodes : list LNode) (d : LNode) :
  roundsLikeDoubles ->
  In d nodes ->
  let radius := getRadius currentId (maxDegreeOf nodes) d in
  (isCurrent currentId d = true -> radius = 18%Q)
  /\ (isCurrent currentId d = false ->
      (radius == numAdd 6 (numMul (numDiv (inject_Z (Z.of_nat (degreeOf d)))
                                          (inject_Z (Z.of_nat (maxDegreeOf nodes))))
                                  (numSub 16 6)))%Q
      /\ (6 <= radius)%Q /\ (radius <= 16)%Q
      /\ (degreeOf d = 0%nat -> (radius == 6)%Q)
      /\ (degreeOf d = maxDegreeOf nodes -> (radius == 16)%Q)
      /\ (forall d', In d' nodes -> isCurrent currentId d' = false ->
                     (degreeOf d <= degreeOf d')%nat ->
                     (radius <= getRadius currentId (maxDegreeOf nodes) d')%Q)).
Proof.
  intros Hround Hin radius. unfold radius, getRadius. split.
  - intros ->. reflexivity.
  - intros ->. cbv zeta.
    destruct (maxDegreeOf_bounds nodes) as [Hmax Hle].
    pose proof (Hle d Hin) as Hd.
    destruct (share_between_0_and_1 _ _ Hd Hmax) as [H0 H1].
    set (share := (inject_Z (Z.of_nat (degreeOf d))
                   / inject_Z (Z.of_nat (maxDegreeOf nodes)))%Q) in *.
    change (numAdd minRadius (numMul (numDiv (inject_Z (Z.of_nat (degreeOf d)))
                                             (inject_Z (Z.of_nat (maxDegreeOf nodes))))
                                     (numSub maxRadius minRadius)))
      with (sizeOf share).
    change (numAdd 6 (numMul (numDiv (inject_Z (Z.of_nat (degreeOf d)))
                                     (inject_Z (Z.of_nat (maxDegreeOf nodes))))
                             (numSub 16 6)))
      with (sizeOf share).
    destruct (sizeOf_between Hround share H0 H1) as [Hlo Hhi].
    unfold minRadius, maxRadius.
    assert (Hval : (Qmax 6 (Qmin 16 (sizeOf share)) == sizeOf share)%Q).
    { rewrite (Q.min_r _ _ Hhi). apply Q.max_r, Hlo. }
    split; [exact Hval|]. split; [rewrite Hval; exact Hlo|].
    split; [rewrite Hval; exact Hhi|]. split; [|split].
    + intros E. rewrite Hval. apply (sizeOf_0 Hround).
      unfold share. rewrite E. reflexivity.
    + intros E. rewrite Hval. apply (sizeOf_1 Hround).
      unfold share. rewrite E.
      apply Qmult_inv_r. intros Hz.
      assert (Hpos : (0 < inject_Z (Z.of_nat (maxDegreeOf nodes)))%Q).
      { change 0%Q with (inject_Z 0). rewrite <- Zlt_Qlt. lia. }
      rewrite Hz in Hpos. apply Qlt_irrefl in Hpos. exact Hpos.
    + intros d' Hin' -> Hdeg. cbv zeta.
      change (numAdd minRadius
                (numMul (numDiv (inject_Z (Z.of_nat (degreeOf d')))
                                (inject_Z (Z.of_nat (maxDegreeOf nodes))))
                        (numSub maxRadius minRadius)))
        with (sizeOf (inject_Z (Z.of_nat (degreeOf d'))
                      / inject_Z (Z.of_nat (maxDegreeOf nodes)))).
      apply Q.max_le_compat_l, Q.min_le_compat_l.
      apply (sizeOf_grows Hround); [exact H0|].
      apply share_grows; assumption.
Qed.

(** A stand-in for the rounding, to run the sizes on examples: down to the
    next multiple of 1/1024. *)
Definition gridArithmetic : Arithmetic :=
  {| roundToDouble := fun q => (inject_Z (Qfloor (q * 1024)) / 1024)%Q |}.

Lemma gridArithmetic_rounds : @roundsLikeDoubles gridArithmetic.
Proof.
  split.
  - intros a b Hab. unfold roundToDouble, gridArithmetic. unfold Qdiv. apply Qmult_le_compat_r; [|discriminate].
    rewrite <- Zle_Qle. apply Qfloor_resp_le.
    apply Qmult_le_compat_r; [exact Hab | discriminate].
  - intros z _. unfold roundToDouble, gridArithmetic.
    assert (E : (inject_Z z * 1024 == inject_Z (z * 1024))%Q)
      by (rewrite inject_Z_mult; reflexivity).
    rewrite (Qfloor_comp _ _ E), Qfloor_Z, inject_Z_mult.
    field.
Qed.

(** A node with one of at most six link ends, the page being another. *)
Lemma radius_scales_with_degree_witness :
  (6 <= @getRadius gridArithmetic (Some "c")
          (maxDegreeOf
             [mkLNode (mkNode "a" "A" "/a" "nav") (Some 1%nat) None None None None;
              mkLNode (mkNode "b" "B" "/b" "nav") (Some 6%nat) None None None None])
          (mkLNode (mkNode "a" "A" "/a" "nav") (Some 1%nat) None None None None))%Q
  /\ (@getRadius gridArithmetic (Some "c")
        (maxDegreeOf
           [mkLNode (mkNode "a" "A" "/a" "nav") (Some 1%nat) None None None None;
            mkLNode (mkNode "b" "B" "/b" "nav") (Some 6%nat) None None None None])
        (mkLNode (mkNode "a" "A" "/a" "nav") (Some 1%nat) None None None None)
      <= 16)%Q.
Proof.
  destruct (@radius_scales_with_degree gridArithmetic (Some "c")
              [mkLNode (mkNode "a" "A" "/a" "nav") (Some 1%nat) None None None None;
               mkLNode (mkNode "b" "B" "/b" "nav") (Some 6%nat) None None None None]
              (mkLNode (mkNode "a" "A" "/a" "nav") (Some 1%nat) None None None None)
              gridArithmetic_rounds ltac:(left; reflexivity))
    as [_ Ha].
  destruct (Ha eq_refl) as (_ & Hlo & Hhi & _).
  split; [exact Hlo | exact Hhi].
Defined.

(** ** Category buttons *)

(** The [data-cat] values of the five buttons. *)
Definition buttonCats : list string := ["all"; "notes"; "work"; "reading"; "nav"].

Definition selectionInv (active : gset string) : Prop :=
  active ⊆ allButtons
  /\ ("notes" ∈ active -> "work" ∈ active -> "reading" ∈ active -> "nav" ∈ active
      -> "all" ∈ active).

Lemma forallb_four (active : gset string) :
  forallb (fun c => has c active) ["notes"; "work"; "reading"; "nav"] = true
  <-> "notes" ∈ active /\ "work" ∈ active /\ "reading" ∈ active /\ "nav" ∈ active.
Proof.
  simpl. rewrite !andb_true_iff, !has_true. tauto.
Qed.

Lemma clickFilter_inv (cat : string) (active : gset string) :
  In cat buttonCats -> selectionInv active -> selectionInv (clickFilter cat active).
Proof.
  intros Hcat [Hsub Hall]. unfold clickFilter.
  destruct (String.eqb_spec cat "all") as [->|Hne].
  - assert (E : (if has "all" active
                 then (∅ : gset string) ∪ {["all"]}
                 else (∅ : gset string) ∪ {["all"]}) = {["all"]}).
    { destruct (has "all" active); apply union_empty_l_L. }
    rewrite E. split.
    + intros x Hx. apply elem_of_singleton in Hx as ->.
      refine (bool_decide_unpack _ _). vm_compute. exact I.
    + intros Hn. apply elem_of_singleton in Hn. discriminate.
  - assert (Hfour : cat = "notes" \/ cat = "work" \/ cat = "reading" \/ cat = "nav").
    { simpl in Hcat. intuition congruence. }
    destruct (has cat active) eqn:Ehas.
    + split.
      * intros x Hx. apply elem_of_difference in Hx as [Hx _].
        apply elem_of_difference in Hx as [Hx _]. apply Hsub, Hx.
      * intros Hn Hw Hr Hv. exfalso.
        assert (Hgone : cat ∉ (active ∖ {[cat]}) ∖ {["all"]}).
        { intros Hx. apply elem_of_difference in Hx as [Hx _].
          apply elem_of_difference in Hx as [_ Hx]. apply Hx, elem_of_singleton.
          reflexivity. }
        destruct Hfour as [->|[->|[->| ->]]]; contradiction.
    + assert (Hsub' : active ∪ {[cat]} ⊆ allButtons).
      { intros x Hx. apply elem_of_union in Hx as [Hx|Hx]; [apply Hsub, Hx|].
        apply elem_of_singleton in Hx as ->.
        destruct Hfour as [->|[->|[->| ->]]];
          refine (bool_decide_unpack _ _); vm_compute; exact I. }
      destruct (forallb (fun c => has c (active ∪ {[cat]}))
                        ["notes"; "work"; "reading"; "nav"]) eqn:Efour.
      * split.
        -- intros x Hx. apply elem_of_union in Hx as [Hx|Hx]; [apply Hsub', Hx|].
           apply elem_of_singleton in Hx as ->.
           refine (bool_decide_unpack _ _). vm_compute. exact I.
        -- intros _ _ _ _. apply elem_of_union. right. apply elem_of_singleton.
           reflexivity.
      * split; [exact Hsub'|]. intros Hn Hw Hr Hv. exfalso.
        assert (forallb (fun c => has c (active ∪ {[cat]}))
                        ["notes"; "work"; "reading"; "nav"] = true)
          by (apply forallb_four; tauto).
        congruence.
Qed.

(** X17. Whatever buttons are clicked, the active set only ever holds
    values of the five buttons (the names 'models' and 'projects' passed to
    [add] never get in), and whenever all four categories are in it, 'all'
    is in it as well. *)
Theorem selection_stays_within_buttons (clicks : list string) :
  Forall (fun cat => In cat buttonCats) clicks ->
  activeAfter clicks ⊆ allButtons
  /\ ("models" ∉ activeAfter clicks)
  /\ ("projects" ∉ activeAfter clicks)
  /\ ("notes" ∈ activeAfter clicks -> "work" ∈ activeAfter clicks ->
      "reading" ∈ activeAfter clicks -> "nav" ∈ activeAfter clicks ->
      "all" ∈ activeAfter clicks).
Proof.
  intros Hclicks.
  assert (Hinv : selectionInv (activeAfter clicks)).
  { unfold activeAfter.
    assert (H0 : selectionInv allButtons).
    { split; [intros x Hx; exact Hx|]. intros _ _ _ _.
      refine (bool_decide_unpack _ _). vm_compute. exact I. }
    revert H0. generalize allButtons.
    induction Hclicks as [|cat clicks Hcat _ IH]; simpl; intros s Hs; [exact Hs|].
    apply IH, clickFilter_inv; assumption. }
  destruct Hinv as [Hsub Hall].
  split; [exact Hsub|]. split; [|split; [|exact Hall]].
  - intros Hx. apply Hsub in Hx. apply (bool_decide_pack _) in Hx.
    vm_compute in Hx. exact Hx.
  - intros Hx. apply Hsub in Hx. apply (bool_decide_pack _) in Hx.
    vm_compute in Hx. exact Hx.
Qed.

Lemma selection_stays_within_buttons_witness :
  activeAfter ["notes"; "all"; "all"; "work"] ⊆ allButtons
  /\ "models" ∉ activeAfter ["notes"; "all"; "all"; "work"].
Proof.
  destruct (selection_stays_within_buttons ["notes"; "all"; "all"; "work"])
    as [H1 [H2 _]]; [|split; assumption].
  repeat constructor; simpl; tauto.
Defined.

(** X18. After a click on All, a click on a category button followed by a
    second click on the same button leaves the active set empty, from any
    selection: the first click adds the category next to 'all' (nothing
    changes on screen), the second removes both. With the empty set the full
    view has no node left, whatever the query and the focus setting. *)
Theorem twice_after_all_hides_everything (active : gset string) (cat : string) :
  cat <> "all" ->
  clickFilter cat (clickFilter cat (clickFilter "all" active)) = ∅
  /\ forall gd currentId query focus,
       visibleNodes gd currentId
                    (clickFilter cat (clickFilter cat (clickFilter "all" active)))
                    query focus = [].
Proof.
  intros Hne.
  assert (E1 : clickFilter "all" active = {["all"]}).
  { unfold clickFilter. simpl. destruct (has "all" active); apply union_empty_l_L. }
  assert (Hhas : has cat {["all"]} = false).
  { unfold has. apply bool_decide_eq_false. rewrite elem_of_singleton. exact Hne. }
  assert (E2 : clickFilter cat {["all"]} = {["all"]} ∪ {[cat]}).
  { unfold clickFilter. apply String.eqb_neq in Hne. rewrite Hne, Hhas.
    destruct (forallb (fun c => has c ({["all"]} ∪ {[cat]}))
                      ["notes"; "work"; "reading"; "nav"]) eqn:Efour; [|reflexivity].
    exfalso. apply forallb_four in Efour as [Hn [Hw _]].
    apply elem_of_union in Hn as [Hn|Hn]; apply elem_of_singleton in Hn;
      [discriminate|].
    apply elem_of_union in Hw as [Hw|Hw]; apply elem_of_singleton in Hw;
      [discriminate|].
    congruence. }
  assert (E3 : clickFilter cat ({["all"]} ∪ {[cat]}) = ∅).
  { unfold clickFilter. apply String.eqb_neq in Hne. rewrite Hne.
    assert (Hin : has cat ({["all"]} ∪ {[cat]}) = true).
    { apply has_true, elem_of_union. right. apply elem_of_singleton. reflexivity. }
    rewrite Hin. apply set_eq. intros x. split.
    - intros Hx. apply elem_of_difference in Hx as [Hx Hall].
      apply elem_of_difference in Hx as [Hx Hcat].
      apply elem_of_union in Hx as [Hx|Hx]; contradiction.
    - intros Hx. apply not_elem_of_empty in Hx. destruct Hx. }
  rewrite E1, E2, E3. split; [reflexivity|].
  intros gd currentId query focus. unfold visibleNodes.
  assert (Hnone : forall x, has x (∅ : gset string) = false).
  { intros x. unfold has. apply bool_decide_eq_false. apply not_elem_of_empty. }
  rewrite Hnone. simpl negb. cbv iota.
  assert (Hcat : forall l : list LNode,
             List.filter (fun n => has (n_cat (ln_node n)) (∅ : gset string)) l = []).
  { induction l as [|a l IH]; simpl; [reflexivity|]. rewrite Hnone. exact IH. }
  rewrite Hcat. destruct (truthy query); destruct (focus && truthyId currentId);
    reflexivity.
Qed.

Lemma twice_after_all_hides_everything_witness :
  activeAfter ["all"; "notes"; "notes"] = ∅.
Proof.
  apply (proj1 (twice_after_all_hides_everything allButtons "notes"
                  ltac:(discriminate))).
Defined.

(** ** Keyboard navigation in the viewer *)

(** A viewer that is open, has drawn its current selection, and whose
    index is -1 or a position of the drawn list. *)
Definition settled (gd : GraphData) (pathname : string) (v : ViewState) : Prop :=
  modalActive v = true
  /\ keyboardFocusableNodes v <> []
  /\ keyboardFocusableNodes v
     = visibleNodes gd (getCurrentPageId (g_nodes gd) pathname)
                    (activeCategories v) (searchQuery v) (focusMode v)
  /\ (-1 <= focusedNodeIndex v
      <= Z.of_nat (length (keyboardFocusableNodes v)) - 1)%Z.

Lemma nodeAt_in_range (nodes : list LNode) (i : Z) :
  (0 <= i <= Z.of_nat (length nodes) - 1)%Z ->
  exists n, nodeAt nodes i = Some n /\ In n nodes.
Proof.
  intros Hi. unfold nodeAt.
  destruct (Z.ltb_spec i 0) as [Hlt|_]; [lia|].
  destruct (nth_error nodes (Z.to_nat i)) as [n|] eqn:E.
  - exists n. split; [reflexivity|]. eapply nth_error_In, E.
  - apply nth_error_None in E. lia.
Qed.

Lemma nodeAt_Some (nodes : list LNode) (i : Z) (n : LNode) :
  nodeAt nodes i = Some n ->
  (0 <= i <= Z.of_nat (length nodes) - 1)%Z /\ In n nodes.
Proof.
  unfold nodeAt. destruct (Z.ltb_spec i 0) as [Hlt|Hge]; [discriminate|].
  intros E. split; [|eapply nth_error_In, E].
  assert (Z.to_nat i < length nodes)%nat by (apply nth_error_Some; congruence).
  lia.
Qed.

Lemma visibleNodes_no_nodes (gd : GraphData) (currentId : option string)
    (active : gset string) (query : string) (focus : bool) :
  g_nodes gd = [] -> visibleNodes gd currentId active query focus = [].
Proof.
  intros E. unfold visibleNodes. rewrite E. simpl map.
  destruct (negb (has "all" active)), (truthy query), (focus && truthyId currentId);
    reflexivity.
Qed.

Lemma initGraphView_settled (gd : GraphData) (pathname : string) (v : ViewState)
    (i : Z) :
  keyboardFocusableNodes v <> [] ->
  keyboardFocusableNodes v
  = visibleNodes gd (getCurrentPageId (g_nodes gd) pathname)
                 (activeCategories v) (searchQuery v) (focusMode v) ->
  initGraphView gd pathname (withIndex i v) = withIndex i v.
Proof.
  unfold initGraphView.
  destruct (g_nodes gd) as [|d ds] eqn:E; [reflexivity|].
  rewrite <- E. intros Hne Hvis. unfold withIndex.
  cbn [activeCategories searchQuery focusMode focusedNodeIndex
       keyboardFocusableNodes modalActive].
  rewrite <- Hvis. reflexivity.
Qed.

Lemma arrowKey_settled (gd : GraphData) (pathname : string) (k : Key)
    (v : ViewState) :
  settled gd pathname v ->
  arrowKey gd pathname k v
  = withIndex (movedIndex k (focusedNodeIndex v)
                          (Z.of_nat (length (keyboardFocusableNodes v)))) v.
Proof.
  intros (Hopen & Hne & Hvis & Hi).
  assert (Hlen : (0 < Z.of_nat (length (keyboardFocusableNodes v)))%Z).
  { destruct (keyboardFocusableNodes v); [congruence | simpl; lia]. }
  destruct (movedIndex_in_range k (focusedNodeIndex v) _ Hlen Hi) as [Hm _].
  destruct (nodeAt_in_range _ _ Hm) as (n & Hn & _).
  unfold arrowKey.
  destruct (Z.eqb_spec (Z.of_nat (length (keyboardFocusableNodes v))) 0) as [E|_];
    [lia|].
  unfold movedIndex in Hn |- *.
  destruct k; cbv zeta; cbn [withIndex keyboardFocusableNodes focusedNodeIndex];
    rewrite Hn; apply initGraphView_settled; assumption.
Qed.

Lemma withIndex_settled (gd : GraphData) (pathname : string) (v : ViewState) (i : Z) :
  settled gd pathname v ->
  (-1 <= i <= Z.of_nat (length (keyboardFocusableNodes v)) - 1)%Z ->
  settled gd pathname (withIndex i v).
Proof.
  intros (Hopen & Hne & Hvis & _) Hi. repeat split; simpl; try assumption; lia.
Qed.

Lemma arrow_step_settled (gd : GraphData) (pathname : string) (k : Key)
    (target : Target) (v : ViewState) :
  settled gd pathname v ->
  settled gd pathname (step gd pathname v (ArrowKey k target))
  /\ keyboardFocusableNodes (step gd pathname v (ArrowKey k target))
     = keyboardFocusableNodes v.
Proof.
  intros Hs.
  assert (Hmoved : settled gd pathname (arrowKey gd pathname k v)
                   /\ keyboardFocusableNodes (arrowKey gd pathname k v)
                      = keyboardFocusableNodes v).
  { rewrite arrowKey_settled by exact Hs. split; [|reflexivity].
    apply withIndex_settled; [exact Hs|].
    destruct Hs as (_ & Hne & _ & Hi).
    assert (Hlen : (0 < Z.of_nat (length (keyboardFocusableNodes v)))%Z).
    { destruct (keyboardFocusableNodes v); [congruence | simpl; lia]. }
    destruct (movedIndex_in_range k (focusedNodeIndex v) _ Hlen Hi) as [Hm _]. lia. }
  simpl. destruct (negb (modalActive v)); [split; [exact Hs|reflexivity]|].
  destruct target, k; try exact Hmoved; split; try exact Hs; reflexivity.
Qed.

(** The arrow keys pressed one after the other, each with the element that
    had the keyboard focus. *)
Definition pressArrows (gd : GraphData) (pathname : string)
    (keys : list (Key * Target)) (v : ViewState) : ViewState :=
  fold_left (fun v kt => step gd pathname v (ArrowKey (fst kt) (snd kt))) keys v.

(** X19. In an open viewer whose index is -1 or a position of the drawn list,
    arrow keys (with nothing else in between) keep the drawn list and leave
    the index at -1 or a position of that list; from then on Enter either
    does nothing or opens the page of the node at the index, which is one of
    the drawn nodes; and once a key press on the page has moved the
    highlight, Enter does open a page. *)
Theorem arrows_keep_highlight_on_drawn_node (gd : GraphData) (pathname : string)
    (v : ViewState) (keys : list (Key * Target)) :
  settled gd pathname v ->
  let v' := pressArrows gd pathname keys v in
  keyboardFocusableNodes v' = keyboardFocusableNodes v
  /\ (-1 <= focusedNodeIndex v'
      <= Z.of_nat (length (keyboardFocusableNodes v)) - 1)%Z
  /\ (forall target path,
        enterKey v' target = Some path ->
        exists n, In n (keyboardFocusableNodes v)
                  /\ nodeAt (keyboardFocusableNodes v) (focusedNodeIndex v') = Some n
                  /\ path = n_path (ln_node n))
  /\ (forall k,
        exists n, In n (keyboardFocusableNodes v)
                  /\ enterKey (step gd pathname v' (ArrowKey k OnPage)) OnPage
                     = Some (n_path (ln_node n))).
Proof.
  intros Hs v'.
  assert (Hinv : settled gd pathname v'
                 /\ keyboardFocusableNodes v' = keyboardFocusableNodes v).
  { subst v'. unfold pressArrows. revert v Hs.
    induction keys as [|[k t] keys IH]; intros v Hs; cbn [fold_left fst snd];
      [split; [exact Hs|reflexivity]|].
    destruct (arrow_step_settled gd pathname k t v Hs) as [Hs' Hsame].
    destruct (IH _ Hs') as [Hs'' Hsame']. split; [exact Hs''|].
    rewrite Hsame'. exact Hsame. }
  destruct Hinv as [Hs' Hsame]. split; [exact Hsame|].
  split; [destruct Hs' as (_ & _ & _ & Hi); rewrite Hsame in Hi; exact Hi|].
  split.
  - intros target path. unfold enterKey.
    destruct (negb (modalActive v')); [discriminate|].
    rewrite Hsame.
    destruct target; try discriminate;
      (destruct (0 <=? focusedNodeIndex v')%Z; [|discriminate]);
      (destruct (nodeAt (keyboardFocusableNodes v) (focusedNodeIndex v'))
         as [n|] eqn:En; [|discriminate]);
      intros [= <-]; exists n; apply nodeAt_Some in En as [_ Hin]; auto.
  - intros k.
    assert (Hstep : step gd pathname v' (ArrowKey k OnPage)
                    = arrowKey gd pathname k v').
    { simpl. destruct Hs' as (Hopen & _). rewrite Hopen. reflexivity. }
    rewrite Hstep, arrowKey_settled by exact Hs'.
    destruct Hs' as (Hopen & Hne & _ & Hi).
    assert (Hlen : (0 < Z.of_nat (length (keyboardFocusableNodes v')))%Z).
    { destruct (keyboardFocusableNodes v'); [congruence | simpl; lia]. }
    destruct (movedIndex_in_range k (focusedNodeIndex v') _ Hlen Hi) as [Hm _].
    destruct (nodeAt_in_range _ _ Hm) as (n & Hn & Hin).
    exists n. split; [rewrite <- Hsame; exact Hin|].
    unfold enterKey. cbn [withIndex modalActive focusedNodeIndex keyboardFocusableNodes].
    rewrite Hopen. cbn [negb].
    destruct (Z.leb_spec 0 (movedIndex k (focusedNodeIndex v')
                              (Z.of_nat (length (keyboardFocusableNodes v')))));
      [|lia].
    rewrite Hn. reflexivity.
Qed.

Lemma opened_settled (gd : GraphData) (pathname : string) :
  g_nodes gd <> [] ->
  settled gd pathname (run gd pathname [OpenGraph])
  /\ keyboardFocusableNodes (run gd pathname [OpenGraph])
     = map (fun d => mkLNode d (Some (default 0%nat (nodeDegreesOf gd !! n_id d)))
                             None None None None) (g_nodes gd)
  /\ focusedNodeIndex (run gd pathname [OpenGraph]) = (-1)%Z.
Proof.
  intros Hne. unfold run. simpl. unfold initGraphView.
  destruct (g_nodes gd) as [|d ds] eqn:E; [congruence|].
  rewrite <- E. cbn [withModal initialView activeCategories searchQuery focusMode
                       focusedNodeIndex keyboardFocusableNodes modalActive].
  assert (Hvis : visibleNodes gd (getCurrentPageId (g_nodes gd) pathname)
                              allButtons EmptyString false
                 = map (fun d => mkLNode d (Some (default 0%nat
                                                    (nodeDegreesOf gd !! n_id d)))
                                         None None None None) (g_nodes gd)).
  { unfold visibleNodes.
    assert (Hall : has "all" allButtons = true)
      by (apply has_true; refine (bool_decide_unpack _ _); vm_compute; exact I).
    rewrite Hall. reflexivity. }
  split; [|split; [exact Hvis|reflexivity]].
  repeat split; cbn [activeCategories searchQuery focusMode focusedNodeIndex
                       keyboardFocusableNodes modalActive].
  - rewrite Hvis, E. discriminate.
  - lia.
  - rewrite Hvis, E. simpl. lia.
Qed.

Lemma arrows_keep_highlight_on_drawn_node_witness :
  keyboardFocusableNodes
    (pressArrows coreGraph "/" [(ArrowDown, OnPage); (ArrowUp, OnSearchInput)]
                 (run coreGraph "/" [OpenGraph]))
  = keyboardFocusableNodes (run coreGraph "/" [OpenGraph]).
Proof.
  apply (arrows_keep_highlight_on_drawn_node coreGraph "/"
           (run coreGraph "/" [OpenGraph])
           [(ArrowDown, OnPage); (ArrowUp, OnSearchInput)]).
  unfold settled. split; [vm_compute; reflexivity|].
  split; [vm_compute; discriminate|].
  split; [vm_compute; reflexivity|].
  vm_compute. split; discriminate.
Defined.

Lemma downs_index (gd : GraphData) (pathname : string) (k : nat) (v : ViewState) :
  settled gd pathname v ->
  let v' := fold_left (step gd pathname) (repeat (ArrowKey ArrowDown OnPage) k) v in
  settled gd pathname v'
  /\ keyboardFocusableNodes v' = keyboardFocusableNodes v
  /\ focusedNodeIndex v'
     = Z.min (focusedNodeIndex v + Z.of_nat k)
             (Z.of_nat (length (keyboardFocusableNodes v)) - 1).
Proof.
  revert v. induction k as [|k IH]; intros v Hs; cbv zeta.
  - simpl. split; [exact Hs|]. split; [reflexivity|].
    destruct Hs as (_ & _ & _ & Hi). lia.
  - cbn [repeat fold_left].
    destruct (arrow_step_settled gd pathname ArrowDown OnPage v Hs) as [Hs' Hsame].
    assert (Hidx : focusedNodeIndex (step gd pathname v (ArrowKey ArrowDown OnPage))
                   = Z.min (focusedNodeIndex v + 1)
                           (Z.of_nat (length (keyboardFocusableNodes v)) - 1)).
    { cbn [step]. destruct Hs as (Hopen & Hne & _). rewrite Hopen. cbn [negb].
      rewrite arrowKey_index by exact Hne. reflexivity. }
    destruct (IH _ Hs') as (Hs'' & Hsame' & Hidx').
    split; [exact Hs''|]. split; [rewrite Hsame'; exact Hsame|].
    rewrite Hidx', Hidx, Hsame. lia.
Qed.

(** X20. In a freshly opened viewer of a loaded graph, Enter does nothing;
    after [k >= 1] presses of ArrowDown the highlight is on node number
    [min k n] of the [n] nodes (counting from 1, in the order of the node
    list) and Enter opens that node's page; a first press of ArrowUp
    highlights the first node. *)
Theorem arrow_down_walks_the_node_list (gd : GraphData) (pathname : string) (k : nat) :
  g_nodes gd <> [] -> (1 <= k)%nat ->
  let opened := run gd pathname [OpenGraph] in
  let v := run gd pathname (OpenGraph :: repeat (ArrowKey ArrowDown OnPage) k) in
  enterKey opened OnPage = None
  /\ focusedNodeIndex v = (Z.of_nat (Nat.min k (length (g_nodes gd))) - 1)%Z
  /\ enterKey v OnPage
     = option_map n_path (nth_error (g_nodes gd) (Nat.min k (length (g_nodes gd)) - 1))
  /\ enterKey (run gd pathname [OpenGraph; ArrowKey ArrowUp OnPage]) OnPage
     = option_map n_path (nth_error (g_nodes gd) 0).
Proof.
  intros Hne Hk opened v.
  destruct (opened_settled gd pathname Hne) as (Hs & Hnodes & Hidx).
  fold opened in Hs, Hnodes, Hidx.
  assert (Hopen : modalActive opened = true) by (destruct Hs as (H & _); exact H).
  split.
  { unfold enterKey. rewrite Hopen, Hidx. reflexivity. }
  assert (Hv : v = fold_left (step gd pathname)
                             (repeat (ArrowKey ArrowDown OnPage) k) opened)
    by reflexivity.
  destruct (downs_index gd pathname k opened Hs) as (Hs' & Hsame & Hidx').
  rewrite <- Hv in Hs', Hsame, Hidx'.
  assert (Hlen : length (keyboardFocusableNodes opened) = length (g_nodes gd))
    by (rewrite Hnodes; apply length_map).
  rewrite Hidx, Hlen in Hidx'.
  assert (Hpos : (0 < length (g_nodes gd))%nat)
    by (destruct (g_nodes gd); [congruence | simpl; lia]).
  assert (Hi : focusedNodeIndex v
               = (Z.of_nat (Nat.min k (length (g_nodes gd))) - 1)%Z) by lia.
  split; [exact Hi|]. split.
  - unfold enterKey. destruct Hs' as (Hopen' & _). rewrite Hopen'. cbn [negb].
    rewrite Hi, Hsame, Hnodes.
    destruct (Z.leb_spec 0 (Z.of_nat (Nat.min k (length (g_nodes gd))) - 1)); [|lia].
    unfold nodeAt.
    destruct (Z.ltb_spec (Z.of_nat (Nat.min k (length (g_nodes gd))) - 1) 0); [lia|].
    replace (Z.to_nat (Z.of_nat (Nat.min k (length (g_nodes gd))) - 1))
      with (Nat.min k (length (g_nodes gd)) - 1)%nat by lia.
    rewrite nth_error_map.
    destruct (nth_error (g_nodes gd) (Nat.min k (length (g_nodes gd)) - 1));
      reflexivity.
  - assert (Hup : run gd pathname [OpenGraph; ArrowKey ArrowUp OnPage]
                  = withIndex 0 opened).
    { change (run gd pathname [OpenGraph; ArrowKey ArrowUp OnPage])
        with (step gd pathname opened (ArrowKey ArrowUp OnPage)).
      cbn [step]. rewrite Hopen. cbn [negb].
      rewrite arrowKey_settled by exact Hs. rewrite Hidx. unfold movedIndex.
      reflexivity. }
    rewrite Hup. unfold enterKey.
    cbn [withIndex modalActive focusedNodeIndex keyboardFocusableNodes].
    rewrite Hopen, Hnodes. cbn [negb]. unfold nodeAt.
    change (0 <=? 0)%Z with true. change (0 <? 0)%Z with false.
    change (Z.to_nat 0) with 0%nat. cbv iota.
    rewrite nth_error_map. destruct (nth_error (g_nodes gd) 0); reflexivity.
Qed.

Lemma arrow_down_walks_the_node_list_witness :
  enterKey (run coreGraph "/"
              (OpenGraph :: repeat (ArrowKey ArrowDown OnPage) 2)) OnPage
  = option_map n_path (nth_error (g_nodes coreGraph)
                                 (Nat.min 2 (length (g_nodes coreGraph)) - 1)).
Proof.
  apply (arrow_down_walks_the_node_list coreGraph "/" 2); [discriminate | lia].
Defined.

(** ** Reading time *)

Definition isWord (w : list ascii) : Prop :=
  w <> [] /\ Forall (fun c => isSpace c = false) w.

Definition isGap (g : list ascii) : Prop :=
  g <> [] /\ Forall (fun c => isSpace c = true) g.

(** Words after the first one, each with the white space before it. *)
Definition gapsAndWords (rest : list (list ascii * list ascii)) : list ascii :=
  concat (map (fun gw => fst gw ++ snd gw) rest).

Lemma dropSpaces_spaces (g l : list ascii) :
  Forall (fun c => isSpace c = true) g -> dropSpaces (g ++ l) = dropSpaces l.
Proof.
  induction 1 as [|c g Hc _ IH]; simpl; [reflexivity|]. rewrite Hc. exact IH.
Qed.

Lemma dropSpaces_word (c : ascii) (l : list ascii) :
  isSpace c = false -> dropSpaces (c :: l) = c :: l.
Proof. intros Hc. simpl. rewrite Hc. reflexivity. Qed.

Lemma splitRuns_word (w : list ascii) :
  Forall (fun c => isSpace c = false) w ->
  forall piece inRun c s,
    isSpace c = false ->
    splitRuns piece inRun (c :: w ++ s) = splitRuns (rev w ++ c :: piece) false s.
Proof.
  induction 1 as [|d w Hd _ IH]; intros piece inRun c s Hc.
  - simpl. rewrite Hc. reflexivity.
  - change (splitRuns piece inRun (c :: (d :: w) ++ s))
      with (if isSpace c
            then if inRun then splitRuns [] true (d :: w ++ s)
                 else rev piece :: splitRuns [] true (d :: w ++ s)
            else splitRuns (c :: piece) false (d :: w ++ s)).
    rewrite Hc, (IH (c :: piece) false d s Hd). simpl rev.
    rewrite <- app_assoc. reflexivity.
Qed.

Lemma splitRuns_gap (g : list ascii) (s : list ascii) :
  Forall (fun c => isSpace c = true) g ->
  splitRuns [] true (g ++ s) = splitRuns [] true s.
Proof.
  induction 1 as [|c g Hc _ IH]; simpl; [reflexivity|]. rewrite Hc. exact IH.
Qed.

Lemma splitRuns_words (rest : list (list ascii * list ascii)) :
  Forall (fun gw => isGap (fst gw) /\ isWord (snd gw)) rest ->
  forall piece,
    splitRuns piece false (gapsAndWords rest) = rev piece :: map snd rest.
Proof.
  induction 1 as [|[g w] rest [[Hg Hgs] [Hw Hws]] _ IH]; intros piece;
    [reflexivity|].
  simpl in Hg, Hgs, Hw, Hws. unfold gapsAndWords. simpl concat. cbn [fst snd].
  fold (gapsAndWords rest).
  destruct g as [|b g]; [congruence|]. destruct w as [|c w]; [congruence|].
  inversion Hgs as [|? ? Hb Hgs']; subst. inversion Hws as [|? ? Hc Hws']; subst.
  rewrite <- !app_assoc. simpl. rewrite Hb.
  rewrite (splitRuns_gap g _ Hgs').
  rewrite (splitRuns_word w Hws' [] true c (gapsAndWords rest) Hc).
  rewrite IH. rewrite rev_app_distr, rev_involutive. reflexivity.
Qed.

Lemma gapsAndWords_ends_in_word (first : list ascii)
    (rest : list (list ascii * list ascii)) :
  isWord first ->
  Forall (fun gw => isGap (fst gw) /\ isWord (snd gw)) rest ->
  exists body c, first ++ gapsAndWords rest = body ++ [c] /\ isSpace c = false.
Proof.
  intros Hfirst Hrest. revert first Hfirst.
  induction Hrest as [|[g w] rest [_ Hw] _ IH]; intros first [Hne Hall].
  - unfold gapsAndWords. simpl. rewrite app_nil_r.
    destruct (exists_last Hne) as (body & c & ->). exists body, c.
    split; [reflexivity|]. apply List.Forall_app in Hall as [_ Hc].
    inversion Hc; subst; assumption.
  - destruct (IH w Hw) as (body & c & E & Hc).
    exists (first ++ g ++ body), c. split; [|exact Hc].
    unfold gapsAndWords in E |- *. simpl concat. cbn [fst snd].
    rewrite <- !app_assoc. do 2 f_equal. exact E.
Qed.

Lemma trim_spaced (lead trail body : list ascii) (c d : ascii) (inner : list ascii) :
  Forall (fun c => isSpace c = true) lead ->
  Forall (fun c => isSpace c = true) trail ->
  isSpace c = false -> isSpace d = false ->
  c :: inner = body ++ [d] ->
  trim (Js.str (lead ++ (c :: inner) ++ trail)) = Js.str (c :: inner).
Proof.
  intros Hlead Htrail Hc Hd E. unfold trim. rewrite chars_str.
  rewrite (dropSpaces_spaces lead _ Hlead).
  change ((c :: inner) ++ trail) with (c :: inner ++ trail).
  rewrite (dropSpaces_word c _ Hc).
  change (c :: inner ++ trail) with ((c :: inner) ++ trail).
  rewrite rev_app_distr.
  rewrite (dropSpaces_spaces (rev trail)).
  - rewrite E, rev_app_distr. simpl rev. simpl app. rewrite Hd.
    simpl rev. rewrite rev_involutive. reflexivity.
  - apply List.Forall_forall. intros x Hx. apply in_rev in Hx.
    revert x Hx. apply List.Forall_forall. exact Htrail.
Qed.

(** X21. For a text made of words separated by runs of white space, with
    any white space before and after, the pieces counted are exactly the
    words, so the word count is the number of words and the reading time is
    that number divided by 200 and rounded up. *)
Theorem word_count_is_number_of_words (lead trail first : list ascii)
    (rest : list (list ascii * list ascii)) :
  Forall (fun c => isSpace c = true) lead ->
  Forall (fun c => isSpace c = true) trail ->
  isWord first ->
  Forall (fun gw => isGap (fst gw) /\ isWord (snd gw)) rest ->
  let text := Js.str (lead ++ (first ++ gapsAndWords rest) ++ trail) in
  splitOnSpaces (trim text) = map Js.str (first :: map snd rest)
  /\ wordCount text = Z.of_nat (S (length rest))
  /\ (200 * (readingTime text - 1) < Z.of_nat (S (length rest))
      <= 200 * readingTime text)%Z.
Proof.
  intros Hlead Htrail Hfirst Hrest text.
  destruct (gapsAndWords_ends_in_word first rest Hfirst Hrest) as (body & d & E & Hd).
  destruct Hfirst as [Hne Hall].
  destruct first as [|c first]; [congruence|].
  inversion Hall as [|? ? Hc Hall']; subst.
  assert (Htrim : trim text = Js.str ((c :: first) ++ gapsAndWords rest)).
  { unfold text. apply (trim_spaced lead trail body c d); assumption. }
  assert (Hsplit : splitOnSpaces (trim text)
                   = map Js.str ((c :: first) :: map snd rest)).
  { rewrite Htrim. unfold splitOnSpaces. rewrite chars_str. f_equal.
    change ((c :: first) ++ gapsAndWords rest)
      with (c :: first ++ gapsAndWords rest).
    rewrite (splitRuns_word first Hall' [] false c _ Hc).
    rewrite (splitRuns_words rest Hrest).
    rewrite rev_app_distr, rev_involutive. reflexivity. }
  assert (Hcount : wordCount text = Z.of_nat (S (length rest))).
  { unfold wordCount. rewrite Hsplit. f_equal. simpl. rewrite !length_map.
    reflexivity. }
  split; [exact Hsplit|]. split; [exact Hcount|].
  unfold readingTime. rewrite Hcount.
  pose proof (Z.div_mod (Z.of_nat (S (length rest)) + 199) 200 ltac:(lia)).
  pose proof (Z.mod_pos_bound (Z.of_nat (S (length rest)) + 199) 200 ltac:(lia)).
  lia.
Qed.

Lemma word_count_is_number_of_words_witness :
  wordCount "  in the  long run " = 4%Z.
Proof.
  apply (word_count_is_number_of_words
           (Js.chars "  ") (Js.chars " ") (Js.chars "in")
           [(Js.chars " ", Js.chars "the"); (Js.chars "  ", Js.chars "long");
            (Js.chars " ", Js.chars "run")]).
  - repeat constructor.
  - repeat constructor.
  - split; [discriminate | repeat constructor].
  - repeat constructor; discriminate.
Defined.

Lemma dropSpaces_all_spaces (g : list ascii) :
  Forall (fun c => isSpace c = true) g -> dropSpaces g = [].
Proof.
  intros Hg. rewrite <- (app_nil_r g). rewrite (dropSpaces_spaces g [] Hg).
  reflexivity.
Qed.

Lemma splitRuns_not_nil (s piece : list ascii) (inRun : bool) :
  splitRuns piece inRun s <> [].
Proof.
  revert piece inRun. induction s as [|c s IH]; intros piece inRun; simpl;
    [discriminate|].
  destruct (isSpace c); [destruct inRun|]; try apply IH; discriminate.
Qed.

(** X22. A text without any word (empty, or white space only) still counts
    as one word, because splitting the empty string gives one empty piece;
    so every page gets at least '1 min read', and in general the reading
    time is the least number of minutes, at least one, that covers the word
    count at 200 words a minute. *)
Theorem reading_time_at_least_one_minute (text : string) :
  (1 <= wordCount text)%Z
  /\ (1 <= readingTime text)%Z
  /\ (wordCount text <= 200 * readingTime text)%Z
  /\ (1 < readingTime text -> 200 * (readingTime text - 1) < wordCount text)%Z
  /\ (Forall (fun c => isSpace c = true) (Js.chars text) ->
      splitOnSpaces (trim text) = [EmptyString]
      /\ wordCount text = 1%Z /\ readingTime text = 1%Z).
Proof.
  assert (Hpos : (1 <= wordCount text)%Z).
  { unfold wordCount, splitOnSpaces. rewrite length_map.
    pose proof (splitRuns_not_nil (Js.chars (trim text)) [] false) as Hne.
    destruct (splitRuns [] false (Js.chars (trim text))); [congruence|].
    simpl length. lia. }
  split; [exact Hpos|]. unfold readingTime.
  pose proof (Z.div_mod (wordCount text + 199) 200 ltac:(lia)).
  pose proof (Z.mod_pos_bound (wordCount text + 199) 200 ltac:(lia)).
  split; [lia|]. split; [lia|]. split; [lia|].
  intros Hspaces.
  assert (Htrim : trim text = EmptyString).
  { unfold trim. rewrite (dropSpaces_all_spaces _ Hspaces). reflexivity. }
  unfold wordCount. rewrite Htrim. split; [reflexivity|].
  split; reflexivity.
Qed.

Lemma reading_time_at_least_one_minute_witness :
  wordCount "   " = 1%Z /\ readingTime "   " = 1%Z.
Proof.
  apply (reading_time_at_least_one_minute "   "). repeat constructor.
Defined.

(** ** The j and k keys on listing pages *)

(** The index after a series of key presses, from the initial -1. *)
Definition indexAfter {A : Type} (noteLinks : list A) (keys : list (bool * PageKey))
    : Z :=
  fold_left (fun i bk => fst (pageKey noteLinks (fst bk) (snd bk) i)) keys (-1)%Z.

Lemma pageKey_range {A : Type} (noteLinks : list A) (inField : bool) (key : PageKey)
    (i : Z) :
  (-1 <= i <= Z.of_nat (length noteLinks) - 1)%Z ->
  (-1 <= fst (pageKey noteLinks inField key i) <= Z.of_nat (length noteLinks) - 1)%Z.
Proof.
  intros Hi. unfold pageKey. destruct inField; [exact Hi|].
  destruct (Z.ltb_spec 0 (Z.of_nat (length noteLinks))); [|exact Hi].
  destruct key; simpl; lia.
Qed.

Lemma indexAfter_range {A : Type} (noteLinks : list A) (keys : list (bool * PageKey)) :
  (-1 <= indexAfter noteLinks keys <= Z.max (-1) (Z.of_nat (length noteLinks) - 1))%Z.
Proof.
  unfold indexAfter.
  assert (Hfold : forall i,
             (-1 <= i <= Z.max (-1) (Z.of_nat (length noteLinks) - 1))%Z ->
             (-1 <= fold_left (fun i bk => fst (pageKey noteLinks (fst bk) (snd bk) i))
                              keys i
              <= Z.max (-1) (Z.of_nat (length noteLinks) - 1))%Z);
    [|apply Hfold; lia].
  induction keys as [|[b k] keys IH]; intros i Hi; cbn [fold_left fst snd];
    [exact Hi|].
  apply IH. destruct noteLinks as [|a l].
  - unfold pageKey. destruct b; simpl; exact Hi.
  - pose proof (pageKey_range (a :: l) b k i). simpl length in *. lia.
Qed.

(** X23. On a page with at least one listed link, after any series of
    keys, a press of j or k outside a text field gives the focus to exactly
    one link, the one at the new index, which is a position of the list: j
    moves one link down and stays on the last, k moves one link up and stays
    on the first, and the very first press focuses the first link whichever
    of the two it is. A key pressed inside a text field changes nothing. *)
Theorem j_and_k_focus_a_listed_link {A : Type} (noteLinks : list A)
    (keys : list (bool * PageKey)) :
  noteLinks <> [] ->
  let len := Z.of_nat (length noteLinks) in
  let i := indexAfter noteLinks keys in
  (-1 <= i <= len - 1)%Z
  /\ (exists a, pageKey noteLinks false KeyJ i = (Z.min (i + 1) (len - 1), [a])
                /\ nth_error noteLinks (Z.to_nat (Z.min (i + 1) (len - 1))) = Some a)
  /\ (exists a, pageKey noteLinks false KeyK i = (Z.max (i - 1) 0, [a])
                /\ nth_error noteLinks (Z.to_nat (Z.max (i - 1) 0)) = Some a)
  /\ pageKey noteLinks false KeyJ (-1) = (0%Z, firstn 1 noteLinks)
  /\ pageKey noteLinks false KeyK (-1) = (0%Z, firstn 1 noteLinks)
  /\ (forall key, pageKey noteLinks true key i = (i, [])).
Proof.
  intros Hne len i.
  assert (Hlen : (0 < len)%Z)
    by (unfold len; destruct noteLinks; [congruence | simpl; lia]).
  assert (Hi : (-1 <= i <= len - 1)%Z)
    by (pose proof (indexAfter_range noteLinks keys); unfold i, len in *; lia).
  assert (Hat : forall j, (0 <= j <= len - 1)%Z ->
                  exists a, linkAt noteLinks j = Some a
                            /\ nth_error noteLinks (Z.to_nat j) = Some a).
  { intros j Hj. unfold linkAt. destruct (Z.ltb_spec j 0); [lia|].
    destruct (nth_error noteLinks (Z.to_nat j)) as [a|] eqn:E; [eauto|].
    apply nth_error_None in E. unfold len in Hj. lia. }
  split; [exact Hi|]. split; [|split; [|split; [|split]]].
  - destruct (Hat (Z.min (i + 1) (len - 1)) ltac:(lia)) as (a & Ha & Hn).
    exists a. split; [|exact Hn]. unfold pageKey. fold len.
    destruct (Z.ltb_spec 0 len); [|lia]. cbv zeta. rewrite Ha. reflexivity.
  - destruct (Hat (Z.max (i - 1) 0) ltac:(lia)) as (a & Ha & Hn).
    exists a. split; [|exact Hn]. unfold pageKey. fold len.
    destruct (Z.ltb_spec 0 len); [|lia]. cbv zeta. rewrite Ha. reflexivity.
  - unfold pageKey. fold len. destruct (Z.ltb_spec 0 len); [|lia]. cbv zeta.
    replace (Z.min (-1 + 1) (len - 1)) with 0%Z by lia.
    destruct noteLinks; [congruence | reflexivity].
  - unfold pageKey. fold len. destruct (Z.ltb_spec 0 len); [|lia]. cbv zeta.
    replace (Z.max (-1 - 1) 0) with 0%Z by lia.
    destruct noteLinks; [congruence | reflexivity].
  - intros key. reflexivity.
Qed.

Lemma j_and_k_focus_a_listed_link_witness :
  pageKey ["a.html"; "b.html"] false KeyK (-1) = (0%Z, firstn 1 ["a.html"; "b.html"]).
Proof.
  apply (j_and_k_focus_a_listed_link ["a.html"; "b.html"] [(false, KeyJ)]).
  discriminate.
Defined.

(** ** The recent-pages log as a function of the visits *)

(** What one call of [addRecentPage] makes of a log without repeated
    paths. *)
Definition logAfter (log : list (string * Z)) (visit : string * Z)
    : list (string * Z) :=
  firstn 10 (visit :: List.filter (otherThan (fst visit)) log).

(** The first entry of every path, in the order of the list. *)
Fixpoint firstPerPath (l : list (string * Z)) : list (string * Z) :=
  match l with
  | [] => []
  | e :: l' => e :: List.filter (otherThan (fst e)) (firstPerPath l')
  end.

Lemma filter_otherThan_In (path : string) (log : list (string * Z)) (e : string * Z) :
  In e (List.filter (otherThan path) log) <-> In e log /\ fst e <> path.
Proof.
  rewrite filter_In. unfold otherThan. rewrite negb_true_iff, String.eqb_neq.
  reflexivity.
Qed.

Lemma firstPerPath_NoDup (l : list (string * Z)) :
  List.NoDup (map fst (firstPerPath l)).
Proof.
  induction l as [|e l IH]; simpl; [constructor|].
  constructor; [|apply NoDup_map_filter, IH].
  intros Hin. apply in_map_iff in Hin as (x & E & Hx).
  apply filter_otherThan_In in Hx as [_ Hne]. congruence.
Qed.

Lemma firstPerPath_In (l : list (string * Z)) (e : string * Z) :
  In e (firstPerPath l)
  <-> exists before after,
        l = before ++ e :: after /\ ~ In (fst e) (map fst before).
Proof.
  revert e. induction l as [|a l IH]; intros e; simpl.
  - split; [tauto|]. intros (before & after & E & _).
    destruct before; discriminate.
  - split.
    + intros [->|Hin].
      * exists [], l. split; [reflexivity | simpl; tauto].
      * apply filter_otherThan_In in Hin as [Hin Hne].
        apply IH in Hin as (before & after & -> & Hout).
        exists (a :: before), after. split; [reflexivity|].
        simpl. intros [E|Hb]; [congruence | contradiction].
    + intros (before & after & E & Hout).
      destruct before as [|b before]; simpl in E; injection E as -> ->;
        [left; reflexivity|].
      right. apply filter_otherThan_In. simpl in Hout. split.
      * apply IH. exists before, after. split; [reflexivity | tauto].
      * intros Heq. apply Hout. left. congruence.
Qed.

Lemma filter_all (A : Type) (p : A -> bool) (l : list A) :
  (forall x, In x l -> p x = true) -> List.filter p l = l.
Proof.
  induction l as [|a l IH]; simpl; intros H; [reflexivity|].
  rewrite (H a (or_introl eq_refl)). f_equal. apply IH. intros x Hx.
  apply H. right. exact Hx.
Qed.

Lemma firstn_incl (A : Type) (n : nat) (l : list A) (x : A) :
  In x (firstn n l) -> In x l.
Proof.
  intros Hx. rewrite <- (firstn_skipn n l). apply in_or_app. left. exact Hx.
Qed.

Lemma firstn_firstn_same (A : Type) (n : nat) (l : list A) :
  firstn n (firstn n l) = firstn n l.
Proof. rewrite firstn_firstn. f_equal. lia. Qed.

Lemma firstn_filter_cut (path : string) (log : list (string * Z)) :
  List.NoDup (map fst log) ->
  forall n,
    firstn n (List.filter (otherThan path) (firstn (S n) log))
    = firstn n (List.filter (otherThan path) log).
Proof.
  induction log as [|[p t] log IH]; intros Hnd n; [reflexivity|].
  simpl in Hnd. inversion Hnd as [|? ? Hp Hl]; subst.
  change (firstn (S n) ((p, t) :: log)) with ((p, t) :: firstn n log).
  cbn [List.filter].
  assert (Hhead : otherThan path (p, t) = negb (String.eqb p path)) by reflexivity.
  rewrite !Hhead. clear Hhead.
  destruct (String.eqb_spec p path) as [->|Hne]; cbn [negb].
  - assert (Hall : forall x, In x log -> otherThan path x = true).
    { intros x Hx. unfold otherThan. apply negb_true_iff, String.eqb_neq.
      intros E. apply Hp. rewrite <- E. apply (in_map fst), Hx. }
    rewrite (filter_all _ _ log Hall).
    rewrite (filter_all _ _ (firstn n log)).
    + apply firstn_firstn_same.
    + intros x Hx. apply Hall. eapply firstn_incl, Hx.
  - destruct n as [|n]; [reflexivity|]. cbn [firstn].
    f_equal. apply IH, Hl.
Qed.

Lemma logAfter_firstPerPath (visits : list (string * Z)) :
  fold_left logAfter visits [] = firstn 10 (firstPerPath (rev visits)).
Proof.
  induction visits as [|v visits IH] using rev_ind; [reflexivity|].
  rewrite fold_left_app, rev_app_distr. cbn [fold_left rev app firstPerPath].
  rewrite IH. unfold logAfter.
  change (firstn 10 (v :: ?l)) with (v :: firstn 9 l).
  cbn [firstn]. f_equal.
  apply (firstn_filter_cut (fst v) _ (firstPerPath_NoDup (rev visits)) 9).
Qed.

Lemma addRecentPage_entries (path : string) (now : Z) (c : Cell)
    (log : list (string * Z)) :
  getRecentPages (mkStorage true true c) = Returned (JArray (entries log)) ->
  addRecentPage path now (mkStorage true true c)
  = Returned (mkStorage true true
                (Item (Some (JArray (entries (logAfter log (path, now))))))).
Proof.
  intros Hget. unfold addRecentPage. rewrite Hget. simpl bind.
  rewrite filterOutPath_entries. cbv zeta. simpl bind. unfold setItem.
  cbn [canRead canWrite tryCatch]. unfold logAfter, entries. cbn [fst snd].
  rewrite firstn_map. reflexivity.
Qed.

Lemma addRecentPages_entries (visits : list (string * Z)) :
  exists st',
    addRecentPages visits freshStorage = Returned st'
    /\ canRead st' = true /\ canWrite st' = true
    /\ getRecentPages st' = Returned (JArray (entries (fold_left logAfter visits []))).
Proof.
  induction visits as [|[p t] visits IH] using rev_ind.
  - exists freshStorage. repeat split; reflexivity.
  - destruct IH as ([r w c] & E & Hr & Hw & Hget). simpl in Hr, Hw. subst r w.
    rewrite addRecentPages_snoc, E. cbn [bind fst snd].
    rewrite (addRecentPage_entries p t c _ Hget).
    eexists. split; [reflexivity|]. split; [reflexivity|]. split; [reflexivity|].
    rewrite fold_left_app. reflexivity.
Qed.

(** X24. From an empty usable store, after the visits [visits] (oldest
    first) the log holds the visits read from the latest backwards, keeping
    only the first one met for every path, cut after ten: the ten most
    recently visited distinct pages, each with the time of its latest
    visit. Cutting the log at every visit loses nothing against cutting once
    at the end. *)
Theorem recent_log_is_latest_ten_distinct (visits : list (string * Z)) :
  exists st',
    addRecentPages visits freshStorage = Returned st'
    /\ getRecentPages st'
       = Returned (JArray (entries (firstn 10 (firstPerPath (rev visits)))))
    /\ (forall e, In e (firstn 10 (firstPerPath (rev visits))) ->
          exists earlier later,
            visits = earlier ++ e :: later /\ ~ In (fst e) (map fst later))
    /\ (forall e later earlier,
          visits = earlier ++ e :: later -> ~ In (fst e) (map fst later) ->
          (length (firstPerPath (rev later)) < 10)%nat ->
          In e (firstn 10 (firstPerPath (rev visits)))).
Proof.
  destruct (addRecentPages_entries visits) as (st' & E & _ & _ & Hget).
  exists st'. split; [exact E|]. rewrite logAfter_firstPerPath in Hget.
  split; [exact Hget|]. split.
  - intros e He. apply firstn_incl in He. apply firstPerPath_In in He
      as (before & after & Erev & Hout).
    exists (rev after), (rev before). split.
    + rewrite <- (rev_involutive visits), Erev, rev_app_distr. simpl.
      rewrite <- app_assoc. reflexivity.
    + intros Hin. apply Hout. rewrite map_rev in Hin. apply in_rev in Hin.
      exact Hin.
  - intros e later earlier -> Hout Hlen.
    rewrite rev_app_distr. cbn [rev]. rewrite <- app_assoc. cbn [app].
    assert (Hsplit : forall l tail,
               ~ In (fst e) (map fst l) ->
               exists kept,
                 firstPerPath (l ++ e :: tail) = firstPerPath l ++ e :: kept).
    { induction l as [|a l IHl]; intros tail Hl.
      - simpl. eexists. reflexivity.
      - simpl in Hl. destruct (IHl tail ltac:(tauto)) as (kept & Ek).
        cbn [app firstPerPath]. rewrite Ek.
        rewrite List.filter_app. cbn [List.filter].
        assert (Hkeep : otherThan (fst a) e = true).
        { unfold otherThan. apply negb_true_iff, String.eqb_neq. intros Heq.
          apply Hl. left. congruence. }
        rewrite Hkeep. eexists. reflexivity. }
    destruct (Hsplit (rev later) (rev earlier)) as (kept & Ek).
    { rewrite map_rev. intros Hin. apply in_rev in Hin. contradiction. }
    rewrite Ek.
    rewrite firstn_app.
    apply in_or_app. right.
    assert (Hfirst : length (firstn 10 (firstPerPath (rev later)))
                     = length (firstPerPath (rev later))).
    { rewrite length_firstn. lia. }
    destruct (10 - length (firstPerPath (rev later)))%nat as [|m] eqn:Em; [lia|].
    left. reflexivity.
Qed.

(** ** The list of recent paths read at start-up *)

Definition isArray (v : JValue) : bool :=
  match v with
  | JArray _ => true
  | _ => false
  end.

Lemma mapPath_entries (log : list (string * Z)) :
  mapPath (entries log) = Returned (map (fun e => Some (JString (fst e))) log).
Proof.
  unfold entries. induction log as [|[p t] log IH]; [reflexivity|].
  cbn [map mapPath]. rewrite IH. reflexivity.
Qed.

Lemma startUp_good (pathname : string) (now : Z) (st : Storage) :
  goodStore st ->
  exists st' log,
    startUp pathname now st
    = Returned (st', Some (JString pathname) :: map (fun e => Some (JString (fst e))) log)
    /\ getRecentPages st' = Returned (JArray (entries ((pathname, now) :: log))).
Proof.
  intros Hgood.
  destruct (addRecentPage_good pathname now st Hgood)
    as (st' & E & rest & -> & _ & _).
  exists (mkStorage true true
            (Item (Some (JArray (entries ((pathname, now) :: rest)))))), rest.
  unfold startUp. rewrite E. cbn [bind]. unfold recentPaths.
  assert (Hget : getRecentPages
                   (mkStorage true true
                      (Item (Some (JArray (entries ((pathname, now) :: rest))))))
                 = Returned (JArray (entries ((pathname, now) :: rest))))
    by reflexivity.
  rewrite Hget. cbn [bind]. rewrite mapPath_entries. split; reflexivity.
Qed.

(** X25. The start-up statements. With a usable store that is empty, holds
    an unparsable string or a log without repeated paths, they return the
    paths of the new log, the page's own path first. With a store that
    cannot be read they return the empty list. But when the store holds
    valid JSON that is not an array, [addRecentPage] swallows its exception
    and leaves the value in place, and the unguarded [map] throws: start-up
    fails, and it fails again on every later page load, whatever the page,
    since the value is never replaced. *)
Theorem start_up_paths_or_failure (pathname : string) (now : Z) (st : Storage) :
  (goodStore st ->
   exists st' log,
     startUp pathname now st
     = Returned (st', Some (JString pathname) :: map (fun e => Some (JString (fst e))) log)
     /\ getRecentPages st' = Returned (JArray (entries ((pathname, now) :: log))))
  /\ (canRead st = false -> exists st', startUp pathname now st = Returned (st', []))
  /\ (forall v, canRead st = true -> cell st = Item (Some v) -> isArray v = false ->
        addRecentPage pathname now st = Returned st
        /\ startUp pathname now st = Thrown
        /\ forall visits, addRecentPages visits st = Returned st).
Proof.
  split; [|split].
  - apply startUp_good.
  - destruct st as [r w c]. simpl. intros ->.
    unfold startUp, addRecentPage, getRecentPages, getItem, setItem. simpl.
    destruct w; eexists; reflexivity.
  - destruct st as [r w c]. simpl. intros v -> -> Hv.
    assert (Hadd : addRecentPage pathname now (mkStorage true w (Item (Some v)))
                   = Returned (mkStorage true w (Item (Some v)))).
    { unfold addRecentPage, getRecentPages, getItem. simpl.
      destruct v; try reflexivity. discriminate. }
    split; [exact Hadd|]. split.
    + unfold startUp. rewrite Hadd. cbn [bind].
      unfold recentPaths, getRecentPages, getItem. simpl.
      destruct v; try reflexivity. discriminate.
    + intros visits. induction visits as [|[p t] visits IH] using rev_ind;
        [reflexivity|].
      rewrite addRecentPages_snoc, IH. cbn [bind fst snd].
      unfold addRecentPage, getRecentPages, getItem. simpl.
      destruct v; try reflexivity. discriminate.
Qed.

Lemma start_up_paths_or_failure_witness :
  addRecentPage "/notes/" 7 (mkStorage true true (Item (Some (JNumber 5))))
  = Returned (mkStorage true true (Item (Some (JNumber 5))))
  /\ startUp "/notes/" 7 (mkStorage true true (Item (Some (JNumber 5)))) = Thrown.
Proof.
  destruct (start_up_paths_or_failure "/notes/" 7
              (mkStorage true true (Item (Some (JNumber 5)))))
    as (_ & _ & H).
  destruct (H (JNumber 5) eq_refl eq_refl eq_refl) as (Hadd & Hthrow & _).
  split; [exact Hadd | exact Hthrow].
Defined.

(** ** Typing in the search box *)

Lemma initGraphView_loaded (gd : GraphData) (pathname : string) (w : ViewState) :
  g_nodes gd <> [] ->
  initGraphView gd pathname w
  = mkView (activeCategories w) (searchQuery w) (focusMode w) (focusedNodeIndex w)
           (visibleNodes gd (getCurrentPageId (g_nodes gd) pathname)
                         (activeCategories w) (searchQuery w) (focusMode w))
           (modalActive w).
Proof.
  unfold initGraphView. destruct (g_nodes gd); [congruence | reflexivity].
Qed.

(** X26. Typing in the search box stores the value without the white space
    around it, takes the highlight away (so that Enter opens nothing until
    an arrow key is pressed again) and redraws: the nodes drawn are those of
    the category and focus selection whose label, path or id contains the
    lower-cased query. A value of white space only is no query: all nodes of
    the selection are drawn. Escape in the box clears the query and closes
    the viewer, after which the arrow keys are ignored. *)
Theorem typing_filters_and_clears_highlight (gd : GraphData) (pathname : string)
    (v : ViewState) (value : string) :
  g_nodes gd <> [] ->
  let currentId := getCurrentPageId (g_nodes gd) pathname in
  let selection :=
    visibleNodes gd currentId (activeCategories v) EmptyString (focusMode v) in
  let typed := step gd pathname v (SearchInput value) in
  let escaped := step gd pathname v SearchEscape in
  searchQuery typed = trim value
  /\ focusedNodeIndex typed = (-1)%Z
  /\ keyboardFocusableNodes typed
     = List.filter (matchesQuery (Js.toLowerCase (trim value))) selection
  /\ (forall target, enterKey typed target = None)
  /\ (Forall (fun c => isSpace c = true) (Js.chars value) ->
      keyboardFocusableNodes typed = selection)
  /\ searchQuery escaped = EmptyString
  /\ keyboardFocusableNodes escaped = selection
  /\ modalActive escaped = false
  /\ (forall k target, step gd pathname escaped (ArrowKey k target) = escaped).
Proof.
  intros Hne currentId selection typed escaped.
  assert (Hview : forall w, initGraphView gd pathname w
                    = mkView (activeCategories w) (searchQuery w) (focusMode w)
                             (focusedNodeIndex w)
                             (visibleNodes gd currentId (activeCategories w)
                                           (searchQuery w) (focusMode w))
                             (modalActive w)).
  { intros w. apply initGraphView_loaded, Hne. }
  assert (Htyped : typed
                   = mkView (activeCategories v) (trim value) (focusMode v) (-1)
                            (visibleNodes gd currentId (activeCategories v)
                                          (trim value) (focusMode v))
                            (modalActive v)).
  { unfold typed. cbn [step]. rewrite Hview. reflexivity. }
  assert (Hescaped : escaped
                     = mkView (activeCategories v) EmptyString (focusMode v) (-1)
                              selection false).
  { unfold escaped. cbn [step]. rewrite Hview. reflexivity. }
  rewrite Htyped, Hescaped.
  cbn [searchQuery focusedNodeIndex keyboardFocusableNodes modalActive].
  split; [reflexivity|]. split; [reflexivity|].
  split.
  { rewrite (visibleNodes_query _ _ _ _ _). fold selection.
    destruct (trim value) as [|c q] eqn:Eq; [|reflexivity].
    cbn [truthy String.eqb negb]. symmetry. apply filter_all.
    intros n _. unfold matchesQuery.
    destruct (Js.toLowerCase (n_label (ln_node n))); reflexivity. }
  split.
  { intros target. unfold enterKey.
    cbn [modalActive focusedNodeIndex keyboardFocusableNodes].
    destruct (negb (modalActive v)); [reflexivity|]. destruct target; reflexivity. }
  split.
  { intros Hblank. unfold trim. rewrite (dropSpaces_all_spaces _ Hblank). reflexivity. }
  split; [reflexivity|]. split; [reflexivity|]. split; [reflexivity|].
  intros k target. reflexivity.
Qed.

Lemma typing_filters_and_clears_highlight_witness :
  keyboardFocusableNodes (step coreGraph "/" initialView (SearchInput "  "))
  = visibleNodes coreGraph (getCurrentPageId (g_nodes coreGraph) "/")
                 (activeCategories initialView) EmptyString (focusMode initialView).
Proof.
  destruct (typing_filters_and_clears_highlight coreGraph "/" initialView "  ")
    as (_ & _ & _ & _ & H & _); [discriminate|].
  apply H. repeat constructor.
Defined.

(** ** Which answer of the two fetches is used *)

(** X27. The relative fallback is asked only when /search.json is answered
    with a status that is not ok. When the first fetch itself fails, or is
    answered ok with a body that is not a usable index, the page falls back
    to the core nodes whatever the fallback address would have answered; an
    ok answer with an index is used as it is; and after a not-ok answer
    (whose body is never read) an ok answer from the fallback address is
    used. *)
Theorem fallback_only_after_bad_status (fetch : string -> Settled Response)
    (pathname : string) (p : Page) :
  (fetch "/search.json" = Rejected ->
   loadIndex fetch pathname p = Fulfilled (onFailure p))
  /\ (forall res, fetch "/search.json" = Fulfilled res -> r_ok res = true ->
        loadIndex fetch pathname p
        = Fulfilled (match r_json res with
                     | Some searchData => onIndex searchData p
                     | None => onFailure p
                     end))
  /\ (forall res, fetch "/search.json" = Fulfilled res -> r_ok res = false ->
        loadIndex fetch pathname p
        = Fulfilled (match fetch (fallbackPath pathname) with
                     | Fulfilled res2 =>
                         if r_ok res2
                         then match r_json res2 with
                              | Some searchData => onIndex searchData p
                              | None => onFailure p
                              end
                         else onFailure p
                     | Rejected => onFailure p
                     end)).
Proof.
  unfold loadIndex, fetchIndex. split; [|split].
  - intros ->. reflexivity.
  - intros res -> Hok. simpl. rewrite Hok. simpl. destruct (r_json res); reflexivity.
  - intros res -> Hok. simpl. rewrite Hok. simpl.
    destruct (fetch (fallbackPath pathname)) as [res2|]; simpl; [|reflexivity].
    destruct (r_ok res2); simpl; [|reflexivity]. destruct (r_json res2); reflexivity.
Qed.

Lemma fallback_only_after_bad_status_witness :
  loadIndex (fun url => if String.eqb url "/search.json" then Rejected
                        else Fulfilled (mkResponse true (Some climateIndex)))
            "/notes/" initialPage
  = Fulfilled (onFailure initialPage).
Proof.
  apply (fallback_only_after_bad_status
           (fun url => if String.eqb url "/search.json" then Rejected
                       else Fulfilled (mkResponse true (Some climateIndex)))
           "/notes/" initialPage).
  reflexivity.
Defined.

(** ** Hover preview *)

Lemma substring0_length (n : nat) (s : string) :
  String.length (substring0 n s) = Nat.min n (String.length s).
Proof.
  unfold substring0. revert s. induction n as [|n IH]; intros [|c s]; simpl;
    try reflexivity.
  rewrite IH. reflexivity.
Qed.

Lemma substring0_short (n : nat) (s : string) :
  (String.length s <= n)%nat -> substring0 n s = s.
Proof.
  unfold substring0. revert s. induction n as [|n IH]; intros [|c s]; simpl;
    intros H; try reflexivity; [lia|].
  rewrite IH by lia. reflexivity.
Qed.

Lemma truthy_length (s : string) : truthy s = true <-> (0 < String.length s)%nat.
Proof. destruct s; simpl; split; intros H; try reflexivity; try discriminate; lia. Qed.

(** X28. The hover preview marks a description with an ellipsis exactly
    when the text shown has 150 characters or more, not when something was
    cut: a meta description is shown in full however long it is (and gets
    the mark from 150 characters on), a first paragraph of exactly 150
    characters is shown in full with the mark, a longer one is cut to 150
    characters, a shorter one is shown as it is without mark; the paragraph
    is used only when the meta description is missing or empty. *)
Theorem preview_ellipsis_by_length (meta paragraph : option string) :
  (forall m, meta = Some m -> m <> EmptyString ->
     previewDescriptionBlock meta paragraph
     = Some (String.append m (if (150 <=? String.length m)%nat then "..."
                              else EmptyString)))
  /\ (forall t, (meta = None \/ meta = Some EmptyString) -> paragraph = Some t ->
        t <> EmptyString ->
        previewDescriptionBlock meta paragraph
        = Some (if (150 <=? String.length t)%nat
                then String.append (substring0 150 t) "..."
                else t))
  /\ ((meta = None \/ meta = Some EmptyString) ->
      (paragraph = None \/ paragraph = Some EmptyString) ->
      previewDescriptionBlock meta paragraph = None).
Proof.
  split; [|split].
  - intros m -> Hm. unfold previewDescriptionBlock, previewDescription, orString.
    assert (Ht : truthy m = true) by (destruct m; [congruence | reflexivity]).
    do 4 (cbv beta iota zeta; rewrite ?Ht). reflexivity.
  - intros t Hmeta -> Ht.
    assert (Hcut : truthy (substring0 150 t) = true).
    { apply truthy_length. rewrite substring0_length.
      destruct t; [congruence | simpl; lia]. }
    assert (Hdesc : previewDescription meta (Some t) = substring0 150 t).
    { unfold previewDescription, orString.
      destruct Hmeta as [-> | ->]; simpl option_map; cbn [truthy negb String.eqb];
        do 4 (cbv beta iota zeta; rewrite ?Hcut); reflexivity. }
    unfold previewDescriptionBlock. rewrite Hdesc. cbv zeta. rewrite Hcut.
    rewrite substring0_length.
    destruct (Nat.leb_spec 150 (String.length t)) as [Hlong|Hshort].
    + replace (Nat.min 150 (String.length t)) with 150%nat by lia. reflexivity.
    + destruct (Nat.leb_spec 150 (Nat.min 150 (String.length t))); [lia|].
      rewrite substring0_short by lia. f_equal.
      clear. induction t as [|c t IH]; [reflexivity|].
      change (String c (String.append t EmptyString) = String c t).
      rewrite IH. reflexivity.
  - intros [-> | ->] [-> | ->]; reflexivity.
Qed.

Lemma preview_ellipsis_by_length_witness :
  previewDescriptionBlock (Some EmptyString) (Some "Rates and risk.")
  = Some "Rates and risk.".
Proof.
  destruct (preview_ellipsis_by_length (Some EmptyString) (Some "Rates and risk."))
    as (_ & H & _).
  apply (H "Rates and risk."); [right; reflexivity | reflexivity | discriminate].
Defined.

(** ** Colour and marks of a node in the full view *)

(** X29. A node is marked recent when its path is among the addresses
    recorded, compared as they were typed. On a page opened at a node's own
    path, with a usable store, that node is drawn as 'current recent' in the
    primary colour. Opened at the same path followed by index.html, from an
    empty store, the page is still recognised as that node, which is drawn
    as 'current' only, and no node at all is marked recent, since no node
    path contains index.html. A node of a loaded graph that is neither
    current nor recent takes the colour of its category; for a reading page
    that is the colour of the recent mark. *)
Theorem recent_mark_compares_addresses (searchData : list SearchItem) (n : Node)
    (now : Z) (st : Storage) (d : LNode) :
  In n (nodesOfIndex searchData) -> ln_node d = n -> goodStore st ->
  let nodes := nodesOfIndex searchData in
  (exists st' recentPages,
      startUp (n_path n) now st = Returned (st', recentPages)
      /\ circleClass (getCurrentPageId nodes (n_path n)) recentPages d
         = "current recent"
      /\ fillOf (getCurrentPageId nodes (n_path n)) recentPages d
         = "var(--bs-primary)")
  /\ (exists st' recentPages,
        startUp (String.append (n_path n) "index.html") now freshStorage
        = Returned (st', recentPages)
        /\ getCurrentPageId nodes (String.append (n_path n) "index.html")
           = Some (n_id n)
        /\ circleClass (Some (n_id n)) recentPages d = "current"
        /\ forall m, In m nodes -> isRecent recentPages (n_path m) = false)
  /\ (forall currentId recentPages,
        isCurrent currentId d = false ->
        isRecent recentPages (n_path n) = false ->
        fillOf currentId recentPages d = catColor (n_cat n)
        /\ In (n_cat n, catColor (n_cat n)) catColors)
  /\ (forall currentId recentPages,
        isCurrent currentId d = false -> n_cat n = "reading" ->
        fillOf currentId recentPages d = "var(--bs-warning)").
Proof.
  intros Hin Hd Hgood nodes.
  destruct (loaded_path_resolves searchData n Hin) as (Hown & Hindex).
  fold nodes in Hown, Hindex.
  assert (Hid : getCurrentPageId nodes (n_path n) = Some (n_id n))
    by (unfold getCurrentPageId; rewrite Hown; reflexivity).
  assert (Hcur : isCurrent (Some (n_id n)) d = true).
  { unfold isCurrent, isId, ln_id. rewrite Hd. apply String.eqb_refl. }
  split; [|split; [|split]].
  - destruct (startUp_good (n_path n) now st Hgood) as (st' & log & E & _).
    exists st', (Some (JString (n_path n))
                   :: map (fun e => Some (JString (fst e))) log).
    split; [exact E|]. rewrite Hid.
    unfold circleClass, fillOf. rewrite Hcur, Hd.
    cbn [isRecent existsb]. rewrite String.eqb_refl. split; reflexivity.
  - assert (Hstart : startUp (String.append (n_path n) "index.html") now freshStorage
                     = Returned
                         (mkStorage true true
                            (Item (Some (JArray
                               [entry (String.append (n_path n) "index.html") now]))),
                          [Some (JString (String.append (n_path n) "index.html"))]))
      by reflexivity.
    eexists _, _. split; [exact Hstart|].
    assert (Hnone : forall m, In m nodes ->
                      isRecent [Some (JString (String.append (n_path n) "index.html"))]
                               (n_path m) = false).
    { intros m Hm. cbn [isRecent existsb]. rewrite orb_false_r.
      apply String.eqb_neq. intros E.
      pose proof (loaded_paths_clean searchData) as Hclean.
      rewrite List.Forall_forall in Hclean.
      destruct (Hclean m Hm) as (_ & Hno).
      rewrite <- E, includes_suffix in Hno. discriminate. }
    split; [unfold getCurrentPageId; rewrite Hindex; reflexivity|].
    split; [|exact Hnone].
    unfold circleClass. rewrite Hcur, Hd, (Hnone n Hin). reflexivity.
  - intros currentId recentPages Hnot Hrec. unfold fillOf. rewrite Hnot, Hd, Hrec.
    split; [reflexivity|].
    destruct (nodesOfIndex_inv searchData) as [_ Hloaded].
    rewrite List.Forall_forall in Hloaded.
    destruct (Hloaded n Hin) as [[-> | [-> | [-> | ->]]] _]; simpl; tauto.
  - intros currentId recentPages Hnot Hcat. unfold fillOf. rewrite Hnot, Hd, Hcat.
    destruct (isRecent recentPages (n_path n)); reflexivity.
Qed.

Lemma recent_mark_compares_addresses_witness :
  exists st' recentPages,
    startUp "/notes/" 3 freshStorage = Returned (st', recentPages)
    /\ circleClass (getCurrentPageId (nodesOfIndex climateIndex) "/notes/") recentPages
                   (mkLNode (mkNode "notes" "Notes" "/notes/" "nav")
                            None None None None None)
       = "current recent"
    /\ fillOf (getCurrentPageId (nodesOfIndex climateIndex) "/notes/") recentPages
              (mkLNode (mkNode "notes" "Notes" "/notes/" "nav")
                       None None None None None)
       = "var(--bs-primary)".
Proof.
  apply (recent_mark_compares_addresses climateIndex
           (mkNode "notes" "Notes" "/notes/" "nav") 3 freshStorage
           (mkLNode (mkNode "notes" "Notes" "/notes/" "nav")
                    None None None None None)).
  - vm_compute. tauto.
  - reflexivity.
  - split; [reflexivity|]. split; [reflexivity|]. left. reflexivity.
Defined.

(** ** Backlinks and related pages mirror each other *)

Lemma findById_own (nodes : list Node) (a : Node) :
  List.NoDup (map n_id nodes) -> In a nodes -> findById nodes (n_id a) = Some a.
Proof.
  intros Hnd Hin. unfold findById. apply find_the_only; [exact Hin | apply String.eqb_refl|].
  intros b Hb E. apply String.eqb_eq in E.
  apply (NoDup_map_injective n_id nodes); auto.
Qed.

(** X30. On a loaded graph whose node ids are pairwise distinct, for two
    different pages [a] and [b] other than the homepage: [a] is listed under
    'Linked from' on the page of [b] exactly when the link list holds the
    link from [a] to [b], and that is exactly when [b] is listed under
    'Related content' on the page of [a]. A link is read in its direction
    only: the reverse link alone puts neither entry. *)
Theorem linked_from_mirrors_related (searchData : list SearchItem)
    (links : list Link) (a b : Node) :
  let nodes := nodesOfIndex searchData in
  let gd := mkGraph nodes links in
  In a nodes -> In b nodes -> a <> b ->
  List.NoDup (map n_id nodes) ->
  n_id a <> EmptyString -> n_id b <> EmptyString ->
  n_path a <> "/" -> n_path b <> "/" ->
  exists onA onB,
    injectBacklinksAndRelated gd (n_path a) true = Some onA
    /\ injectBacklinksAndRelated gd (n_path b) true = Some onB
    /\ (In a (s_backlinks onB) <-> In (mkLink (n_id a) (n_id b)) links)
    /\ (In b (s_related onA) <-> In (mkLink (n_id a) (n_id b)) links).
Proof.
  intros nodes gd Ha Hb Hab Hids Hida Hidb Hpa Hpb.
  destruct (nodesOfIndex_inv searchData) as [Hpaths _]. fold nodes in Hpaths.
  pose proof (loaded_paths_clean searchData) as Hclean.
  rewrite List.Forall_forall in Hclean. fold nodes in Hclean.
  assert (Hpage : forall n, In n nodes -> n_id n <> EmptyString -> n_path n <> "/" ->
            injectBacklinksAndRelated gd (n_path n) true
            = Some (mkSections (uniqueByPath (backlinksOf gd (n_id n) (n_path n)))
                               (uniqueByPath (relatedOf gd (n_id n) (n_path n))))).
  { intros n Hn Hid Hp. destruct (Hclean n Hn) as (Hslash & Hno).
    apply injectBacklinksAndRelated_found.
    - change (getCurrentPageId (nodesOfIndex searchData) (n_path n) = Some (n_id n)).
      unfold getCurrentPageId.
      rewrite (proj1 (loaded_path_resolves searchData n Hn)). reflexivity.
    - unfold truthy. apply negb_true_iff, String.eqb_neq, Hid.
    - unfold truthy. apply negb_true_iff, String.eqb_neq. intros E.
      rewrite E in Hslash. discriminate.
    - apply String.eqb_neq, Hp.
    - apply String.eqb_neq. intros E. rewrite E in Hno. vm_compute in Hno.
      discriminate. }
  assert (Hdiff : n_path a <> n_path b).
  { intros E. apply Hab. apply (NoDup_map_injective n_path nodes); auto. }
  exists (mkSections (uniqueByPath (backlinksOf gd (n_id a) (n_path a)))
                     (uniqueByPath (relatedOf gd (n_id a) (n_path a)))),
         (mkSections (uniqueByPath (backlinksOf gd (n_id b) (n_path b)))
                     (uniqueByPath (relatedOf gd (n_id b) (n_path b)))).
  split; [apply Hpage; assumption|]. split; [apply Hpage; assumption|].
  cbn [s_backlinks s_related].
  split.
  - rewrite (uniqueByPath_In nodes) by
      (try exact Hpaths; rewrite backlinksOf_flat; apply linkedPage_incl).
    rewrite backlinksOf_flat, linkedPage_In. cbn [g_links g_nodes gd]. split.
    + intros (link & Hl & Ht & Hf & _).
      assert (Hs : l_source link = n_id a).
      { unfold findById in Hf. apply find_some in Hf as [_ E].
        apply String.eqb_eq in E. congruence. }
      destruct link as [s t]. simpl in Ht, Hs. subst. exact Hl.
    + intros Hl. exists (mkLink (n_id a) (n_id b)). cbn [l_source l_target].
      split; [exact Hl|]. split; [reflexivity|].
      split; [apply findById_own; assumption | exact Hdiff].
  - rewrite (uniqueByPath_In nodes) by
      (try exact Hpaths; rewrite relatedOf_flat; apply linkedPage_incl).
    rewrite relatedOf_flat, linkedPage_In. cbn [g_links g_nodes gd]. split.
    + intros (link & Hl & Hs & Hf & _).
      assert (Ht : l_target link = n_id b).
      { unfold findById in Hf. apply find_some in Hf as [_ E].
        apply String.eqb_eq in E. congruence. }
      destruct link as [s t]. simpl in Ht, Hs. subst. exact Hl.
    + intros Hl. exists (mkLink (n_id a) (n_id b)). cbn [l_source l_target].
      split; [exact Hl|]. split; [reflexivity|].
      split; [apply findById_own; assumption | congruence].
Qed.

Lemma linked_from_mirrors_related_witness :
  exists onA onB,
    injectBacklinksAndRelated
      (mkGraph (nodesOfIndex climateIndex)
               [mkLink "notes-climate-sal-" "about"])
      "/notes/climate/sal.html" true = Some onA
    /\ injectBacklinksAndRelated
         (mkGraph (nodesOfIndex climateIndex)
                  [mkLink "notes-climate-sal-" "about"])
         "/about.html" true = Some onB
    /\ (In (mkNode "notes-climate-sal-" "SAL" "/notes/climate/sal.html" "notes")
           (s_backlinks onB)
        <-> In (mkLink "notes-climate-sal-" "about")
               [mkLink "notes-climate-sal-" "about"])
    /\ (In (mkNode "about" "About" "/about.html" "nav") (s_related onA)
        <-> In (mkLink "notes-climate-sal-" "about")
               [mkLink "notes-climate-sal-" "about"]).
Proof.
  apply (linked_from_mirrors_related climateIndex
           [mkLink "notes-climate-sal-" "about"]
           (mkNode "notes-climate-sal-" "SAL" "/notes/climate/sal.html" "notes")
           (mkNode "about" "About" "/about.html" "nav")).
  - vm_compute. tauto.
  - vm_compute. tauto.
  - discriminate.
  - apply NoDup_ListNoDup. refine (bool_decide_unpack _ _). vm_compute. exact I.
  - discriminate.
  - discriminate.
  - discriminate.
  - discriminate.
Defined.
